(** * An explicit-free-list allocator (mm.c): embedding and properties

    The allocator of [src/mm.c] keeps boundary-tagged blocks in one growable
    region and threads the free ones on a doubly linked LIFO list anchored in
    the prologue block.  The code is embedded as functions of a small
    state-and-fault monad over a word-addressed memory.

    Conventions of the embedding (an LP64 target):
    - [unsigned int] and [int] are 32 bits wide, [size_t] and pointers 64;
    - a pointer is its address, a [Z]; [NULL] is [0];
    - memory is read and written one aligned 32-bit word at a time (the
      macros [GET] and [SET]); an access that is misaligned or outside
      the region handed out by the provider is undefined behaviour and makes
      the computation fault ([None]);
    - [size_t] arithmetic wraps modulo [2^64], stores through
      [unsigned int *] truncate modulo [2^32]. *)

From Stdlib Require Import ZArith List Lia Bool.
Import ListNotations.
Local Open Scope Z_scope.

(** ** Constants and integer conversions (mm.c, lines 25-32) *)

Definition WSIZE : Z := 4.
Definition DWSIZE : Z := 8.
Definition MINSIZE : Z := 16.
Definition CHUNKSIZE : Z := Z.shiftl 1 12.
Definition ALLOCATED : Z := 1.
Definition FREE : Z := 0.
Definition NULL : Z := 0.

(** Conversion to [unsigned int] and to [size_t]. *)
Definition uint (v : Z) : Z := v mod 2 ^ 32.
Definition usize (v : Z) : Z := v mod 2 ^ 64.

(** [ALIGN(size)] on a [size_t] (line 35). *)
Definition ALIGN (size : Z) : Z := Z.land (usize (size + (DWSIZE - 1))) (Z.lnot 7).

(** [PACK(size, alloc)] (line 42). *)
Definition PACK (size alloc : Z) : Z := Z.lor size alloc.

(** ** The heap: provider state, memory and the allocator's global *)

Record heap : Type := mkHeap {
  mem : Z -> Z;          (* the word stored at each aligned address *)
  mem_heap : Z;          (* first byte of the region *)
  mem_brk : Z;           (* one past the last byte handed out *)
  mem_max_addr : Z;      (* one past the last byte the provider can hand out *)
  head : Z               (* mm.c, line 59: head of the free list *)
}.

Definition set_mem (s : heap) (m : Z -> Z) : heap :=
  mkHeap m (mem_heap s) (mem_brk s) (mem_max_addr s) (head s).
Definition set_brk (s : heap) (b : Z) : heap :=
  mkHeap (mem s) (mem_heap s) b (mem_max_addr s) (head s).
Definition set_head (s : heap) (h : Z) : heap :=
  mkHeap (mem s) (mem_heap s) (mem_brk s) (mem_max_addr s) h.

(** Bytes granted by the provider so far. *)
Definition granted (s : heap) : Z := mem_brk s - mem_heap s.

(** ** The monad: state passing with faults *)

Definition M (A : Type) : Type := heap -> option (A * heap).

Definition ret {A} (a : A) : M A := fun s => Some (a, s).
Definition bind {A B} (c : M A) (k : A -> M B) : M B :=
  fun s => match c s with
           | Some (a, s') => k a s'
           | None => None
           end.
Definition fault {A} : M A := fun _ => None.

Notation "x <- c ;; k" := (bind c (fun x => k))
  (at level 61, c at next level, right associativity).
Notation "c ;;; k" := (bind c (fun _ => k))
  (at level 61, right associativity).
Notation "' pat <- c ;; k" := (bind c (fun x => match x with pat => k end))
  (at level 61, pat pattern, c at next level, right associativity).

Definition when (b : bool) (c : M unit) : M unit := if b then c else ret tt.

(** An access of one word at [p] is defined when [p] is word aligned and the
    word lies inside the region. *)
Definition valid (s : heap) (p : Z) : bool :=
  (p mod 4 =? 0) && (mem_heap s <=? p) && (p + 4 <=? mem_brk s).

Definition upd (m : Z -> Z) (p v : Z) : Z -> Z :=
  fun q => if q =? p then v else m q.

(** [GET(ptr)] and [SET(ptr, value)] (lines 38-39). *)
Definition GET (p : Z) : M Z :=
  fun s => if valid s p then Some (mem s p, s) else None.
Definition SET (p v : Z) : M unit :=
  fun s => if valid s p then Some (tt, set_mem s (upd (mem s) p (uint v))) else None.

Definition get_head : M Z := fun s => Some (head s, s).
Definition put_head (h : Z) : M unit := fun s => Some (tt, set_head s h).

(** [SIZE(hdr)] and [ALLOC(hdr)] (lines 43-44). *)
Definition SIZE (hdr : Z) : M Z := v <- GET hdr ;; ret (Z.land v (Z.lnot 7)).
Definition ALLOC (hdr : Z) : M Z := v <- GET hdr ;; ret (Z.land v 1).

(** [HDR], [FTR], [NEXT], [PREV], [PRED], [SUCC] (lines 47-56). *)
Definition HDR (p : Z) : Z := p - WSIZE.
Definition FTR (p : Z) : M Z := sz <- SIZE (HDR p) ;; ret (p + sz - DWSIZE).
Definition NEXT (p : Z) : M Z := sz <- SIZE (p - WSIZE) ;; ret (p + sz).
Definition PREV (p : Z) : M Z := sz <- SIZE (p - DWSIZE) ;; ret (p - sz).
Definition PRED (fbp : Z) : Z := fbp.
Definition SUCC (fbp : Z) : Z := fbp + WSIZE.

(** The failure value of the provider, [(void * ) -1]: as a pointer it is
    the address [2^64 - 1]. *)
Definition SBRK_FAILED : Z := usize (-1).

(** Modelled from the spec: the heap-growth provider [mem_sbrk] of
    memlib.c, which is not part of the sources.  [grow(nbytes)] extends the
    region upward by exactly [nbytes] and returns the start of the new part,
    or signals failure when the resource is exhausted; the failure value is
    the pointer [(void * ) -1]. *)
Definition mem_sbrk (incr : Z) : M Z :=
  fun s => if (incr <? 0) || (mem_brk s + incr >? mem_max_addr s)
           then Some (SBRK_FAILED, s)
           else Some (mem_brk s, set_brk s (mem_brk s + incr)).

(** The test [(p = mem_sbrk(..)) < 0] of lines 78, 90, 139 and 252, with [p]
    a [char *]: the constant converts to the null pointer and pointers
    compare as unsigned addresses, so no pointer is below it. *)
Definition ptr_lt_null (p : Z) : bool := usize p <? 0.

(** [memcpy(dst, src, n)].  Every length mm.c passes is a multiple of 8 and
    both pointers are word aligned, so the copy moves whole words; a copy
    that leaves the region, or whose ranges overlap, is undefined. *)
Definition memcpy (dst src n : Z) : M unit :=
  fun s =>
    if n =? 0 then Some (tt, s)
    else if (n mod 4 =? 0) && (dst mod 4 =? 0) && (src mod 4 =? 0)
            && (mem_heap s <=? dst) && (dst + n <=? mem_brk s)
            && (mem_heap s <=? src) && (src + n <=? mem_brk s)
            && ((dst + n <=? src) || (src + n <=? dst))
    then Some (tt, set_mem s (fun q => if (dst <=? q) && (q <? dst + n)
                                       then mem s (q - dst + src) else mem s q))
    else None.

(** ** Free-list primitives

    mm.c repeats these two sequences inline; they are shared here. *)

(** Insert [ptr] at the front of the free list
    (lines 149-155, 262-268, 340-346, 364-370). *)
Definition insert_front (ptr : Z) : M unit :=
  hd <- get_head ;;
  first <- GET (SUCC hd) ;;
  SET (SUCC hd) ptr ;;;
  SET (PRED ptr) hd ;;;
  SET (SUCC ptr) first ;;;
  when (negb (first =? NULL)) (SET (PRED first) ptr).

(** Splice [ptr] out of the free list
    (lines 176-181, 290-295, 356-361, 386-391). *)
Definition unlink (ptr : Z) : M unit :=
  pred <- GET (PRED ptr) ;;
  succ <- GET (SUCC ptr) ;;
  SET (SUCC pred) succ ;;;
  when (negb (succ =? NULL)) (SET (PRED succ) pred).

(** ** coalesce (lines 328-394) *)

Definition coalesce (ptr : Z) : M Z :=
  prev <- PREV ptr ;;
  next <- NEXT ptr ;;
  prev_alloc <- ALLOC (HDR prev) ;;
  next_alloc <- ALLOC (HDR next) ;;
  size <- SIZE (HDR ptr) ;;
  if negb (prev_alloc =? 0) && negb (next_alloc =? 0) then
    insert_front ptr ;;;
    ret ptr
  else if negb (prev_alloc =? 0) && (next_alloc =? 0) then
    nsz <- SIZE (HDR next) ;;
    let size := usize (size + nsz) in
    SET (HDR ptr) (PACK size FREE) ;;;
    f <- FTR ptr ;;
    SET f (PACK size FREE) ;;;
    unlink next ;;;
    insert_front ptr ;;;
    ret ptr
  else if (prev_alloc =? 0) && negb (next_alloc =? 0) then
    psz <- SIZE (HDR prev) ;;
    let size := usize (size + psz) in
    SET (HDR prev) (PACK size FREE) ;;;
    f <- FTR prev ;;
    SET f (PACK size FREE) ;;;
    ret prev
  else
    psz <- SIZE (HDR prev) ;;
    nsz <- SIZE (HDR next) ;;
    let size := usize (size + usize (psz + nsz)) in
    SET (HDR prev) (PACK size FREE) ;;;
    f <- FTR prev ;;
    SET f (PACK size FREE) ;;;
    unlink next ;;;
    ret prev.

(** ** mm_init (lines 74-103) *)

Definition mm_init : M Z :=
  heap_btm <- mem_sbrk (6 * WSIZE) ;;
  if ptr_lt_null heap_btm then ret (-1) else
  SET heap_btm 0 ;;;
  SET (heap_btm + 1 * WSIZE) (PACK (4 * WSIZE) ALLOCATED) ;;;
  SET (heap_btm + 2 * WSIZE) 0 ;;;
  SET (heap_btm + 3 * WSIZE) 0 ;;;
  SET (heap_btm + 4 * WSIZE) (PACK (4 * WSIZE) ALLOCATED) ;;;
  SET (heap_btm + 5 * WSIZE) (PACK 0 ALLOCATED) ;;;
  put_head (heap_btm + 2 * WSIZE) ;;;
  oldbrk <- mem_sbrk CHUNKSIZE ;;
  if ptr_lt_null oldbrk then ret (-1) else
  SET (HDR oldbrk) (PACK CHUNKSIZE FREE) ;;;
  f <- FTR oldbrk ;;
  SET f (PACK CHUNKSIZE FREE) ;;;
  n <- NEXT oldbrk ;;
  SET (HDR n) (PACK 0 ALLOCATED) ;;;
  hd <- get_head ;;
  SET (SUCC hd) oldbrk ;;;
  SET (PRED oldbrk) hd ;;;
  SET (SUCC oldbrk) 0 ;;;
  ret 0.

(** ** The steps mm_malloc and mm_realloc share *)

(** The block size for a request (lines 118-124, 231-237). *)
Definition adjust (size : Z) : Z :=
  if size <=? MINSIZE - DWSIZE then MINSIZE else usize (ALIGN size + DWSIZE).

(** The first-fit loop (lines 129-134, 242-247).  The loop is not structural;
    it runs on fuel, and running out of fuel is a fault. *)
Fixpoint scan (fuel : nat) (asize newptr : Z) : M Z :=
  match fuel with
  | O => fault
  | S fuel' =>
      if newptr =? NULL then ret NULL
      else
        sz <- SIZE (HDR newptr) ;;
        if sz >=? asize then ret newptr
        else
          nx <- GET (SUCC newptr) ;;
          scan fuel' asize nx
  end.

(** A terminating scan visits pairwise different blocks whose headers are
    words of the region, so one unit of fuel per byte granted is enough
    whenever the loop of the source terminates. *)
Definition first_fit (asize : Z) : M Z :=
  fun s =>
    (hd <- get_head ;;
     newptr <- GET (SUCC hd) ;;
     scan (Z.to_nat (granted s)) asize newptr) s.

(** Heap growth when no block fits (lines 137-163, 250-276); [None] is the
    early [return NULL] of lines 140 and 253. *)
Definition extend_heap (asize : Z) : M (option Z) :=
  let exsize := if asize >? CHUNKSIZE then asize else CHUNKSIZE in
  oldbrk <- mem_sbrk exsize ;;
  if ptr_lt_null oldbrk then ret None else
  SET (HDR oldbrk) (PACK exsize FREE) ;;;
  f <- FTR oldbrk ;;
  SET f (PACK exsize FREE) ;;;
  n <- NEXT oldbrk ;;
  SET (HDR n) (PACK 0 ALLOCATED) ;;;
  prev <- PREV oldbrk ;;
  pa <- ALLOC (HDR prev) ;;
  if negb (pa =? 0) then
    insert_front oldbrk ;;;
    ret (Some oldbrk)
  else
    psz <- SIZE (HDR prev) ;;
    let exsize := usize (exsize + psz) in
    SET (HDR prev) (PACK exsize FREE) ;;;
    f <- FTR prev ;;
    SET f (PACK exsize FREE) ;;;
    ret (Some prev).

(** Lines 126-163 and 239-276: the block to use, found or grown. *)
Definition obtain (asize : Z) : M (option Z) :=
  newptr <- first_fit asize ;;
  if newptr =? NULL then extend_heap asize else ret (Some newptr).

(** Lines 165-181 and 278-295: settle the final size, mark the block
    allocated and take it off the free list.  Returns [(asize, fsize)]. *)
Definition take (newptr asize : Z) : M (Z * Z) :=
  fsize <- SIZE (HDR newptr) ;;
  let asize := if usize (fsize - asize) <? MINSIZE then fsize else asize in
  SET (HDR newptr) (PACK asize ALLOCATED) ;;;
  f <- FTR newptr ;;
  SET f (PACK asize ALLOCATED) ;;;
  unlink newptr ;;;
  ret (asize, fsize).

(** Lines 183-189 and 309-315: the remainder becomes a free block. *)
Definition split (newptr asize fsize : Z) : M unit :=
  when (asize <? fsize)
    (newfree <- NEXT newptr ;;
     SET (HDR newfree) (PACK (usize (fsize - asize)) FREE) ;;;
     f <- FTR newfree ;;
     SET f (PACK (usize (fsize - asize)) FREE) ;;;
     coalesce newfree ;;;
     ret tt).

(** Lines 202-205, 224-226 and 304-306: mark a block free and coalesce. *)
Definition release (ptr size : Z) : M unit :=
  SET (HDR ptr) (PACK size FREE) ;;;
  f <- FTR ptr ;;
  SET f (PACK size FREE) ;;;
  coalesce ptr ;;;
  ret tt.

(** ** mm_malloc (lines 109-192) *)

Definition mm_malloc (size : Z) : M Z :=
  if size =? 0 then ret NULL else
  let asize := adjust size in
  o <- obtain asize ;;
  match o with
  | None => ret NULL
  | Some newptr =>
      '(asize, fsize) <- take newptr asize ;;
      split newptr asize fsize ;;;
      ret newptr
  end.

(** ** mm_free (lines 197-207) *)

Definition mm_free (ptr : Z) : M unit :=
  when (negb (ptr =? NULL))
    (size <- SIZE (HDR ptr) ;;
     release ptr size).

(** ** mm_realloc (lines 213-318) *)

Definition mm_realloc (ptr size : Z) : M Z :=
  oldsize <- (if negb (ptr =? NULL) then SIZE (HDR ptr) else ret 0) ;;
  if size =? 0 then
    when (negb (ptr =? NULL)) (release ptr oldsize) ;;;
    ret NULL
  else
  let asize := adjust size in
  o <- obtain asize ;;
  match o with
  | None => ret NULL
  | Some newptr =>
      '(asize, fsize) <- take newptr asize ;;
      when (negb (ptr =? NULL))
        (let smallsize := if oldsize <? asize then oldsize else asize in
         memcpy newptr ptr (usize (smallsize - DWSIZE)) ;;;
         release ptr oldsize) ;;;
      split newptr asize fsize ;;;
      ret newptr
  end.

(** ** A fresh provider and observations of the heap *)

(** The provider before [mm_init]: an empty region at [base] that can grow to
    [limit]; memory content is arbitrary, here zero. *)
Definition fresh (base limit : Z) : heap :=
  mkHeap (fun _ => 0) base base limit 0.

(** What a computation returns together with an observation of the heap it
    leaves. *)
Definition observe {A B} (c : M A) (f : A -> heap -> B) (s : heap) : option B :=
  match c s with Some (a, s') => Some (f a s') | None => None end.

(** Size and allocation bit recorded in the header of the block at [p]. *)
Definition block_size (s : heap) (p : Z) : Z := Z.land (mem s (HDR p)) (Z.lnot 7).
Definition block_alloc (s : heap) (p : Z) : bool := negb (Z.land (mem s (HDR p)) 1 =? 0).

(** Usable bytes of the block at [p]: its size less header and footer. *)
Definition usable (s : heap) (p : Z) : Z := block_size s p - DWSIZE.

(** The blocks met walking the headers from the first block after the
    prologue up to the epilogue (a header of size 0), as
    [(address, size, allocated)]. *)
Fixpoint walk (fuel : nat) (s : heap) (p : Z) : option (list (Z * Z * bool)) :=
  match fuel with
  | O => None
  | S fuel' =>
      if valid s (HDR p) then
        let sz := block_size s p in
        if sz =? 0 then Some []
        else match walk fuel' s (p + sz) with
             | Some l => Some ((p, sz, block_alloc s p) :: l)
             | None => None
             end
      else None
  end.

Definition blocks_of (s : heap) : option (list (Z * Z * bool)) :=
  walk (Z.to_nat (granted s)) s (head s + MINSIZE).

(** The addresses met following the successor links from the sentinel. *)
Fixpoint follow (fuel : nat) (s : heap) (p : Z) : option (list Z) :=
  match fuel with
  | O => None
  | S fuel' =>
      if p =? NULL then Some []
      else if valid s (SUCC p) then
        match follow fuel' s (mem s (SUCC p)) with
        | Some l => Some (p :: l)
        | None => None
        end
      else None
  end.

Definition free_list (s : heap) : option (list Z) :=
  if valid s (SUCC (head s))
  then follow (Z.to_nat (granted s)) s (mem s (SUCC (head s)))
  else None.

(** Some pair of physically adjacent blocks is free on both sides. *)
Fixpoint adjacent_free (l : list (Z * Z * bool)) : bool :=
  match l with
  | (_, _, a1) :: ((_, _, a2) :: _) as l' => (negb a1 && negb a2) || adjacent_free l'
  | _ => false
  end.

(** The addresses of the blocks whose header marks them free. *)
Definition free_blocks (l : list (Z * Z * bool)) : list Z :=
  map (fun b => fst (fst b)) (filter (fun b => negb (snd b)) l).

Definition total_size (l : list (Z * Z * bool)) : Z :=
  fold_right (fun b acc => snd (fst b) + acc) 0 l.

(** ** A call sequence that reaches the wrap-around of [adjust]

    Two small blocks are allocated, the first is freed, and a request of
    [2^64 - 8] bytes follows: [ALIGN] yields [2^64 - 8], adding [DWSIZE]
    wraps to 0, and the first free block "fits". *)
Definition two_blocks_one_freed : M unit :=
  mm_init ;;;
  a1 <- mm_malloc 8 ;;
  _ <- mm_malloc 8 ;;
  mm_free a1.

Definition huge : Z := 2 ^ 64 - 8.

Definition heap0 : heap := fresh 4096 (2 ^ 20).

(** * Properties *)

(** ** Evaluation of the wrap-around sequence *)

Lemma adjust_huge : adjust huge = 0.
Proof. reflexivity. Qed.

(** The heap before the huge request is in order: three blocks, the
    first and the last free and both on the free list. *)
Lemma two_blocks_one_freed_heap :
  observe two_blocks_one_freed (fun _ s => (blocks_of s, free_list s)) heap0
  = Some (Some [(4120, 16, false); (4136, 16, true); (4152, 4064, false)],
          Some [4120; 4152]).
Proof. vm_compute. reflexivity. Qed.

(** C1. After [two_blocks_one_freed], [mm_malloc (2^64 - 8)] returns and
    leaves two physically adjacent blocks, at 4120 and at 4152, both marked
    free. *)
Theorem malloc_huge_adjacent_free_C1 :
  observe (two_blocks_one_freed ;;; mm_malloc huge)
          (fun _ s => (blocks_of s, option_map adjacent_free (blocks_of s))) heap0
  = Some (Some [(4120, 32, false); (4152, 4064, false)], Some true).
Proof. vm_compute. reflexivity. Qed.

(** C2. After the same calls the block at 4120 is marked free in its header
    but the traversal of the free list meets the block at 4152 only. *)
Theorem malloc_huge_free_list_C2 :
  observe (two_blocks_one_freed ;;; mm_malloc huge)
          (fun _ s => (option_map free_blocks (blocks_of s), free_list s)) heap0
  = Some (Some [4120; 4152], Some [4152]).
Proof. vm_compute. reflexivity. Qed.

(** C4. After [two_blocks_one_freed] the call [mm_malloc (2^64 - 8)] returns
    the non-null address 4120, and the block there has 24 usable bytes, far
    fewer than requested. *)
Theorem malloc_huge_usable_C4 :
  observe (two_blocks_one_freed ;;; mm_malloc huge)
          (fun r s => (r, usable s r, usable s r <? huge)) heap0
  = Some (4120, 24, true).
Proof. vm_compute. reflexivity. Qed.

(** C7. For the request [2^64 - 8] the computed size is 0; the first block
    of the list, of size 16, is chosen and its leftover is 16, the minimum
    block size; yet after the call the returned block is marked free and
    neither it nor any remainder is on the free list. *)
Theorem malloc_huge_no_remainder_C7 :
  adjust huge = 0 /\
  observe two_blocks_one_freed (fun _ s => (free_list s, block_size s 4120)) heap0
  = Some (Some [4120; 4152], 16) /\
  observe (two_blocks_one_freed ;;; mm_malloc huge)
          (fun r s => (r, block_alloc s r, free_list s)) heap0
  = Some (4120, false, Some [4152]).
Proof. repeat split; vm_compute; reflexivity. Qed.

(** ** Size conservation, first reservation included *)

(** Right after a successful [mm_init] the blocks between prologue and
    epilogue add up to 4096 bytes while the provider has granted 4120. *)
Lemma init_total_size_not_granted :
  observe mm_init (fun r s => (r, option_map total_size (blocks_of s), granted s)) heap0
  = Some (0, Some 4096, 4120) /\ 4096 <> 4120.
Proof. split; [vm_compute; reflexivity | discriminate]. Qed.

(** ** Stepping through the monad *)

Lemma bind_ret {A B} (a : A) (k : A -> M B) s : bind (ret a) k s = k a s.
Proof. reflexivity. Qed.

Lemma bind_bind {A B C} (c : M A) (k : A -> M B) (k' : B -> M C) s :
  bind (bind c k) k' s = bind c (fun a => bind (k a) k') s.
Proof. unfold bind. destruct (c s) as [[a s']|]; reflexivity. Qed.

Lemma bind_some {A B} (c : M A) (k : A -> M B) s a s' :
  c s = Some (a, s') -> bind c k s = k a s'.
Proof. unfold bind. intros ->. reflexivity. Qed.

Lemma bind_GET {B} p (k : Z -> M B) s :
  valid s p = true -> bind (GET p) k s = k (mem s p) s.
Proof. unfold bind, GET. intros ->. reflexivity. Qed.

Lemma bind_SET {B} p v (k : unit -> M B) s :
  valid s p = true ->
  bind (SET p v) k s = k tt (set_mem s (upd (mem s) p (uint v))).
Proof. unfold bind, SET. intros ->. reflexivity. Qed.

Lemma bind_SIZE {B} p (k : Z -> M B) s :
  valid s p = true -> bind (SIZE p) k s = k (Z.land (mem s p) (Z.lnot 7)) s.
Proof. intros H. unfold SIZE. rewrite bind_bind, bind_GET by assumption. reflexivity. Qed.

Lemma bind_ALLOC {B} p (k : Z -> M B) s :
  valid s p = true -> bind (ALLOC p) k s = k (Z.land (mem s p) 1) s.
Proof. intros H. unfold ALLOC. rewrite bind_bind, bind_GET by assumption. reflexivity. Qed.

Ltac fields :=
  cbn [mem mem_brk mem_heap mem_max_addr head set_mem set_brk set_head] in *.

Ltac consts :=
  unfold HDR, PRED, SUCC in *;
  unfold WSIZE, DWSIZE, MINSIZE, ALLOCATED, FREE, NULL in *;
  change CHUNKSIZE with 4096 in *.

(** Linear arithmetic with divisions by constants. *)
Ltac zdiv := consts; fields; Z.div_mod_to_equations; lia.

Lemma valid_intro s p :
  p mod 4 = 0 -> mem_heap s <= p -> p + 4 <= mem_brk s -> valid s p = true.
Proof.
  intros H1 H2 H3. unfold valid.
  rewrite (proj2 (Z.eqb_eq _ _) H1), (proj2 (Z.leb_le _ _) H2), (proj2 (Z.leb_le _ _) H3).
  reflexivity.
Qed.

Ltac valid_tac := apply valid_intro; zdiv.

Lemma valid_iff s p :
  valid s p = true <-> p mod 4 = 0 /\ mem_heap s <= p /\ p + 4 <= mem_brk s.
Proof.
  unfold valid. rewrite !andb_true_iff, Z.eqb_eq, !Z.leb_le. tauto.
Qed.

(** The scan of the free list only reads. *)
Lemma scan_state fuel asize p s r s' :
  scan fuel asize p s = Some (r, s') -> s' = s.
Proof.
  revert p s. induction fuel as [|fuel IH]; intros p s; simpl; [discriminate|].
  destruct (p =? NULL); [intros [= _ <-]; reflexivity|].
  unfold SIZE, bind, GET, ret.
  destruct (valid s (HDR p)); [|discriminate].
  destruct (_ >=? _); [intros [= _ <-]; reflexivity|].
  destruct (valid s (SUCC p)); [|discriminate].
  apply IH.
Qed.

Lemma first_fit_state asize s r s' :
  first_fit asize s = Some (r, s') -> s' = s.
Proof.
  unfold first_fit, bind, get_head, GET.
  destruct (valid s (SUCC (head s))); [|discriminate].
  apply scan_state.
Qed.

(** ** Reallocation with a null block or a zero size *)

(** C5. [mm_realloc NULL n] is [mm_malloc n], result and state alike, and
    [mm_realloc addr 0] is [mm_free addr] followed by the return of [NULL]. *)
Theorem realloc_degenerate_C5 (s : heap) (n addr : Z) :
  mm_realloc NULL n s = mm_malloc n s /\
  mm_realloc addr 0 s = (mm_free addr ;;; ret NULL) s.
Proof.
  split.
  - unfold mm_realloc, mm_malloc, when. simpl (negb (NULL =? NULL)). cbv iota.
    rewrite bind_ret. destruct (n =? 0); [reflexivity|].
    unfold bind.
    destruct (obtain (adjust n) s) as [[[newptr|] s1]|]; reflexivity.
  - unfold mm_realloc, mm_free. simpl (0 =? 0). cbv iota.
    destruct (addr =? NULL); simpl negb; cbv iota.
    + reflexivity.
    + unfold when, bind. destruct (SIZE (HDR addr) s) as [[sz s1]|]; reflexivity.
Qed.

(** ** Refusal of the provider *)

(** The number of bytes requested from the provider when no block fits
    (lines 138 and 251). *)
Definition exsize_of (asize : Z) : Z :=
  if asize >? CHUNKSIZE then asize else CHUNKSIZE.

Lemma ptr_lt_null_false p : ptr_lt_null p = false.
Proof.
  unfold ptr_lt_null, usize. apply Z.ltb_ge. apply Z.mod_pos_bound. reflexivity.
Qed.

Lemma sbrk_refused incr s :
  mem_max_addr s < mem_brk s + incr -> mem_sbrk incr s = Some (SBRK_FAILED, s).
Proof.
  intros H. unfold mem_sbrk.
  replace (mem_brk s + incr >? mem_max_addr s) with true by (symmetry; apply Z.gtb_lt; lia).
  rewrite orb_true_r. reflexivity.
Qed.

Lemma sbrk_granted incr s :
  0 <= incr -> mem_brk s + incr <= mem_max_addr s ->
  mem_sbrk incr s = Some (mem_brk s, set_brk s (mem_brk s + incr)).
Proof.
  intros H0 H. unfold mem_sbrk.
  replace (incr <? 0) with false by (symmetry; apply Z.ltb_ge; lia).
  replace (mem_brk s + incr >? mem_max_addr s) with false; [reflexivity|].
  symmetry. rewrite Z.gtb_ltb. apply Z.ltb_ge. lia.
Qed.

Lemma bind_sbrk_refused {B} incr (k : Z -> M B) s :
  mem_max_addr s < mem_brk s + incr -> bind (mem_sbrk incr) k s = k SBRK_FAILED s.
Proof. intros H. apply bind_some, sbrk_refused, H. Qed.

Lemma bind_sbrk_granted {B} incr (k : Z -> M B) s :
  0 <= incr -> mem_brk s + incr <= mem_max_addr s ->
  bind (mem_sbrk incr) k s = k (mem_brk s) (set_brk s (mem_brk s + incr)).
Proof. intros H0 H. apply bind_some, sbrk_granted; assumption. Qed.

(** Neither [(void * ) -1] nor the header slot before it is a word of the
    region: both addresses are odd. *)
Lemma failed_invalid s :
  valid s SBRK_FAILED = false /\ valid s (HDR SBRK_FAILED) = false.
Proof. split; reflexivity. Qed.

(** After a refused growth the code goes on and stores through
    [HDR((void * ) -1)]. *)
Lemma extend_refused asize s :
  mem_max_addr s < mem_brk s + exsize_of asize -> extend_heap asize s = None.
Proof.
  intros Hcap. unfold extend_heap. fold (exsize_of asize).
  rewrite bind_sbrk_refused by assumption. rewrite ptr_lt_null_false.
  unfold bind, SET. rewrite (proj2 (failed_invalid s)). reflexivity.
Qed.

Lemma obtain_refused asize s :
  first_fit asize s = Some (NULL, s) ->
  mem_max_addr s < mem_brk s + exsize_of asize ->
  obtain asize s = None.
Proof.
  intros Hff Hcap. unfold obtain. rewrite (bind_some _ _ _ _ _ Hff).
  simpl (NULL =? NULL). cbv iota. apply extend_refused. assumption.
Qed.

(** C3. When no block fits and the provider refuses the growth, [mm_malloc]
    and [mm_realloc] do not return [NULL]: the provider hands back
    [(void * ) -1], the address [2^64 - 1]; the test [< 0] on that pointer
    is false, and the next statement stores through [HDR] of it, outside the
    region.  [mm_init] does the same after a refusal of the first or of the
    second of its two requests: it stores through [(void * ) -1], or through
    [HDR] of it with the sentinels already written. *)
Theorem growth_refused_faults_C3 (s s0 s1 : heap) (ptr size : Z) :
  size <> 0 ->
  first_fit (adjust size) s = Some (NULL, s) ->
  mem_max_addr s < mem_brk s + exsize_of (adjust size) ->
  ptr = NULL \/ valid s (HDR ptr) = true ->
  mem_max_addr s0 < mem_brk s0 + 6 * WSIZE ->
  mem_brk s1 + 6 * WSIZE <= mem_max_addr s1 < mem_brk s1 + 6 * WSIZE + CHUNKSIZE ->
  mem_brk s1 mod 4 = 0 -> 0 <= mem_heap s1 <= mem_brk s1 ->
  SBRK_FAILED = 2 ^ 64 - 1 /\ ptr_lt_null SBRK_FAILED = false /\
  mem_sbrk (exsize_of (adjust size)) s = Some (SBRK_FAILED, s) /\
  mm_malloc size s = None /\
  mm_realloc ptr size s = None /\
  mm_init s0 = None /\
  mm_init s1 = None.
Proof.
  intros Hsz Hff Hcap Hptr Hcap0 Hcap1 Hal1 Hlo1.
  apply Z.eqb_neq in Hsz.
  split; [reflexivity|]. split; [apply ptr_lt_null_false|].
  split; [apply sbrk_refused; assumption|].
  split; [|split; [|split]].
  - unfold mm_malloc. rewrite Hsz. unfold bind at 1.
    rewrite (obtain_refused _ _ Hff Hcap). reflexivity.
  - unfold mm_realloc.
    assert (Hold : exists o, (if negb (ptr =? NULL) then SIZE (HDR ptr) else ret 0) s = Some (o, s)).
    { destruct Hptr as [-> | Hv].
      - exists 0. reflexivity.
      - destruct (ptr =? NULL); simpl; [exists 0; reflexivity|].
        eexists. unfold SIZE, bind, GET. rewrite Hv. reflexivity. }
    destruct Hold as [o Ho]. rewrite (bind_some _ _ _ _ _ Ho). rewrite Hsz.
    unfold bind at 1. rewrite (obtain_refused _ _ Hff Hcap). reflexivity.
  - unfold mm_init. rewrite bind_sbrk_refused by assumption.
    rewrite ptr_lt_null_false. unfold bind at 1. unfold SET.
    rewrite (proj1 (failed_invalid s0)). reflexivity.
  - unfold mm_init.
    rewrite bind_sbrk_granted by zdiv. rewrite ptr_lt_null_false.
    do 6 (rewrite bind_SET by valid_tac).
    unfold put_head at 1. unfold bind at 1.
    rewrite bind_sbrk_refused by zdiv. rewrite ptr_lt_null_false.
    unfold bind at 1. unfold SET at 1.
    match goal with |- context [valid ?t (HDR SBRK_FAILED)] =>
      rewrite (proj2 (failed_invalid t)) end.
    reflexivity.
Qed.

(** A heap whose provider is exhausted: the limit is reached by the first
    chunk. *)
Definition exhausted_heap : heap :=
  match (mm_init ;;; mm_malloc 100) (fresh 4096 8216) with
  | Some (_, s) => s
  | None => fresh 4096 8216
  end.

Ltac closed_arith :=
  vm_compute;
  first [ reflexivity | discriminate | (intro; discriminate)
        | split; first [ reflexivity | discriminate | (intro; discriminate) ] ].

Lemma growth_refused_faults_C3_witness :
  SBRK_FAILED = 2 ^ 64 - 1 /\ ptr_lt_null SBRK_FAILED = false /\
  mem_sbrk (exsize_of (adjust 5000)) exhausted_heap = Some (SBRK_FAILED, exhausted_heap) /\
  mm_malloc 5000 exhausted_heap = None /\
  mm_realloc 4120 5000 exhausted_heap = None /\
  mm_init (fresh 4096 4100) = None /\
  mm_init (fresh 4096 4196) = None.
Proof.
  apply (growth_refused_faults_C3 exhausted_heap (fresh 4096 4100) (fresh 4096 4196) 4120 5000).
  - discriminate.
  - vm_compute. reflexivity.
  - closed_arith.
  - right. vm_compute. reflexivity.
  - closed_arith.
  - closed_arith.
  - reflexivity.
  - closed_arith.
Defined.

(** * The well-formed heap *)

(** ** Boundary tags as arithmetic *)

Lemma land_lnot7 v : Z.land v (Z.lnot 7) = v - v mod 8.
Proof.
  assert (H : Z.land v (Z.lnot 7) = Z.shiftl (Z.shiftr v 3) 3).
  { apply Z.bits_inj'. intros n Hn.
    rewrite Z.land_spec, Z.lnot_spec by assumption.
    destruct (Z.ltb_spec n 3).
    - rewrite Z.shiftl_spec_low by assumption.
      assert (Hc : n = 0 \/ n = 1 \/ n = 2) by lia.
      destruct Hc as [-> | [-> | ->]]; simpl; apply andb_false_r.
    - rewrite Z.shiftl_spec_high, Z.shiftr_spec by lia.
      replace (n - 3 + 3) with n by lia.
      replace (Z.testbit 7 n) with false; [apply andb_true_r|].
      symmetry. change 7 with (Z.ones 3). apply Z.ones_spec_high. lia. }
  rewrite H, Z.shiftl_mul_pow2, Z.shiftr_div_pow2 by lia.
  change (2 ^ 3) with 8. Z.div_mod_to_equations. lia.
Qed.

Lemma land_1 v : Z.land v 1 = v mod 2.
Proof. change 1 with (Z.ones 1). rewrite Z.land_ones by lia. reflexivity. Qed.

Lemma lor_0 v : Z.lor v 0 = v.
Proof. apply Z.lor_0_r. Qed.

Lemma lor_1 v : v mod 2 = 0 -> Z.lor v 1 = v + 1.
Proof.
  intros H. rewrite <- Z.lxor_lor, <- Z.add_nocarry_lxor; try reflexivity;
    rewrite land_1; assumption.
Qed.

Lemma uint_small v : 0 <= v < 2 ^ 32 -> uint v = v.
Proof. apply Z.mod_small. Qed.

Lemma usize_small v : 0 <= v < 2 ^ 64 -> usize v = v.
Proof. apply Z.mod_small. Qed.

Lemma PACK_free sz : PACK sz FREE = sz.
Proof. apply lor_0. Qed.

Lemma PACK_alloc sz : sz mod 8 = 0 -> PACK sz ALLOCATED = sz + 1.
Proof. intros H. apply lor_1. Z.div_mod_to_equations. lia. Qed.

(** ** Memory updates *)

Lemma upd_same m p v q : q = p -> upd m p v q = v.
Proof. intros ->. unfold upd. rewrite Z.eqb_refl. reflexivity. Qed.

Lemma upd_other m p v q : q <> p -> upd m p v q = m q.
Proof. intros H. unfold upd. rewrite (proj2 (Z.eqb_neq _ _) H). reflexivity. Qed.

(** ** The layout of the region

    A block is [(address, size, allocated)].  [contig p L q] says that the
    blocks of [L] tile the bytes from [p] to [q]: each starts where the one
    before ends, and each size is a multiple of 8 not below [MINSIZE]. *)

Definition block : Type := Z * Z * bool.

Fixpoint contig (p : Z) (L : list block) (q : Z) : Prop :=
  match L with
  | [] => p = q
  | (a, sz, _) :: L' => a = p /\ MINSIZE <= sz /\ sz mod 8 = 0 /\ contig (p + sz) L' q
  end.

Lemma contig_app p l1 l2 q :
  contig p (l1 ++ l2) q <-> exists r, contig p l1 r /\ contig r l2 q.
Proof.
  revert p. induction l1 as [|[[a sz] al] l1 IH]; intros p; simpl.
  - split.
    + intros H. exists p. split; [reflexivity | assumption].
    + intros (r & -> & H). assumption.
  - rewrite IH. split.
    + intros (Ha & Hs & Hm & r & H1 & H2). exists r. repeat split; assumption.
    + intros (r & (Ha & Hs & Hm & H1) & H2). repeat split; try assumption.
      exists r. split; assumption.
Qed.

Lemma contig_le p L q : contig p L q -> p <= q.
Proof.
  revert p. induction L as [|[[a sz] al] L IH]; intros p; simpl.
  - lia.
  - intros (_ & Hs & _ & H). apply IH in H. unfold MINSIZE in Hs. lia.
Qed.

Lemma contig_total p L q : contig p L q -> q = p + total_size L.
Proof.
  revert p. induction L as [|[[a sz] al] L IH]; intros p; simpl.
  - lia.
  - intros (_ & _ & _ & H). apply IH in H. lia.
Qed.

Lemma contig_in p L q a sz al :
  contig p L q -> In (a, sz, al) L ->
  p <= a /\ a + sz <= q /\ MINSIZE <= sz /\ sz mod 8 = 0 /\ (a - p) mod 8 = 0.
Proof.
  revert p. induction L as [|[[a' sz'] al'] L IH]; intros p; simpl; [tauto|].
  intros (Ha & Hs & Hm & H) [E | Hin].
  - injection E as -> -> ->. apply contig_le in H. subst a.
    repeat split; try assumption; try lia. rewrite Z.sub_diag. reflexivity.
  - destruct (IH _ H Hin) as (H1 & H2 & H3 & H4 & H5).
    unfold MINSIZE in *. repeat split; try assumption; try lia.
    Z.div_mod_to_equations. lia.
Qed.

(** Two blocks of a layout are the same block or do not overlap. *)
Lemma contig_apart p L q a sz al a' sz' al' :
  contig p L q -> In (a, sz, al) L -> In (a', sz', al') L ->
  (a, sz, al) = (a', sz', al') \/ a + sz <= a' \/ a' + sz' <= a.
Proof.
  revert p. induction L as [|[[a0 sz0] al0] L IH]; intros p; simpl; [tauto|].
  intros (Ha & Hs & Hm & H) [E | Hin] [E' | Hin'].
  - left. congruence.
  - injection E as -> -> ->. right. left.
    destruct (contig_in _ _ _ _ _ _ H Hin') as (H1 & _). lia.
  - injection E' as -> -> ->. right. right.
    destruct (contig_in _ _ _ _ _ _ H Hin) as (H1 & _). lia.
  - eapply IH; eassumption.
Qed.

(** The address of a block determines the block. *)
Lemma contig_addr p L q a sz al sz' al' :
  contig p L q -> In (a, sz, al) L -> In (a, sz', al') L -> sz = sz' /\ al = al'.
Proof.
  intros H H1 H2.
  destruct (contig_in _ _ _ _ _ _ H H1) as (_ & _ & Hs & _).
  destruct (contig_in _ _ _ _ _ _ H H2) as (_ & _ & Hs' & _).
  destruct (contig_apart _ _ _ _ _ _ _ _ _ H H1 H2) as [E | [E | E]].
  - injection E as -> ->. split; reflexivity.
  - unfold MINSIZE in *. lia.
  - unfold MINSIZE in *. lia.
Qed.

(** ** Boundary tags and links in memory *)

(** The tags of a block.  A free block carries its size, flag clear, in
    header and footer.  Of an allocated block the code only ever reads the
    flag of the header and the size of the footer. *)
Definition tag (m : Z -> Z) (b : block) : Prop :=
  let '(a, sz, al) := b in
  if al then Z.land (m (a - 4)) 1 = 1 /\ Z.land (m (a + sz - 8)) (Z.lnot 7) = sz
  else m (a - 4) = sz /\ m (a + sz - 8) = sz.

(** The header of a block records its size. *)
Definition exact_hdr (m : Z -> Z) (b : block) : Prop :=
  let '(a, sz, _) := b in Z.land (m (a - 4)) (Z.lnot 7) = sz.

(** [chain m h fl]: following the successor links from [h] visits [fl] and
    ends; each node's predecessor link points back. *)
Fixpoint chain (m : Z -> Z) (h : Z) (fl : list Z) : Prop :=
  match fl with
  | [] => m (h + 4) = 0
  | f :: fl' => m (h + 4) = f /\ m f = h /\ chain m f fl'
  end.

(** [layout s LL]: the region of [s] is tiled by the blocks [LL], the
    prologue first, each carrying its tags; the epilogue header ends it.
    All addresses fit in 32 bits. *)
Record layout (s : heap) (LL : list block) : Prop := mk_layout {
  lay_lo : 0 <= mem_heap s;
  lay_align : mem_heap s mod 8 = 0;
  lay_head : head s = mem_heap s + 8;
  lay_brk : mem_brk s <= mem_max_addr s;
  lay_max : mem_max_addr s <= 2 ^ 32;
  lay_prologue : exists L, LL = (head s, MINSIZE, true) :: L;
  lay_contig : contig (head s) LL (mem_brk s);
  lay_tags : Forall (tag (mem s)) LL;
  lay_epilogue : mem s (mem_brk s - 4) = 1
}.

(** [listed LL fl ex]: the list [fl] holds the address of each block of [LL]
    marked free, except [ex], once. *)
Definition listed (LL : list block) (fl : list Z) (ex : Z) : Prop :=
  NoDup fl /\
  forall x, In x fl <-> x <> ex /\ exists sz, In (x, sz, false) LL.

(** [wf s LL fl ex]: the layout is [LL] and the free list, as linked in
    memory, is [fl]. *)
Record wf (s : heap) (LL : list block) (fl : list Z) (ex : Z) : Prop := mk_wf {
  wf_layout : layout s LL;
  wf_chain : chain (mem s) (head s) fl;
  wf_listed : listed LL fl ex
}.

(** The invariant between calls: a well-formed heap with nothing left out of
    the free list, every header recording the size of its block. *)
Definition Inv (s : heap) : Prop :=
  exists LL fl, wf s LL fl NULL /\ Forall (exact_hdr (mem s)) LL.

(** [x] is not the address of a tag of a block of [L]. *)
Definition off_tags (L : list block) (x : Z) : Prop :=
  forall a sz al, In (a, sz, al) L -> x <> a - 4 /\ x <> a + sz - 8.

Lemma tags_upd m L x v :
  off_tags L x -> Forall (tag m) L -> Forall (tag (upd m x v)) L.
Proof.
  intros Hoff H. rewrite Forall_forall in *. intros [[a sz] al] Hin.
  specialize (H _ Hin). destruct (Hoff _ _ _ Hin) as [H1 H2].
  unfold tag in *. rewrite !upd_other by lia. assumption.
Qed.

Lemma exact_upd m L x v :
  off_tags L x -> Forall (exact_hdr m) L -> Forall (exact_hdr (upd m x v)) L.
Proof.
  intros Hoff H. rewrite Forall_forall in *. intros [[a sz] al] Hin.
  specialize (H _ Hin). destruct (Hoff _ _ _ Hin) as [H1 H2].
  unfold exact_hdr in *. rewrite upd_other by lia. assumption.
Qed.

(** Addresses inside the payload of a block are no tag addresses. *)
Lemma off_tags_inside p L q a sz al x :
  contig p L q -> In (a, sz, al) L -> a <= x < a + sz - 8 -> off_tags L x.
Proof.
  intros Hc Hin Hx a' sz' al' Hin'.
  destruct (contig_in _ _ _ _ _ _ Hc Hin') as (_ & _ & Hs' & _).
  destruct (contig_apart _ _ _ _ _ _ _ _ _ Hc Hin Hin') as [E | [E | E]];
    [injection E as <- <- <-|..]; unfold MINSIZE in *; lia.
Qed.

(** Addresses outside the span of a layout are no tag addresses. *)
Lemma off_tags_outside p L q x :
  contig p L q -> x < p - 4 \/ q - 8 < x -> off_tags L x.
Proof.
  intros Hc Hx a sz al Hin.
  destruct (contig_in _ _ _ _ _ _ Hc Hin) as (H1 & H2 & Hs & _).
  unfold MINSIZE in *. lia.
Qed.

Lemma off_tags_app l1 l2 x :
  off_tags (l1 ++ l2) x <-> off_tags l1 x /\ off_tags l2 x.
Proof.
  unfold off_tags. split.
  - intros H. split; intros a sz al Hin; apply (H a sz al), in_or_app; [left|right]; assumption.
  - intros [H1 H2] a sz al Hin.
    apply in_app_or in Hin as [Hin|Hin]; [apply (H1 a sz al)|apply (H2 a sz al)]; assumption.
Qed.

(** ** The linked list *)

Lemma chain_frame m m' h fl :
  chain m h fl ->
  m' (h + 4) = m (h + 4) ->
  (forall x, In x fl -> m' x = m x /\ m' (x + 4) = m (x + 4)) ->
  chain m' h fl.
Proof.
  revert h. induction fl as [|f fl IH]; intros h; simpl.
  - intros H E _. congruence.
  - intros (H1 & H2 & H3) E Hf. destruct (Hf f (or_introl eq_refl)) as [E1 E2].
    repeat split; try congruence.
    apply IH; try assumption. intros x Hx. apply Hf. right. assumption.
Qed.

Lemma chain_upd m h fl x v :
  chain m h fl -> x <> h + 4 ->
  (forall f, In f fl -> x <> f /\ x <> f + 4) ->
  chain (upd m x v) h fl.
Proof.
  intros H Hh Hf. apply (chain_frame m); try assumption.
  - apply upd_other. lia.
  - intros f Hin. destruct (Hf f Hin). rewrite !upd_other by lia. split; reflexivity.
Qed.

Lemma last_cons (a : Z) l d : last (a :: l) d = last l a.
Proof.
  revert a d. induction l as [|b l IH]; intros a d; [reflexivity|].
  change (last (a :: b :: l) d) with (last (b :: l) d). rewrite !IH. reflexivity.
Qed.

(** The links of a node of the chain. *)
Lemma chain_links m h l1 n l2 :
  chain m h (l1 ++ n :: l2) ->
  m n = last l1 h /\ m (n + 4) = hd 0 l2.
Proof.
  revert h. induction l1 as [|a l1 IH]; intros h; simpl.
  - intros (_ & H2 & H3). split; [assumption|]. destruct l2; simpl in *; tauto.
  - intros (_ & _ & H3). destruct (IH _ H3) as [E1 E2]. split; [|assumption].
    rewrite E1. symmetry. apply last_cons.
Qed.

(** Two nodes are far apart when their link words cannot coincide. *)
Definition far (x y : Z) : Prop := x + 8 <= y \/ y + 8 <= x.

(** The memory after [insert_front p] with sentinel [h]. *)
Definition insert_mem (m : Z -> Z) (h p : Z) : Z -> Z :=
  let first := m (h + 4) in
  let m1 := upd (upd (upd m (h + 4) (uint p)) p (uint h)) (p + 4) (uint first) in
  if negb (first =? NULL) then upd m1 first (uint p) else m1.

(** The memory after [unlink n]. *)
Definition unlink_mem (m : Z -> Z) (n : Z) : Z -> Z :=
  let pred := m n in
  let succ := m (n + 4) in
  let m1 := upd m (pred + 4) (uint succ) in
  if negb (succ =? NULL) then upd m1 succ (uint pred) else m1.

Lemma chain_insert m h fl p :
  chain m h fl ->
  (forall x, In x (h :: fl) -> 0 < x < 2 ^ 32 /\ far x p) ->
  0 < p < 2 ^ 32 ->
  NoDup (h :: fl) ->
  (forall x y, In x (h :: fl) -> In y (h :: fl) -> x = y \/ far x y) ->
  chain (insert_mem m h p) h (p :: fl).
Proof.
  intros Hc Hx Hp Hnd Hfar. unfold insert_mem, far, NULL in *.
  destruct (Hx h (or_introl eq_refl)) as [Hh Hhp].
  destruct fl as [|f fl]; simpl in Hc.
  - rewrite Hc. simpl. rewrite !uint_small by lia.
    rewrite upd_other, upd_other, upd_same by lia.
    rewrite upd_other, upd_same by lia. rewrite upd_same by lia.
    repeat split.
  - destruct Hc as (H1 & H2 & H3). rewrite H1.
    destruct (Hx f (or_intror (or_introl eq_refl))) as [Hf Hfp].
    destruct (Hfar h f (or_introl eq_refl) (or_intror (or_introl eq_refl))) as [E|Hhf].
    { exfalso. inversion Hnd as [|? ? Hn _]. apply Hn. left. auto. }
    replace (f =? 0) with false by (symmetry; apply Z.eqb_neq; lia).
    simpl negb. cbv iota. rewrite !uint_small by lia.
    simpl. repeat split.
    + rewrite !upd_other by lia. apply upd_same. reflexivity.
    + rewrite !upd_other by lia. apply upd_same. reflexivity.
    + rewrite upd_other by lia. apply upd_same. reflexivity.
    + apply upd_same. reflexivity.
    + apply (chain_frame m); [assumption|..].
      * rewrite !upd_other by lia. reflexivity.
      * intros x Hin.
        destruct (Hx x (or_intror (or_intror Hin))) as [Hx0 Hxp].
        destruct (Hfar h x (or_introl eq_refl) (or_intror (or_intror Hin))) as [E|Hhx].
        { exfalso. inversion Hnd as [|? ? Hn _]. apply Hn. right. subst. assumption. }
        destruct (Hfar f x (or_intror (or_introl eq_refl)) (or_intror (or_intror Hin))) as [E|Hfx].
        { exfalso. inversion Hnd as [|? ? _ Hn']. inversion Hn' as [|? ? Hn _].
          apply Hn. subst. assumption. }
        rewrite !upd_other by lia. split; reflexivity.
Qed.

Lemma unlink_mem_other m n x :
  x <> m n + 4 -> m (n + 4) = 0 \/ x <> m (n + 4) -> unlink_mem m n x = m x.
Proof.
  intros H1 H2. unfold unlink_mem, NULL.
  destruct (Z.eqb_spec (m (n + 4)) 0) as [E|E]; simpl.
  - apply upd_other. assumption.
  - rewrite !upd_other by lia. reflexivity.
Qed.

Lemma chain_unlink m h l1 n l2 :
  chain m h (l1 ++ n :: l2) ->
  (forall x, In x (h :: l1 ++ n :: l2) -> 0 < x < 2 ^ 32) ->
  NoDup (h :: l1 ++ n :: l2) ->
  (forall x y, In x (h :: l1 ++ n :: l2) -> In y (h :: l1 ++ n :: l2) -> x = y \/ far x y) ->
  chain (unlink_mem m n) h (l1 ++ l2).
Proof.
  revert h. induction l1 as [|a l1 IH]; intros h Hc Hpos Hnd Hfar.
  - simpl in *. destruct Hc as (H1 & H2 & H3).
    assert (Hh := Hpos h (or_introl eq_refl)).
    unfold unlink_mem, NULL. rewrite H2.
    destruct l2 as [|f l2]; simpl in H3.
    + rewrite H3. simpl. apply upd_same. reflexivity.
    + destruct H3 as (H4 & H5 & H6). rewrite H4.
      assert (Hf := Hpos f (or_intror (or_intror (or_introl eq_refl)))).
      replace (f =? 0) with false by (symmetry; apply Z.eqb_neq; lia).
      simpl negb. cbv iota. rewrite !uint_small by lia.
      assert (Hhf : far h f).
      { destruct (Hfar h f) as [E|E]; simpl; auto.
        exfalso. inversion Hnd as [|? ? Hn _]. apply Hn. subst. simpl. auto. }
      unfold far in Hhf. simpl. repeat split.
      * rewrite upd_other by lia. apply upd_same. reflexivity.
      * apply upd_same. reflexivity.
      * apply (chain_frame m); [assumption|..].
        -- rewrite !upd_other by lia. reflexivity.
        -- intros x Hin.
           assert (Hxh : far h x).
           { destruct (Hfar h x) as [E|E]; simpl; auto.
             exfalso. inversion Hnd as [|? ? Hn _]. apply Hn. subst. simpl. auto. }
           assert (Hxf : far f x).
           { destruct (Hfar f x) as [E|E]; simpl; auto.
             exfalso. inversion Hnd as [|? ? _ Hn']. inversion Hn' as [|? ? _ Hn''].
             inversion Hn'' as [|? ? Hn _]. apply Hn. subst. assumption. }
           unfold far in *. rewrite !upd_other by lia. split; reflexivity.
  - simpl in Hc. destruct Hc as (H1 & H2 & H3).
    assert (Hsub : forall x, In x (a :: l1 ++ n :: l2) -> In x (h :: (a :: l1) ++ n :: l2)).
    { intros x Hx. right. exact Hx. }
    assert (IH' : chain (unlink_mem m n) a (l1 ++ l2)).
    { apply IH; try assumption.
      - intros x Hx. apply Hpos, Hsub, Hx.
      - inversion Hnd. assumption.
      - intros x y Hx Hy. apply Hfar; apply Hsub; assumption. }
    destruct (chain_links _ _ _ _ _ H3) as [Ep Es].
    assert (Hpin : In (last l1 a) (a :: l1)).
    { clear. revert a. induction l1 as [|b l1 IH]; intros a; [left; reflexivity|].
      rewrite last_cons. right. apply IH. }
    assert (Hsin : hd 0 l2 = 0 \/ In (hd 0 l2) l2).
    { destruct l2; simpl; auto. }
    assert (Ih : In h (h :: (a :: l1) ++ n :: l2)) by (left; reflexivity).
    assert (Ia : In a (h :: (a :: l1) ++ n :: l2)) by (right; left; reflexivity).
    assert (Ip : In (last l1 a) (h :: (a :: l1) ++ n :: l2)).
    { right. apply in_or_app. left. assumption. }
    assert (Hnh : ~ In h ((a :: l1) ++ n :: l2)) by (inversion Hnd; assumption).
    assert (Hna : ~ In a (l1 ++ n :: l2)).
    { inversion Hnd as [|? ? _ Hn']. inversion Hn'. assumption. }
    assert (Hah : far h a).
    { destruct (Hfar h a Ih Ia) as [E|E]; [|assumption].
      exfalso. apply Hnh. rewrite E. left. reflexivity. }
    assert (Hpa : last l1 a = a \/ far a (last l1 a)).
    { destruct (Hfar a (last l1 a) Ia Ip) as [E|E]; auto. }
    assert (Hph : far h (last l1 a)).
    { destruct (Hfar h (last l1 a) Ih Ip) as [E|E]; [|assumption].
      exfalso. apply Hnh. rewrite E. apply in_or_app. left. assumption. }
    assert (Hsa : hd 0 l2 = 0 \/ (far a (hd 0 l2) /\ far h (hd 0 l2))).
    { destruct Hsin as [E|Hin]; [left; assumption|right].
      assert (Hin' : In (hd 0 l2) (l1 ++ n :: l2)).
      { apply in_or_app. right. right. assumption. }
      assert (Is : In (hd 0 l2) (h :: (a :: l1) ++ n :: l2)).
      { right. right. assumption. }
      split.
      - destruct (Hfar a (hd 0 l2) Ia Is) as [E|E]; [|assumption].
        exfalso. apply Hna. rewrite E. assumption.
      - destruct (Hfar h (hd 0 l2) Ih Is) as [E|E]; [|assumption].
        exfalso. apply Hnh. rewrite E. right. assumption. }
    unfold far in *. simpl. repeat split; try assumption.
    + rewrite unlink_mem_other; [assumption| |]; rewrite ?Ep, ?Es; lia.
    + rewrite unlink_mem_other; [assumption| |]; rewrite ?Ep, ?Es; lia.
Qed.

(** ** Running the macros and the list primitives *)

Lemma bind_FTR {B} p (k : Z -> M B) s :
  valid s (p - 4) = true ->
  bind (FTR p) k s = k (p + Z.land (mem s (p - 4)) (Z.lnot 7) - 8) s.
Proof. intros H. unfold FTR, HDR, WSIZE. rewrite bind_bind, bind_SIZE by assumption. reflexivity. Qed.

Lemma bind_NEXT {B} p (k : Z -> M B) s :
  valid s (p - 4) = true ->
  bind (NEXT p) k s = k (p + Z.land (mem s (p - 4)) (Z.lnot 7)) s.
Proof. intros H. unfold NEXT, WSIZE. rewrite bind_bind, bind_SIZE by assumption. reflexivity. Qed.

Lemma bind_PREV {B} p (k : Z -> M B) s :
  valid s (p - 8) = true ->
  bind (PREV p) k s = k (p - Z.land (mem s (p - 8)) (Z.lnot 7)) s.
Proof. intros H. unfold PREV, DWSIZE. rewrite bind_bind, bind_SIZE by assumption. reflexivity. Qed.

Lemma valid_set_mem s m p : valid (set_mem s m) p = valid s p.
Proof. reflexivity. Qed.

Lemma bind_get_head {B} (k : Z -> M B) s : bind get_head k s = k (head s) s.
Proof. reflexivity. Qed.

Lemma bind_insert_front {B} p (k : unit -> M B) s :
  valid s (head s + 4) = true -> valid s p = true -> valid s (p + 4) = true ->
  (mem s (head s + 4) = 0 \/ valid s (mem s (head s + 4)) = true) ->
  bind (insert_front p) k s = k tt (set_mem s (insert_mem (mem s) (head s) p)).
Proof.
  intros Hh Hp Hp4 Hf. unfold insert_front, SUCC, PRED, WSIZE.
  rewrite bind_bind, bind_get_head. rewrite bind_bind, bind_GET by assumption.
  rewrite bind_bind, bind_SET by assumption.
  rewrite bind_bind, bind_SET by assumption.
  rewrite bind_bind, bind_SET by assumption.
  unfold insert_mem, when, NULL.
  destruct (Z.eqb_spec (mem s (head s + 4)) 0) as [E|E]; simpl negb; cbv iota.
  - reflexivity.
  - destruct Hf as [Hf|Hf]; [contradiction|].
    rewrite bind_SET by assumption. reflexivity.
Qed.

Lemma bind_unlink {B} n (k : unit -> M B) s :
  valid s n = true -> valid s (n + 4) = true ->
  valid s (mem s n + 4) = true ->
  (mem s (n + 4) = 0 \/ valid s (mem s (n + 4)) = true) ->
  bind (unlink n) k s = k tt (set_mem s (unlink_mem (mem s) n)).
Proof.
  intros Hn Hn4 Hp Hs. unfold unlink, SUCC, PRED, WSIZE.
  rewrite bind_bind, bind_GET by assumption.
  rewrite bind_bind, bind_GET by assumption.
  rewrite bind_bind, bind_SET by assumption.
  unfold unlink_mem, when, NULL.
  destruct (Z.eqb_spec (mem s (n + 4)) 0) as [E|E]; simpl negb; cbv iota.
  - reflexivity.
  - destruct Hs as [Hs|Hs]; [contradiction|].
    rewrite bind_SET by assumption. reflexivity.
Qed.

Lemma insert_mem_other m h p x :
  x <> h + 4 -> x <> p -> x <> p + 4 -> m (h + 4) = 0 \/ x <> m (h + 4) ->
  insert_mem m h p x = m x.
Proof.
  intros H1 H2 H3 H4. unfold insert_mem, NULL.
  destruct (Z.eqb_spec (m (h + 4)) 0) as [E|E]; simpl.
  - rewrite !upd_other by lia. reflexivity.
  - rewrite !upd_other by lia. reflexivity.
Qed.

(** ** The nodes of the free list are blocks of the layout *)

Section Nodes.
Variables (s : heap) (LL : list block) (fl : list Z) (ex : Z).
Hypothesis Hlay : layout s LL.
Hypothesis Hlist : listed LL fl ex.

Lemma head_block : In (head s, MINSIZE, true) LL.
Proof using Hlay. destruct (lay_prologue _ _ Hlay) as [L E]. rewrite E. left. reflexivity. Qed.

Lemma block_bounds a sz al :
  In (a, sz, al) LL ->
  head s <= a /\ a + sz <= mem_brk s /\ 16 <= sz /\ sz mod 8 = 0 /\ a mod 8 = 0 /\
  0 < a /\ a + sz <= 2 ^ 32.
Proof.
  intros Hin.
  destruct (contig_in _ _ _ _ _ _ (lay_contig _ _ Hlay) Hin) as (H1 & H2 & H3 & H4 & H5).
  pose proof (lay_lo _ _ Hlay). pose proof (lay_align _ _ Hlay).
  pose proof (lay_head _ _ Hlay). pose proof (lay_brk _ _ Hlay).
  pose proof (lay_max _ _ Hlay). unfold MINSIZE in *.
  repeat split; try lia. Z.div_mod_to_equations. lia.
Qed.

Lemma blocks_apart a sz al a' sz' al' :
  In (a, sz, al) LL -> In (a', sz', al') LL ->
  (a = a' /\ sz = sz' /\ al = al') \/ a + sz <= a' \/ a' + sz' <= a.
Proof.
  intros H1 H2.
  destruct (contig_apart _ _ _ _ _ _ _ _ _ (lay_contig _ _ Hlay) H1 H2) as [E|E]; [|tauto].
  injection E. auto.
Qed.

Lemma node_block f : In f fl -> exists sz, In (f, sz, false) LL.
Proof. intros Hin. apply (proj2 Hlist) in Hin. tauto. Qed.

Lemma node_range f : In f fl -> head s + 16 <= f /\ f + 16 <= mem_brk s /\ f mod 8 = 0 /\ 0 < f < 2 ^ 32.
Proof.
  intros Hin. destruct (node_block _ Hin) as [sz Hb].
  destruct (block_bounds _ _ _ Hb) as (H1 & H2 & H3 & H4 & H5 & H6 & H7).
  destruct (blocks_apart _ _ _ _ _ _ head_block Hb) as [(_ & _ & E)|E]; [discriminate|].
  unfold MINSIZE in *. repeat split; lia.
Qed.

Lemma head_range : 0 < head s < 2 ^ 32 /\ head s + 16 <= mem_brk s /\ head s mod 8 = 0.
Proof using Hlay.
  destruct (block_bounds _ _ _ head_block) as (H1 & H2 & H3 & H4 & H5 & H6 & H7).
  unfold MINSIZE in *. repeat split; lia.
Qed.

Lemma nodes_far x y : In x (head s :: fl) -> In y (head s :: fl) -> x = y \/ far x y.
Proof.
  assert (Hb : forall z, In z (head s :: fl) -> exists sz al, In (z, sz, al) LL).
  { intros z [<-|Hz]; [exists MINSIZE, true; apply head_block|].
    destruct (node_block _ Hz) as [sz Hb]. exists sz, false. assumption. }
  intros Hx Hy. destruct (Hb _ Hx) as (sx & ax & Bx). destruct (Hb _ Hy) as (sy & ay & By).
  destruct (block_bounds _ _ _ Bx) as (_ & _ & ? & _).
  destruct (block_bounds _ _ _ By) as (_ & _ & ? & _).
  destruct (blocks_apart _ _ _ _ _ _ Bx By) as [(E & _)|E]; [left; assumption|right].
  unfold far. lia.
Qed.

Lemma nodes_nodup : NoDup (head s :: fl).
Proof.
  constructor; [|apply Hlist].
  intros Hin. destruct (node_range _ Hin). lia.
Qed.

Lemma nodes_pos x : In x (head s :: fl) -> 0 < x < 2 ^ 32.
Proof.
  intros [<-|Hx]; [apply head_range|]. apply node_range. assumption.
Qed.

(** A tag of a block is no link word of a block. *)
Lemma tag_not_link a sz al f szf alf x :
  In (a, sz, al) LL -> In (f, szf, alf) LL -> x = a - 4 \/ x = a + sz - 8 ->
  x <> f /\ x <> f + 4.
Proof.
  intros Ha Hf Hx.
  destruct (block_bounds _ _ _ Ha) as (_ & _ & ? & _).
  destruct (block_bounds _ _ _ Hf) as (_ & _ & ? & _).
  destruct (blocks_apart _ _ _ _ _ _ Ha Hf) as [(E1 & E2 & _)|E]; lia.
Qed.
End Nodes.

(** ** Reading tags *)

Lemma tag_footer_size m a sz al :
  tag m (a, sz, al) -> sz mod 8 = 0 -> Z.land (m (a + sz - 8)) (Z.lnot 7) = sz.
Proof.
  unfold tag. destruct al; intros [H1 H2] Hs; [assumption|].
  rewrite H2, land_lnot7. lia.
Qed.

Lemma tag_header_alloc m a sz al :
  tag m (a, sz, al) -> sz mod 8 = 0 -> Z.land (m (a - 4)) 1 = if al then 1 else 0.
Proof.
  unfold tag. destruct al; intros [H1 H2] Hs; [assumption|].
  rewrite H1, land_1. Z.div_mod_to_equations. lia.
Qed.

Lemma tag_free_size m a sz :
  tag m (a, sz, false) -> sz mod 8 = 0 -> Z.land (m (a - 4)) (Z.lnot 7) = sz.
Proof.
  unfold tag. intros [H1 H2] Hs. rewrite H1, land_lnot7. lia.
Qed.

(** Free blocks of a layout, by address. *)
Definition sf (L : list block) (x : Z) : Prop := exists sz, In (x, sz, false) L.

Lemma sf_app l1 l2 x : sf (l1 ++ l2) x <-> sf l1 x \/ sf l2 x.
Proof.
  unfold sf. split.
  - intros [sz H]. apply in_app_or in H as [H|H]; [left|right]; exists sz; assumption.
  - intros [[sz H]|[sz H]]; exists sz; apply in_or_app; [left|right]; assumption.
Qed.

Lemma sf_cons a sz al l x : sf ((a, sz, al) :: l) x <-> (x = a /\ al = false) \/ sf l x.
Proof.
  unfold sf. split.
  - intros [sz' [E|H]]; [left; injection E; auto | right; exists sz'; assumption].
  - intros [[-> ->]|[sz' H]]; [exists sz; left; reflexivity | exists sz'; right; assumption].
Qed.

Lemma sf_nil x : sf [] x <-> False.
Proof. unfold sf. split; [intros [sz []] | tauto]. Qed.

Lemma sf_range p L q x : contig p L q -> sf L x -> p <= x /\ x + 16 <= q.
Proof.
  intros Hc [sz Hin]. destruct (contig_in _ _ _ _ _ _ Hc Hin) as (H1 & H2 & H3 & _).
  unfold MINSIZE in *. lia.
Qed.

(** Writes of one call stay inside the blocks marked free and the
    successor link of the sentinel. *)
Definition frame_free (LL : list block) (h : Z) (m m' : Z -> Z) : Prop :=
  forall x, x <> h + 4 ->
            (forall f szf, In (f, szf, false) LL -> x < f - 4 \/ f + szf - 4 <= x) ->
            m' x = m x.

(** The abstract effect of [coalesce ptr]: the block returned, the layout
    and the free list afterwards. *)
Definition coalesced (l1 : list block) (bp : block) (ptr sz : Z) (l2 : list block)
    (fl : list Z) : Z * list block * list Z :=
  let '(pa, psz, pal) := bp in
  match pal, l2 with
  | true, (n, nsz, false) :: l2' =>
      (ptr, l1 ++ bp :: (ptr, sz + nsz, false) :: l2', ptr :: remove Z.eq_dec n fl)
  | true, _ =>
      (ptr, l1 ++ bp :: (ptr, sz, false) :: l2, ptr :: fl)
  | false, (n, nsz, false) :: l2' =>
      (pa, l1 ++ (pa, psz + sz + nsz, false) :: l2', remove Z.eq_dec n fl)
  | false, _ =>
      (pa, l1 ++ (pa, psz + sz, false) :: l2, fl)
  end.

Definition next_alloc (l2 : list block) : bool :=
  match l2 with (_, _, false) :: _ => false | _ => true end.

Section Coalesce.
Variables (s : heap) (l1 : list block) (pa psz : Z) (pal : bool) (ptr sz : Z)
          (l2 : list block) (fl : list Z).
Let LL := l1 ++ (pa, psz, pal) :: (ptr, sz, false) :: l2.
Hypothesis Hwf : wf s LL fl ptr.

Let Hlay : layout s LL := wf_layout _ _ _ _ Hwf.
Let Hlist : listed LL fl ptr := wf_listed _ _ _ _ Hwf.

Lemma co_prev_in : In (pa, psz, pal) LL.
Proof. apply in_or_app. right. left. reflexivity. Qed.

Lemma co_ptr_in : In (ptr, sz, false) LL.
Proof. apply in_or_app. right. right. left. reflexivity. Qed.

Lemma co_contig :
  contig (head s) l1 pa /\ ptr = pa + psz /\ contig (ptr + sz) l2 (mem_brk s).
Proof.
  pose proof (lay_contig _ _ Hlay) as H. unfold LL in H.
  apply contig_app in H as (r & H1 & H2). simpl in H2.
  destruct H2 as (-> & _ & _ & <- & _ & _ & H2). auto.
Qed.

Lemma co_tags :
  Forall (tag (mem s)) l1 /\ tag (mem s) (pa, psz, pal) /\
  tag (mem s) (ptr, sz, false) /\ Forall (tag (mem s)) l2.
Proof.
  pose proof (lay_tags _ _ Hlay) as H. unfold LL in H.
  apply Forall_app in H as [H1 H2].
  inversion H2 as [|? ? H3 H4]. inversion H4 as [|? ? H5 H6]. auto.
Qed.

Lemma co_next_alloc :
  Z.land (mem s (ptr + sz - 4)) 1 = if next_alloc l2 then 1 else 0.
Proof.
  destruct co_contig as (_ & _ & Hc). destruct co_tags as (_ & _ & _ & Ht).
  destruct l2 as [|[[n nsz] nal] l2'].
  - simpl in *. rewrite Hc, (lay_epilogue _ _ Hlay). reflexivity.
  - simpl in Hc. destruct Hc as (-> & _ & Hm & _). inversion Ht as [|? ? H1 _].
    rewrite (tag_header_alloc _ _ _ _ H1 Hm). destruct nal; reflexivity.
Qed.

Lemma co_bounds :
  mem_heap s = head s - 8 /\ 0 <= mem_heap s /\ mem_brk s <= 2 ^ 32 /\
  head s mod 8 = 0 /\ head s <= pa /\ pa mod 8 = 0 /\ 16 <= psz /\ psz mod 8 = 0 /\
  ptr = pa + psz /\ 16 <= sz /\ sz mod 8 = 0 /\ ptr + sz <= mem_brk s.
Proof.
  destruct (block_bounds _ _ Hlay _ _ _ co_prev_in) as (H1 & H2 & H3 & H4 & H5 & H6 & H7).
  destruct (block_bounds _ _ Hlay _ _ _ co_ptr_in) as (G1 & G2 & G3 & G4 & G5 & G6 & G7).
  destruct (head_range _ _ Hlay) as (K1 & K2 & K3).
  destruct co_contig as (_ & E & _).
  pose proof (lay_lo _ _ Hlay). pose proof (lay_head _ _ Hlay).
  pose proof (lay_brk _ _ Hlay). pose proof (lay_max _ _ Hlay).
  repeat split; lia.
Qed.

Lemma co_reads :
  Z.land (mem s (ptr - 8)) (Z.lnot 7) = psz /\
  Z.land (mem s (ptr - 4)) (Z.lnot 7) = sz /\
  Z.land (mem s (ptr - psz - 4)) 1 = (if pal then 1 else 0) /\
  mem s (ptr - 4) = sz /\ mem s (ptr + sz - 8) = sz.
Proof.
  destruct co_bounds as (B1 & B2 & B3 & B4 & B5 & B6 & B7 & B8 & B9 & B10 & B11 & B12).
  destruct co_tags as (_ & T1 & T2 & _).
  replace (ptr - 8) with (pa + psz - 8) by lia.
  replace (ptr - psz - 4) with (pa - 4) by lia.
  repeat split.
  - apply (tag_footer_size _ _ _ _ T1 B8).
  - apply (tag_free_size _ _ _ T2 B11).
  - apply (tag_header_alloc _ _ _ _ T1 B8).
  - apply T2.
  - apply T2.
Qed.

(** The reads that open [coalesce]. *)
Lemma co_prefix :
  coalesce ptr s =
  (if negb ((if pal then 1 else 0) =? 0) && negb ((if next_alloc l2 then 1 else 0) =? 0) then
     insert_front ptr ;;; ret ptr
   else if negb ((if pal then 1 else 0) =? 0) && ((if next_alloc l2 then 1 else 0) =? 0) then
     nsz <- SIZE (HDR (ptr + sz)) ;;
     let size := usize (sz + nsz) in
     SET (HDR ptr) (PACK size FREE) ;;;
     f <- FTR ptr ;;
     SET f (PACK size FREE) ;;;
     unlink (ptr + sz) ;;;
     insert_front ptr ;;;
     ret ptr
   else if ((if pal then 1 else 0) =? 0) && negb ((if next_alloc l2 then 1 else 0) =? 0) then
     psz' <- SIZE (HDR (ptr - psz)) ;;
     let size := usize (sz + psz') in
     SET (HDR (ptr - psz)) (PACK size FREE) ;;;
     f <- FTR (ptr - psz) ;;
     SET f (PACK size FREE) ;;;
     ret (ptr - psz)
   else
     psz' <- SIZE (HDR (ptr - psz)) ;;
     nsz <- SIZE (HDR (ptr + sz)) ;;
     let size := usize (sz + usize (psz' + nsz)) in
     SET (HDR (ptr - psz)) (PACK size FREE) ;;;
     f <- FTR (ptr - psz) ;;
     SET f (PACK size FREE) ;;;
     unlink (ptr + sz) ;;;
     ret (ptr - psz)) s.
Proof.
  destruct co_bounds as (B1 & B2 & B3 & B4 & B5 & B6 & B7 & B8 & B9 & B10 & B11 & B12).
  destruct co_reads as (R1 & R2 & R3 & _).
  pose proof co_next_alloc as R4.
  unfold coalesce.
  rewrite bind_PREV by valid_tac. rewrite R1.
  rewrite bind_NEXT by valid_tac. rewrite R2.
  unfold HDR at 1 2. unfold WSIZE.
  rewrite bind_ALLOC by valid_tac. rewrite R3.
  rewrite bind_ALLOC by valid_tac. rewrite R4.
  rewrite bind_SIZE by valid_tac.
  change (mem s (HDR ptr)) with (mem s (ptr - 4)). rewrite R2.
  reflexivity.
Qed.
End Coalesce.

(** [x] is no link word of a block of [LL]. *)
Definition off_links (LL : list block) (x : Z) : Prop :=
  forall f szf alf, In (f, szf, alf) LL -> x <> f /\ x <> f + 4.

(** [x] lies in no block marked free. *)
Definition off_free (LL : list block) (x : Z) : Prop :=
  forall f szf, In (f, szf, false) LL -> x < f - 4 \/ f + szf - 4 <= x.

(** Writing link words only keeps the layout. *)
Lemma layout_links s LL m' :
  layout s LL ->
  (forall x, off_links LL x -> m' x = mem s x) ->
  layout (set_mem s m') LL.
Proof.
  intros Hlay Hm. destruct Hlay as [H1 H2 H3 H4 H5 H6 H7 H8 H9].
  assert (Hlay : layout s LL) by (constructor; assumption).
  constructor; fields; try assumption.
  - rewrite Forall_forall in *. intros [[a sz] al] Hin. specialize (H8 _ Hin).
    assert (E1 : m' (a - 4) = mem s (a - 4)).
    { apply Hm. intros f szf alf Hf.
      apply (tag_not_link _ _ Hlay a sz al f szf alf); auto. }
    assert (E2 : m' (a + sz - 8) = mem s (a + sz - 8)).
    { apply Hm. intros f szf alf Hf.
      apply (tag_not_link _ _ Hlay a sz al f szf alf); auto. }
    unfold tag in *. rewrite E1, E2. assumption.
  - rewrite Hm; [assumption|]. intros f szf alf Hf.
    destruct (block_bounds _ _ Hlay _ _ _ Hf) as (_ & ? & ? & _). lia.
Qed.

Lemma chain_hd m h fl : chain m h fl -> m (h + 4) = hd 0 fl.
Proof. destruct fl; simpl; tauto. Qed.

Lemma hd_in (l : list Z) : hd 0 l = 0 \/ In (hd 0 l) l.
Proof. destruct l; simpl; auto. Qed.

(** ** The list primitives on a heap with a layout *)

(** Nodes: aligned block addresses inside the region, pairwise apart. *)
Definition node_ok (s : heap) (x : Z) : Prop :=
  head s + 16 <= x /\ x + 16 <= mem_brk s /\ x mod 8 = 0.

Record nodes_ok (s : heap) (fl : list Z) : Prop := mk_nodes_ok {
  nok_nodup : NoDup fl;
  nok_range : forall x, In x fl -> node_ok s x;
  nok_far : forall x y, In x fl -> In y fl -> x = y \/ far x y
}.

Definition is_block (LL : list block) (x : Z) : Prop :=
  exists sz al, In (x, sz, al) LL.

Lemma listed_nodes_ok s LL fl ex : layout s LL -> listed LL fl ex -> nodes_ok s fl.
Proof.
  intros Hlay Hlist. constructor.
  - apply Hlist.
  - intros x Hx. destruct (node_range _ _ _ _ Hlay Hlist _ Hx) as (H1 & H2 & H3 & _).
    repeat split; assumption.
  - intros x y Hx Hy. apply (nodes_far _ _ _ _ Hlay Hlist); right; assumption.
Qed.

Lemma listed_is_block LL fl ex x : listed LL fl ex -> In x fl -> is_block LL x.
Proof. intros Hl Hx. destruct (node_block _ _ _ Hl _ Hx) as [sz H]. exists sz, false. assumption. Qed.

Section Links.
Variables (s : heap) (LL : list block) (fl : list Z).
Hypothesis Hlay : layout s LL.
Hypothesis Hch : chain (mem s) (head s) fl.
Hypothesis Hok : nodes_ok s fl.

Lemma lk_head : 0 < head s < 2 ^ 32 /\ head s + 16 <= mem_brk s /\ head s mod 8 = 0 /\
                mem_heap s = head s - 8 /\ mem_brk s <= 2 ^ 32.
Proof using Hlay.
  destruct (head_range _ _ Hlay) as (K1 & K2 & K3).
  pose proof (lay_head _ _ Hlay). pose proof (lay_brk _ _ Hlay).
  pose proof (lay_max _ _ Hlay). repeat split; lia.
Qed.

Lemma lk_pos x : In x (head s :: fl) -> 0 < x < 2 ^ 32.
Proof using Hlay Hok.
  destruct lk_head as (K1 & K2 & K3 & K4 & K5).
  intros [<-|Hx]; [assumption|].
  destruct (nok_range _ _ Hok _ Hx) as (N1 & N2 & N3). lia.
Qed.

Lemma lk_nodup : NoDup (head s :: fl).
Proof using Hok.
  constructor; [|apply Hok]. intros Hx.
  destruct (nok_range _ _ Hok _ Hx) as (N1 & N2 & N3). lia.
Qed.

Lemma lk_far x y : In x (head s :: fl) -> In y (head s :: fl) -> x = y \/ far x y.
Proof using Hok.
  unfold far. intros [<-|Hx] [<-|Hy]; auto.
  - destruct (nok_range _ _ Hok _ Hy) as (N1 & N2 & N3). right. lia.
  - destruct (nok_range _ _ Hok _ Hx) as (N1 & N2 & N3). right. lia.
  - apply (nok_far _ _ Hok); assumption.
Qed.

Lemma lk_valid x : In x (head s :: fl) -> valid s x = true /\ valid s (x + 4) = true.
Proof using Hlay Hok.
  destruct lk_head as (K1 & K2 & K3 & K4 & K5).
  intros [<-|Hx]; [split; valid_tac|].
  destruct (nok_range _ _ Hok _ Hx) as (N1 & N2 & N3). split; valid_tac.
Qed.

(** [insert_front p] for a block [p] that is not yet on the list. *)
Lemma insert_front_ok p :
  node_ok s p -> (forall x, In x fl -> far x p) ->
  let m' := insert_mem (mem s) (head s) p in
  (forall B (k : unit -> M B), bind (insert_front p) k s = k tt (set_mem s m')) /\
  chain m' (head s) (p :: fl) /\
  (forall x, x <> head s + 4 -> x <> p -> x <> p + 4 ->
             (forall f, In f fl -> x <> f) -> m' x = mem s x).
Proof using Hlay Hch Hok.
  intros (P1 & P2 & P3) Hp m'.
  destruct lk_head as (K1 & K2 & K3 & K4 & K5).
  pose proof (chain_hd _ _ _ Hch) as Ehd.
  split; [|split].
  - intros B k. apply bind_insert_front; try valid_tac.
    rewrite Ehd. destruct (hd_in fl) as [E|Hin]; [left; assumption|right].
    apply lk_valid. right. assumption.
  - apply chain_insert; try assumption.
    + intros x Hx. split; [apply lk_pos; assumption|].
      destruct Hx as [<-|Hx]; [unfold far; lia | apply Hp; assumption].
    + lia.
    + apply lk_nodup.
    + apply lk_far.
  - intros x H1 H2 H3 H4. apply insert_mem_other; try assumption.
    rewrite Ehd. destruct (hd_in fl) as [E|Hin]; [left; assumption|right].
    apply H4. assumption.
Qed.

(** [unlink n] for a node of the list. *)
Lemma unlink_ok l1 n l2 :
  fl = l1 ++ n :: l2 ->
  let m' := unlink_mem (mem s) n in
  (forall B (k : unit -> M B), bind (unlink n) k s = k tt (set_mem s m')) /\
  chain m' (head s) (l1 ++ l2) /\
  (forall x, x <> head s + 4 -> (forall f, In f (l1 ++ l2) -> x <> f /\ x <> f + 4) ->
             m' x = mem s x).
Proof using Hlay Hch Hok.
  intros E m'.
  destruct lk_head as (K1 & K2 & K3 & K4 & K5).
  pose proof Hch as Hch'. rewrite E in Hch'.
  destruct (chain_links _ _ _ _ _ Hch') as [Ep Es].
  assert (Hsub : forall x, In x (head s :: l1 ++ n :: l2) -> In x (head s :: fl)).
  { rewrite E. auto. }
  assert (Hn : In n (head s :: l1 ++ n :: l2)).
  { right. apply in_or_app. right. left. reflexivity. }
  assert (Hpin : In (last l1 (head s)) (head s :: l1)).
  { clear. generalize (head s). induction l1 as [|b l IH]; intros a; [left; reflexivity|].
    rewrite last_cons. right. apply IH. }
  assert (Hpin' : In (last l1 (head s)) (head s :: l1 ++ n :: l2)).
  { destruct Hpin as [E'|Hin]; [left; assumption|right; apply in_or_app; left; assumption]. }
  assert (Hnd := lk_nodup). rewrite E in Hnd.
  split; [|split].
  - intros B k. apply bind_unlink.
    + apply lk_valid, Hsub. assumption.
    + apply lk_valid, Hsub. assumption.
    + rewrite Ep. apply lk_valid, Hsub. assumption.
    + rewrite Es. destruct (hd_in l2) as [E'|Hin]; [left; assumption|right].
      apply lk_valid, Hsub. right. apply in_or_app. right. right. assumption.
  - apply chain_unlink; try assumption.
    + intros x Hx. apply lk_pos, Hsub, Hx.
    + intros x y Hx Hy. apply lk_far; apply Hsub; assumption.
  - intros x H1 H2. apply unlink_mem_other.
    + rewrite Ep. destruct Hpin as [<-|Hin]; [lia|].
      assert (Hin' : In (last l1 (head s)) (l1 ++ l2)) by (apply in_or_app; left; assumption).
      destruct (H2 _ Hin'). lia.
    + rewrite Es. destruct (hd_in l2) as [E'|Hin]; [left; assumption|right].
      assert (Hin' : In (hd 0 l2) (l1 ++ l2)) by (apply in_or_app; right; assumption).
      destruct (H2 _ Hin'). lia.
Qed.
End Links.

Lemma bind_set_tags {B} a v w S (k : M B) s :
  uint v = w -> Z.land w (Z.lnot 7) = S ->
  valid s (a - 4) = true -> valid s (a + S - 8) = true ->
  bind (SET (HDR a) v) (fun _ => bind (FTR a) (fun f => bind (SET f v) (fun _ => k))) s
  = k (set_mem s (upd (upd (mem s) (a - 4) w) (a + S - 8) w)).
Proof.
  intros Ev ES H1 H2. unfold HDR, WSIZE.
  rewrite bind_SET by assumption. rewrite bind_FTR by assumption.
  fields. rewrite upd_same by reflexivity. rewrite Ev, ES.
  rewrite bind_SET by assumption. fields. rewrite Ev. reflexivity.
Qed.

Lemma free_word S : 0 <= S < 2 ^ 32 -> S mod 8 = 0 ->
  uint (PACK S FREE) = S /\ Z.land S (Z.lnot 7) = S.
Proof.
  intros H1 H2. rewrite PACK_free, uint_small by assumption.
  rewrite land_lnot7. lia.
Qed.

Lemma alloc_word S : 0 <= S < 2 ^ 32 - 8 -> S mod 8 = 0 ->
  uint (PACK S ALLOCATED) = S + 1 /\ Z.land (S + 1) (Z.lnot 7) = S /\ Z.land (S + 1) 1 = 1.
Proof.
  intros H1 H2. rewrite PACK_alloc, uint_small by (assumption || lia).
  rewrite land_lnot7, land_1. repeat split; Z.div_mod_to_equations; lia.
Qed.

Lemma nodes_ok_mem s m fl : nodes_ok s fl -> nodes_ok (set_mem s m) fl.
Proof. intros [H1 H2 H3]. constructor; assumption. Qed.

Lemma nodes_ok_sub s fl fl' :
  nodes_ok s fl -> NoDup fl' -> (forall x, In x fl' -> In x fl) -> nodes_ok s fl'.
Proof.
  intros [H1 H2 H3] Hnd Hsub. constructor; auto.
Qed.

Lemma contig_mod p L q : contig p L q -> (q - p) mod 8 = 0.
Proof.
  revert p. induction L as [|[[a sz] al] L IH]; intros p; simpl.
  - intros ->. rewrite Z.sub_diag. reflexivity.
  - intros (_ & _ & Hm & H). apply IH in H. Z.div_mod_to_equations. lia.
Qed.

(** Rewriting the tags of a span of blocks into those of one free block. *)
Lemma retag_ok s l1 mid l2 a S fl :
  layout s (l1 ++ mid ++ l2) ->
  contig (head s) l1 a -> contig a mid (a + S) -> 16 <= S -> l1 <> [] ->
  chain (mem s) (head s) fl ->
  (forall f, In f fl -> is_block (l1 ++ mid ++ l2) f) ->
  let m' := upd (upd (mem s) (a - 4) S) (a + S - 8) S in
  layout (set_mem s m') (l1 ++ (a, S, false) :: l2) /\
  chain m' (head s) fl /\
  S mod 8 = 0 /\ a + S <= mem_brk s /\ head s + 16 <= a /\ a mod 8 = 0.
Proof.
  intros Hlay Hc1 Hcm HS Hne Hch Hblk m'.
  pose proof (lay_contig _ _ Hlay) as Hc.
  apply contig_app in Hc as (r & Hc1' & Hc).
  assert (r = a) by (apply contig_total in Hc1, Hc1'; lia). subst r.
  apply contig_app in Hc as (r & Hcm' & Hc2).
  assert (r = a + S) by (apply contig_total in Hcm, Hcm'; lia). subst r.
  pose proof (lay_tags _ _ Hlay) as Ht.
  apply Forall_app in Ht as [Ht1 Ht]. apply Forall_app in Ht as [_ Ht2].
  destruct (head_range _ _ Hlay) as (K1 & K2 & K3).
  destruct (lay_prologue _ _ Hlay) as [L EL].
  assert (Ha : head s + 16 <= a).
  { destruct l1 as [|b1 l1']; [contradiction|]. simpl in EL. injection EL as -> EL.
    simpl in Hc1. destruct Hc1 as (_ & _ & _ & Hc1). apply contig_le in Hc1.
    unfold MINSIZE in *. lia. }
  assert (Hq : a + S <= mem_brk s) by (apply contig_le in Hc2; assumption).
  assert (HSm : S mod 8 = 0).
  { apply contig_mod in Hcm. replace (a + S - a) with S in Hcm by lia. assumption. }
  assert (Ham : a mod 8 = 0).
  { apply contig_mod in Hc1. Z.div_mod_to_equations. lia. }
  split; [|split; [|repeat split; assumption]].
  - destruct Hlay as [H1 H2 H3 H4 H5 H6 H7 H8 H9].
    constructor; fields; try assumption.
    + destruct l1 as [|b1 l1']; [contradiction|]. simpl in EL. injection EL as -> EL.
      eexists. reflexivity.
    + apply contig_app. exists a. split; [assumption|]. simpl.
      unfold MINSIZE. repeat split; try assumption; lia.
    + apply Forall_app. split; [|constructor].
      * unfold m'. apply tags_upd; [|apply tags_upd; [|assumption]];
          apply (off_tags_outside _ _ _ _ Hc1); lia.
      * unfold tag, m'. split.
        -- rewrite upd_other by lia. apply upd_same. reflexivity.
        -- apply upd_same. reflexivity.
      * unfold m'. apply tags_upd; [|apply tags_upd; [|assumption]];
          apply (off_tags_outside _ _ _ _ Hc2); lia.
    + unfold m'. rewrite !upd_other by lia. assumption.
  - assert (Hf : forall f, In f fl -> forall x, x = a - 4 \/ x = a + S - 8 -> x <> f /\ x <> f + 4).
    { intros f Hin x Hx. destruct (Hblk _ Hin) as (szf & alf & Hb).
      apply in_app_or in Hb as [Hb|Hb]; [|apply in_app_or in Hb as [Hb|Hb]].
      - destruct (contig_in _ _ _ _ _ _ Hc1 Hb) as (? & ? & ? & _). unfold MINSIZE in *. lia.
      - destruct (contig_in _ _ _ _ _ _ Hcm Hb) as (? & ? & ? & _). unfold MINSIZE in *. lia.
      - destruct (contig_in _ _ _ _ _ _ Hc2 Hb) as (? & ? & ? & _). unfold MINSIZE in *. lia. }
    unfold m'. apply chain_upd; [apply chain_upd; [assumption|lia|]|lia|].
    + intros f Hin. apply (Hf f Hin). left. reflexivity.
    + intros f Hin. apply (Hf f Hin). right. reflexivity.
Qed.

Lemma remove_unique (n : Z) fl f1 f2 :
  NoDup fl -> fl = f1 ++ n :: f2 ->
  remove Z.eq_dec n fl = f1 ++ f2 /\ NoDup (f1 ++ f2) /\
  forall x, In x (f1 ++ f2) <-> In x fl /\ x <> n.
Proof.
  intros Hnd ->. pose proof (NoDup_remove_2 _ _ _ Hnd) as Hn.
  assert (H1 : ~ In n f1) by (intros H; apply Hn, in_or_app; left; assumption).
  assert (H2 : ~ In n f2) by (intros H; apply Hn, in_or_app; right; assumption).
  split; [|split].
  - rewrite remove_app, remove_cons, !notin_remove by assumption. reflexivity.
  - apply NoDup_remove_1 in Hnd. assumption.
  - intros x. rewrite !in_app_iff. simpl. split.
    + intros [H|H]; (split; [tauto|]); intros ->; contradiction.
    + intros [[H|[H|H]] Hx]; try tauto. congruence.
Qed.

Section CoalesceCases.
Variables (s : heap) (l1 : list block) (pa psz : Z) (pal : bool) (ptr sz : Z)
          (l2 : list block) (fl : list Z).
Let LL := l1 ++ (pa, psz, pal) :: (ptr, sz, false) :: l2.
Hypothesis Hwf : wf s LL fl ptr.

Let Hlay : layout s LL := wf_layout _ _ _ _ Hwf.
Let Hlist : listed LL fl ptr := wf_listed _ _ _ _ Hwf.
Let Hch : chain (mem s) (head s) fl := wf_chain _ _ _ _ Hwf.

(** The free blocks of the layout, by parts. *)
Lemma cc_sf x :
  sf LL x <-> sf l1 x \/ (x = pa /\ pal = false) \/ x = ptr \/ sf l2 x.
Proof using Type.
  unfold LL. rewrite sf_app, !sf_cons. tauto.
Qed.

Lemma cc_sf_l1 x : sf l1 x -> 0 < x /\ x + 16 <= pa.
Proof using Hwf.
  destruct (co_contig _ _ _ _ _ _ _ _ _ Hwf) as (H1 & _ & _).
  destruct (head_range _ _ Hlay) as (K1 & _).
  intros H. destruct (sf_range _ _ _ _ H1 H). lia.
Qed.

Lemma cc_sf_l2 x : sf l2 x -> ptr + sz <= x.
Proof using Hwf.
  destruct (co_contig _ _ _ _ _ _ _ _ _ Hwf) as (_ & _ & H2).
  intros H. destruct (sf_range _ _ _ _ H2 H). lia.
Qed.

Lemma cc_in x : In x fl <-> x <> ptr /\ sf LL x.
Proof using Hwf. apply Hlist. Qed.

Lemma cc_off_free_ptr x : off_free LL x -> x < ptr - 4 \/ ptr + sz - 4 <= x.
Proof using Type.
  intros H. apply (H ptr sz). apply co_ptr_in.
Qed.

Lemma cc_off_free_node x f : off_free LL x -> In f fl -> x <> f /\ x <> f + 4.
Proof using Hwf.
  intros H Hin. destruct (node_block _ _ _ Hlist _ Hin) as [szf Hb].
  destruct (block_bounds _ _ Hlay _ _ _ Hb) as (_ & _ & ? & _).
  destruct (H _ _ Hb); lia.
Qed.

Lemma cc_l1_nonempty : pal = false -> l1 <> [].
Proof using Hwf.
  intros -> ->. destruct (lay_prologue _ _ Hlay) as [L E]. unfold LL in E.
  simpl in E. discriminate E.
Qed.
End CoalesceCases.

(** *** [coalesce]: the predecessor alone is free *)

Lemma coalesce_prev s l1 pa psz ptr sz l2 fl :
  let LL := l1 ++ (pa, psz, false) :: (ptr, sz, false) :: l2 in
  wf s LL fl ptr -> next_alloc l2 = true ->
  let m' := upd (upd (mem s) (pa - 4) (psz + sz)) (pa + (psz + sz) - 8) (psz + sz) in
  coalesce ptr s = Some (pa, set_mem s m') /\
  wf (set_mem s m') (l1 ++ (pa, psz + sz, false) :: l2) fl NULL /\
  frame_free LL (head s) (mem s) m'.
Proof.
  intros LL Hwf Hna m'.
  pose proof (wf_layout _ _ _ _ Hwf) as Hlay.
  pose proof (wf_listed _ _ _ _ Hwf) as Hlist.
  pose proof (wf_chain _ _ _ _ Hwf) as Hch.
  destruct (co_bounds _ _ _ _ _ _ _ _ _ Hwf) as (B1 & B2 & B3 & B4 & B5 & B6 & B7 & B8 & B9 & B10 & B11 & B12).
  destruct (co_contig _ _ _ _ _ _ _ _ _ Hwf) as (C1 & _ & C2).
  destruct (co_tags _ _ _ _ _ _ _ _ _ Hwf) as (_ & T1 & _ & _).
  assert (Hmid : contig pa [(pa, psz, false); (ptr, sz, false)] (pa + (psz + sz))).
  { simpl. unfold MINSIZE. repeat split; try assumption; lia. }
  destruct (retag_ok s l1 [(pa, psz, false); (ptr, sz, false)] l2 pa (psz + sz) fl)
    as (Hlay' & Hch' & R1 & R2 & R3 & R4); try assumption.
  - lia.
  - apply (cc_l1_nonempty _ _ _ _ _ _ _ _ _ Hwf). reflexivity.
  - intros f Hin. apply (listed_is_block _ _ _ _ Hlist Hin).
  - fold m' in Hlay', Hch'. split; [|split].
    + rewrite (co_prefix _ _ _ _ _ _ _ _ _ Hwf). rewrite Hna. simpl.
      rewrite bind_SIZE by valid_tac.
      replace (Z.land (mem s (HDR (ptr - psz))) (Z.lnot 7)) with psz.
      2:{ unfold HDR, WSIZE. replace (ptr - psz - 4) with (pa - 4) by lia.
          symmetry. apply (tag_free_size _ _ _ T1 B8). }
      rewrite usize_small by lia.
      destruct (free_word (sz + psz)) as [W1 W2]; [lia | zdiv |].
      rewrite (bind_set_tags _ _ _ _ _ _ W1 W2) by valid_tac.
      unfold ret, m'. replace (ptr - psz) with pa by lia.
      replace (sz + psz) with (psz + sz) by lia. reflexivity.
    + constructor; try assumption.
      destruct Hlist as [Hnd Hin]. split; [assumption|].
      intros x. rewrite Hin. fold (sf LL x). fold (sf (l1 ++ (pa, psz + sz, false) :: l2) x).
      unfold LL. rewrite !sf_app, !sf_cons. unfold NULL.
      pose proof (cc_sf_l1 _ _ _ _ _ _ _ _ _ Hwf x) as Hx1.
      pose proof (cc_sf_l2 _ _ _ _ _ _ _ _ _ Hwf x) as Hx2.
      intuition lia.
    + intros x Hx Hoff.
      destruct (Hoff pa psz) as [H|H]; [apply (co_prev_in l1 pa psz false ptr sz l2)| |];
        destruct (cc_off_free_ptr l1 pa psz false ptr sz l2 x Hoff) as [H'|H'];
        unfold m'; rewrite !upd_other by lia; reflexivity.
Qed.

(** *** [coalesce]: no free neighbour *)

Lemma coalesce_none s l1 pa psz ptr sz l2 fl :
  let LL := l1 ++ (pa, psz, true) :: (ptr, sz, false) :: l2 in
  wf s LL fl ptr -> next_alloc l2 = true ->
  let m' := insert_mem (mem s) (head s) ptr in
  coalesce ptr s = Some (ptr, set_mem s m') /\
  wf (set_mem s m') LL (ptr :: fl) NULL /\
  frame_free LL (head s) (mem s) m'.
Proof.
  intros LL Hwf Hna m'.
  pose proof (wf_layout _ _ _ _ Hwf) as Hlay.
  pose proof (wf_listed _ _ _ _ Hwf) as Hlist.
  pose proof (wf_chain _ _ _ _ Hwf) as Hch.
  pose proof (listed_nodes_ok _ _ _ _ Hlay Hlist) as Hok.
  destruct (co_bounds _ _ _ _ _ _ _ _ _ Hwf) as (B1 & B2 & B3 & B4 & B5 & B6 & B7 & B8 & B9 & B10 & B11 & B12).
  pose proof (co_ptr_in l1 pa psz true ptr sz l2) as Hptr. fold LL in Hptr.
  assert (Hnode : node_ok s ptr) by (unfold node_ok; repeat split; zdiv).
  assert (Hfar : forall x, In x fl -> far x ptr).
  { intros x Hx. destruct (node_block _ _ _ Hlist _ Hx) as [sx Hb].
    apply Hlist in Hx. destruct Hx as [Hne _].
    destruct (block_bounds _ _ Hlay _ _ _ Hb) as (_ & _ & ? & _).
    destruct (blocks_apart _ _ Hlay _ _ _ _ _ _ Hb Hptr) as [(E & _)|E]; [congruence|].
    unfold far. lia. }
  destruct (insert_front_ok s LL fl Hlay Hch Hok ptr Hnode Hfar) as (Hrun & Hch' & Hagree).
  fold m' in Hrun, Hch', Hagree.
  split; [|split].
  - rewrite (co_prefix _ _ _ _ _ _ _ _ _ Hwf). rewrite Hna. simpl.
    rewrite Hrun. reflexivity.
  - constructor.
    + apply layout_links; [assumption|]. intros x Hoff.
      destruct (Hoff _ _ _ (head_block _ _ Hlay)) as [? ?].
      destruct (Hoff _ _ _ Hptr) as [? ?].
      apply Hagree; try assumption.
      intros f Hf. destruct (node_block _ _ _ Hlist _ Hf) as [sx Hb].
      apply (Hoff _ _ _ Hb).
    + exact Hch'.
    + destruct Hlist as [Hnd Hin]. split.
      * constructor; [|assumption]. intros H. apply Hin in H. tauto.
      * intros x. simpl. rewrite Hin. unfold NULL. split.
        -- intros [<-|[Hx Hs]].
           ++ split; [lia|]. exists sz. assumption.
           ++ split; [|assumption]. destruct Hs as [sz' Hs].
              destruct (block_bounds _ _ Hlay _ _ _ Hs) as (_ & _ & _ & _ & _ & ? & _). lia.
        -- intros [_ Hs]. destruct (Z.eq_dec ptr x); [left; assumption|right].
           split; [congruence|assumption].
  - intros x Hx Hoff.
    destruct (cc_off_free_ptr l1 pa psz true ptr sz l2 x Hoff) as [H'|H'];
      (apply Hagree; [assumption|lia|lia|]);
      intros f Hf; apply (cc_off_free_node _ _ _ _ _ _ _ _ _ Hwf x f Hoff Hf).
Qed.

(** ** The list primitives keep the layout *)

Lemma is_block_node s LL x :
  layout s LL -> is_block LL x -> x <> head s -> node_ok s x.
Proof.
  intros Hlay (sz & al & Hb) Hne.
  destruct (block_bounds _ _ Hlay _ _ _ Hb) as (H1 & H2 & H3 & H4 & H5 & _).
  destruct (blocks_apart _ _ Hlay _ _ _ _ _ _ (head_block _ _ Hlay) Hb) as [(E & _)|E];
    [congruence|].
  unfold node_ok, MINSIZE in *. repeat split; lia.
Qed.

Lemma is_block_far s LL x y :
  layout s LL -> is_block LL x -> is_block LL y -> x <> y -> far x y.
Proof.
  intros Hlay (sx & ax & Hx) (sy & ay & Hy) Hne.
  destruct (block_bounds _ _ Hlay _ _ _ Hx) as (_ & _ & ? & _).
  destruct (block_bounds _ _ Hlay _ _ _ Hy) as (_ & _ & ? & _).
  destruct (blocks_apart _ _ Hlay _ _ _ _ _ _ Hx Hy) as [(E & _)|E]; [congruence|].
  unfold far. lia.
Qed.

Lemma is_block_off_links LL x f :
  off_links LL x -> is_block LL f -> x <> f /\ x <> f + 4.
Proof. intros Hoff (sz & al & Hb). apply (Hoff _ _ _ Hb). Qed.

Lemma unlink_step s LL fl f1 n f2 :
  layout s LL -> chain (mem s) (head s) fl -> nodes_ok s fl ->
  fl = f1 ++ n :: f2 ->
  (forall f, In f (f1 ++ f2) -> is_block LL f) ->
  let m' := unlink_mem (mem s) n in
  (forall B (k : unit -> M B), bind (unlink n) k s = k tt (set_mem s m')) /\
  layout (set_mem s m') LL /\
  chain m' (head s) (f1 ++ f2) /\
  nodes_ok (set_mem s m') (f1 ++ f2) /\
  (forall x, x <> head s + 4 -> (forall f, In f (f1 ++ f2) -> x <> f /\ x <> f + 4) ->
             m' x = mem s x).
Proof.
  intros Hlay Hch Hok E Hblk m'.
  destruct (unlink_ok s LL fl Hlay Hch Hok f1 n f2 E) as (Hrun & Hch' & Hag).
  fold m' in Hrun, Hch', Hag.
  destruct (remove_unique n fl f1 f2 (nok_nodup _ _ Hok) E) as (_ & Hnd & Hin).
  split; [assumption|]. split; [|split; [assumption|split; [|assumption]]].
  - apply layout_links; [assumption|]. intros x Hoff. apply Hag.
    + destruct (Hoff _ _ _ (head_block _ _ Hlay)). assumption.
    + intros f Hf. apply (is_block_off_links _ _ _ Hoff (Hblk _ Hf)).
  - apply nodes_ok_mem. apply (nodes_ok_sub _ _ _ Hok Hnd). intros x Hx. apply Hin. assumption.
Qed.

Lemma insert_step s LL fl p :
  layout s LL -> chain (mem s) (head s) fl -> nodes_ok s fl ->
  (forall f, In f fl -> is_block LL f) ->
  is_block LL p -> p <> head s -> ~ In p fl ->
  let m' := insert_mem (mem s) (head s) p in
  (forall B (k : unit -> M B), bind (insert_front p) k s = k tt (set_mem s m')) /\
  layout (set_mem s m') LL /\
  chain m' (head s) (p :: fl) /\
  (forall x, x <> head s + 4 -> x <> p -> x <> p + 4 ->
             (forall f, In f fl -> x <> f) -> m' x = mem s x).
Proof.
  intros Hlay Hch Hok Hblk Hp Hph Hnin m'.
  assert (Hfar : forall x, In x fl -> far x p).
  { intros x Hx. apply (is_block_far _ _ _ _ Hlay (Hblk _ Hx) Hp). congruence. }
  destruct (insert_front_ok s LL fl Hlay Hch Hok p (is_block_node _ _ _ Hlay Hp Hph) Hfar)
    as (Hrun & Hch' & Hag).
  fold m' in Hrun, Hch', Hag.
  split; [assumption|]. split; [|split; assumption].
  apply layout_links; [assumption|]. intros x Hoff.
  destruct (Hoff _ _ _ (head_block _ _ Hlay)).
  destruct (is_block_off_links _ _ _ Hoff Hp).
  apply Hag; try assumption.
  intros f Hf. apply (is_block_off_links _ _ _ Hoff (Hblk _ Hf)).
Qed.

(** *** [coalesce]: the successor alone is free *)

Lemma coalesce_next s l1 pa psz ptr sz n nsz l2 fl :
  let LL := l1 ++ (pa, psz, true) :: (ptr, sz, false) :: (n, nsz, false) :: l2 in
  wf s LL fl ptr ->
  exists m',
    coalesce ptr s = Some (ptr, set_mem s m') /\
    wf (set_mem s m') (l1 ++ (pa, psz, true) :: (ptr, sz + nsz, false) :: l2)
       (ptr :: remove Z.eq_dec n fl) NULL /\
    frame_free LL (head s) (mem s) m'.
Proof.
  intros LL Hwf.
  pose proof (wf_layout _ _ _ _ Hwf) as Hlay.
  pose proof (wf_listed _ _ _ _ Hwf) as Hlist.
  pose proof (wf_chain _ _ _ _ Hwf) as Hch.
  pose proof (listed_nodes_ok _ _ _ _ Hlay Hlist) as Hok.
  destruct (co_bounds _ _ _ _ _ _ _ _ _ Hwf) as (B1 & B2 & B3 & B4 & B5 & B6 & B7 & B8 & B9 & B10 & B11 & B12).
  destruct (co_contig _ _ _ _ _ _ _ _ _ Hwf) as (C1 & _ & C2).
  destruct (co_tags _ _ _ _ _ _ _ _ _ Hwf) as (_ & _ & _ & T2).
  simpl in C2. destruct C2 as (En & N1 & N2 & C2). unfold MINSIZE in N1.
  destruct (Forall_inv T2) as [Tn1 Tn2].
  set (S := sz + nsz).
  set (LL' := l1 ++ (pa, psz, true) :: (ptr, S, false) :: l2).
  assert (E1 : LL = (l1 ++ [(pa, psz, true)]) ++ [(ptr, sz, false); (n, nsz, false)] ++ l2).
  { unfold LL. rewrite <- app_assoc. reflexivity. }
  assert (E2 : LL' = (l1 ++ [(pa, psz, true)]) ++ (ptr, S, false) :: l2).
  { unfold LL'. rewrite <- app_assoc. reflexivity. }
  assert (Hnin : In n fl).
  { apply Hlist. split; [lia|]. exists nsz. unfold LL.
    apply in_or_app. right. right. right. left. reflexivity. }
  destruct (in_split _ _ Hnin) as (f1 & f2 & Efl).
  destruct (remove_unique n fl f1 f2 (nok_nodup _ _ Hok) Efl) as (Erm & Hnd & Hin).
  assert (Hsf : forall x, sf LL' x <-> sf l1 x \/ x = ptr \/ sf l2 x).
  { intros x. unfold LL'. rewrite sf_app, !sf_cons. intuition congruence. }
  assert (Hsf0 : forall x, sf LL x <-> sf l1 x \/ x = ptr \/ x = n \/ sf l2 x).
  { intros x. unfold LL. rewrite sf_app, !sf_cons. intuition congruence. }
  assert (Hblk : forall f, In f (f1 ++ f2) -> is_block LL' f).
  { intros f Hf. apply Hin in Hf as [Hf Hfn]. apply Hlist in Hf as [Hfp Hf].
    fold (sf LL f) in Hf. rewrite Hsf0 in Hf.
    assert (Hs : sf LL' f) by (apply Hsf; tauto).
    destruct Hs as [szf Hs]. exists szf, false. assumption. }
  assert (Hpb : is_block LL' ptr).
  { exists S, false. unfold LL'. apply in_or_app. right. right. left. reflexivity. }
  (* the tags *)
  pose proof Hlay as Hlay1. rewrite E1 in Hlay1.
  destruct (retag_ok s (l1 ++ [(pa, psz, true)]) [(ptr, sz, false); (n, nsz, false)] l2 ptr S fl)
    as (HlayA0 & HchA & R1 & R2 & R3 & R4); try assumption.
  { apply contig_app. exists pa. split; [assumption|]. simpl. unfold MINSIZE.
    repeat split; try assumption; lia. }
  { simpl. unfold MINSIZE, S. repeat split; try assumption; lia. }
  { unfold S. lia. }
  { destruct l1; discriminate. }
  { intros f Hf. pose proof (listed_is_block _ _ _ _ Hlist Hf) as H.
    rewrite E1 in H. exact H. }
  set (mA := upd (upd (mem s) (ptr - 4) S) (ptr + S - 8) S) in *.
  assert (HlayA : layout (set_mem s mA) LL') by (rewrite E2; exact HlayA0).
  (* the successor leaves the list *)
  destruct (unlink_step (set_mem s mA) LL' fl f1 n f2 HlayA HchA (nodes_ok_mem _ _ _ Hok) Efl Hblk)
    as (HrunB & HlayB & HchB & HokB & HagB).
  set (mB := unlink_mem mA n) in *. fields.
  (* the merged block enters the list *)
  assert (Hpnin : ~ In ptr (f1 ++ f2)).
  { intros H. apply Hin in H as [H _]. apply Hlist in H. tauto. }
  assert (Hph : ptr <> head s) by lia.
  destruct (insert_step (set_mem (set_mem s mA) mB) LL' (f1 ++ f2) ptr HlayB HchB HokB Hblk Hpb Hph Hpnin)
    as (HrunC & HlayC & HchC & HagC).
  set (mC := insert_mem mB (head s) ptr) in *. fields.
  exists mC. split; [|split].
  - rewrite (co_prefix _ _ _ _ _ _ _ _ _ Hwf). simpl.
    rewrite bind_SIZE by valid_tac.
    replace (Z.land (mem s (HDR (ptr + sz))) (Z.lnot 7)) with nsz.
    2:{ unfold HDR, WSIZE. replace (ptr + sz - 4) with (n - 4) by lia.
        rewrite Tn1, land_lnot7. lia. }
    rewrite usize_small by lia.
    destruct (free_word (sz + nsz)) as [W1 W2]; [lia | zdiv |].
    rewrite (bind_set_tags _ _ _ _ _ _ W1 W2) by valid_tac.
    fold S. fold mA. replace (ptr + sz) with n by lia.
    rewrite HrunB. rewrite HrunC. reflexivity.
  - rewrite Erm. constructor; [exact HlayC | exact HchC |].
    split.
    + constructor; assumption.
    + intros x. simpl. rewrite Hin. rewrite (proj2 Hlist x).
      fold (sf LL x). fold (sf LL' x). rewrite Hsf, Hsf0. unfold NULL.
      pose proof (cc_sf_l1 _ _ _ _ _ _ _ _ _ Hwf x) as Hx1.
      pose proof (cc_sf_l2 _ _ _ _ _ _ _ _ _ Hwf x) as Hx2.
      assert (Hx3 : sf l2 x -> n + nsz <= x).
      { intros H. destruct (sf_range _ _ _ _ C2 H). lia. }
      intuition lia.
  - intros x Hx Hoff.
    assert (Hop := cc_off_free_ptr l1 pa psz true ptr sz _ x Hoff).
    assert (Hon : x < n - 4 \/ n + nsz - 4 <= x).
    { apply (Hoff n nsz). unfold LL. apply in_or_app. right. right. right. left. reflexivity. }
    assert (Hnodes : forall f, In f (f1 ++ f2) -> x <> f /\ x <> f + 4).
    { intros f Hf. apply Hin in Hf as [Hf _].
      apply (cc_off_free_node _ _ _ _ _ _ _ _ _ Hwf x f Hoff Hf). }
    unfold mC. rewrite HagC; try lia.
    2:{ intros f Hf. apply (Hnodes f Hf). }
    unfold mB. rewrite HagB; try assumption.
    unfold mA, S. rewrite !upd_other by lia. reflexivity.
Qed.

(** *** [coalesce]: both neighbours are free *)

Lemma coalesce_both s l1 pa psz ptr sz n nsz l2 fl :
  let LL := l1 ++ (pa, psz, false) :: (ptr, sz, false) :: (n, nsz, false) :: l2 in
  wf s LL fl ptr ->
  exists m',
    coalesce ptr s = Some (pa, set_mem s m') /\
    wf (set_mem s m') (l1 ++ (pa, psz + sz + nsz, false) :: l2)
       (remove Z.eq_dec n fl) NULL /\
    frame_free LL (head s) (mem s) m'.
Proof.
  intros LL Hwf.
  pose proof (wf_layout _ _ _ _ Hwf) as Hlay.
  pose proof (wf_listed _ _ _ _ Hwf) as Hlist.
  pose proof (wf_chain _ _ _ _ Hwf) as Hch.
  pose proof (listed_nodes_ok _ _ _ _ Hlay Hlist) as Hok.
  destruct (co_bounds _ _ _ _ _ _ _ _ _ Hwf) as (B1 & B2 & B3 & B4 & B5 & B6 & B7 & B8 & B9 & B10 & B11 & B12).
  destruct (co_contig _ _ _ _ _ _ _ _ _ Hwf) as (C1 & _ & C2).
  destruct (co_tags _ _ _ _ _ _ _ _ _ Hwf) as (_ & T1 & _ & T2).
  simpl in C2. destruct C2 as (En & N1 & N2 & C2). unfold MINSIZE in N1.
  destruct (Forall_inv T2) as [Tn1 Tn2].
  pose proof (contig_le _ _ _ C2) as N3.
  set (S := psz + sz + nsz).
  set (LL' := l1 ++ (pa, S, false) :: l2).
  assert (E1 : LL = l1 ++ [(pa, psz, false); (ptr, sz, false); (n, nsz, false)] ++ l2).
  { reflexivity. }
  assert (Hnin : In n fl).
  { apply Hlist. split; [lia|]. exists nsz. unfold LL.
    apply in_or_app. right. right. right. left. reflexivity. }
  destruct (in_split _ _ Hnin) as (f1 & f2 & Efl).
  destruct (remove_unique n fl f1 f2 (nok_nodup _ _ Hok) Efl) as (Erm & Hnd & Hin).
  assert (Hsf : forall x, sf LL' x <-> sf l1 x \/ x = pa \/ sf l2 x).
  { intros x. unfold LL'. rewrite sf_app, !sf_cons. intuition congruence. }
  assert (Hsf0 : forall x, sf LL x <-> sf l1 x \/ x = pa \/ x = ptr \/ x = n \/ sf l2 x).
  { intros x. unfold LL. rewrite sf_app, !sf_cons. intuition congruence. }
  assert (Hblk : forall f, In f (f1 ++ f2) -> is_block LL' f).
  { intros f Hf. apply Hin in Hf as [Hf Hfn]. apply Hlist in Hf as [Hfp Hf].
    fold (sf LL f) in Hf. rewrite Hsf0 in Hf.
    assert (Hs : sf LL' f) by (apply Hsf; tauto).
    destruct Hs as [szf Hs]. exists szf, false. assumption. }
  destruct (retag_ok s l1 [(pa, psz, false); (ptr, sz, false); (n, nsz, false)] l2 pa S fl)
    as (HlayA & HchA & R1 & R2 & R3 & R4); try assumption.
  { simpl. unfold MINSIZE, S. repeat split; try assumption; lia. }
  { unfold S. lia. }
  { apply (cc_l1_nonempty _ _ _ _ _ _ _ _ _ Hwf). reflexivity. }
  { intros f Hf. apply (listed_is_block _ _ _ _ Hlist Hf). }
  set (mA := upd (upd (mem s) (pa - 4) S) (pa + S - 8) S) in *.
  destruct (unlink_step (set_mem s mA) LL' fl f1 n f2 HlayA HchA (nodes_ok_mem _ _ _ Hok) Efl Hblk)
    as (HrunB & HlayB & HchB & HokB & HagB).
  set (mB := unlink_mem mA n) in *. fields.
  exists mB. split; [|split].
  - rewrite (co_prefix _ _ _ _ _ _ _ _ _ Hwf). simpl.
    rewrite bind_SIZE by valid_tac.
    replace (Z.land (mem s (HDR (ptr - psz))) (Z.lnot 7)) with psz.
    2:{ unfold HDR, WSIZE. replace (ptr - psz - 4) with (pa - 4) by lia.
        symmetry. apply (tag_free_size _ _ _ T1 B8). }
    rewrite bind_SIZE by valid_tac.
    replace (Z.land (mem s (HDR (ptr + sz))) (Z.lnot 7)) with nsz.
    2:{ unfold HDR, WSIZE. replace (ptr + sz - 4) with (n - 4) by lia.
        rewrite Tn1, land_lnot7. lia. }
    rewrite (usize_small (psz + nsz)) by lia. rewrite usize_small by lia.
    destruct (free_word (sz + (psz + nsz))) as [W1 W2]; [lia | zdiv |].
    rewrite (bind_set_tags _ _ _ _ _ _ W1 W2) by valid_tac.
    replace (sz + (psz + nsz)) with S by (unfold S; lia).
    replace (ptr - psz) with pa by lia. fold mA.
    replace (ptr + sz) with n by lia.
    rewrite HrunB. reflexivity.
  - rewrite Erm. constructor; [exact HlayB | exact HchB |].
    split; [assumption|].
    intros x. rewrite Hin. rewrite (proj2 Hlist x).
    fold (sf LL x). fold (sf LL' x). rewrite Hsf, Hsf0. unfold NULL.
    pose proof (cc_sf_l1 _ _ _ _ _ _ _ _ _ Hwf x) as Hx1.
    assert (Hx3 : sf l2 x -> n + nsz <= x).
    { intros H. destruct (sf_range _ _ _ _ C2 H). lia. }
    intuition lia.
  - intros x Hx Hoff.
    assert (Hop := cc_off_free_ptr l1 pa psz false ptr sz _ x Hoff).
    assert (Hon : x < n - 4 \/ n + nsz - 4 <= x).
    { apply (Hoff n nsz). unfold LL. apply in_or_app. right. right. right. left. reflexivity. }
    assert (Hoa : x < pa - 4 \/ pa + psz - 4 <= x).
    { apply (Hoff pa psz). unfold LL. apply in_or_app. right. left. reflexivity. }
    assert (Hnodes : forall f, In f (f1 ++ f2) -> x <> f /\ x <> f + 4).
    { intros f Hf. apply Hin in Hf as [Hf _].
      apply (cc_off_free_node _ _ _ _ _ _ _ _ _ Hwf x f Hoff Hf). }
    unfold mB. rewrite HagB; try assumption.
    unfold mA, S. rewrite !upd_other by lia. reflexivity.
Qed.

(** *** [coalesce] refines [coalesced] *)

Lemma coalesce_ok s l1 bp ptr sz l2 fl :
  let LL := l1 ++ bp :: (ptr, sz, false) :: l2 in
  wf s LL fl ptr ->
  exists m',
    coalesce ptr s = Some (fst (fst (coalesced l1 bp ptr sz l2 fl)), set_mem s m') /\
    wf (set_mem s m') (snd (fst (coalesced l1 bp ptr sz l2 fl)))
       (snd (coalesced l1 bp ptr sz l2 fl)) NULL /\
    frame_free LL (head s) (mem s) m'.
Proof.
  intros LL Hwf. subst LL. destruct bp as [[pa psz] pal].
  destruct pal.
  - destruct l2 as [|[[n nsz] [|]] l2']; simpl.
    + eexists. apply (coalesce_none _ _ _ _ _ _ _ _ Hwf). reflexivity.
    + eexists. apply (coalesce_none _ _ _ _ _ _ _ _ Hwf). reflexivity.
    + apply (coalesce_next _ _ _ _ _ _ _ _ _ _ Hwf).
  - destruct l2 as [|[[n nsz] [|]] l2']; simpl.
    + eexists. apply (coalesce_prev _ _ _ _ _ _ _ _ Hwf). reflexivity.
    + eexists. apply (coalesce_prev _ _ _ _ _ _ _ _ Hwf). reflexivity.
    + apply (coalesce_both _ _ _ _ _ _ _ _ _ _ Hwf).
Qed.

(** Coalescing neither creates nor resizes an allocated block. *)
Lemma coalesced_alloc l1 bp ptr sz l2 fl a sa :
  In (a, sa, true) (snd (fst (coalesced l1 bp ptr sz l2 fl))) <->
  In (a, sa, true) (l1 ++ bp :: (ptr, sz, false) :: l2).
Proof.
  destruct bp as [[pa psz] pal].
  destruct pal; destruct l2 as [|[[n nsz] [|]] l2']; simpl;
    rewrite !in_app_iff; simpl; intuition congruence.
Qed.

(** The sizes add up. *)
Lemma coalesced_total l1 bp ptr sz l2 fl :
  total_size (snd (fst (coalesced l1 bp ptr sz l2 fl)))
  = total_size (l1 ++ bp :: (ptr, sz, false) :: l2).
Proof.
  assert (Happ : forall a b, total_size (a ++ b) = total_size a + total_size b).
  { induction a as [|x a IH]; intros b; simpl; [reflexivity|]. rewrite IH. lia. }
  destruct bp as [[pa psz] pal].
  destruct pal; destruct l2 as [|[[n nsz] [|]] l2']; simpl;
    rewrite !Happ; simpl; lia.
Qed.

(** ** Physically adjacent free blocks *)

(** The flag of the last block of a list ([true] for the empty list). *)
Definition last_alloc (l : list block) : bool :=
  match l with
  | [] => true
  | _ => snd (last l (0, 0, true))
  end.

Lemma adj_cons (b : block) l :
  adjacent_free (b :: l) = (negb (snd b) && negb (next_alloc l)) || adjacent_free l.
Proof.
  destruct b as [[a sz] al]. destruct l as [|[[a' sz'] al'] l']; simpl.
  - rewrite andb_false_r. reflexivity.
  - destruct al'; reflexivity.
Qed.

Lemma next_alloc_cons a sz al (l : list block) : next_alloc ((a, sz, al) :: l) = al.
Proof. destruct al; reflexivity. Qed.

Lemma last_alloc_snoc (l : list block) b : last_alloc (l ++ [b]) = snd b.
Proof.
  unfold last_alloc. rewrite last_last. destruct l; reflexivity.
Qed.

Lemma adj_app (l1 l2 : list block) :
  adjacent_free (l1 ++ l2)
  = adjacent_free l1 || (negb (last_alloc l1) && negb (next_alloc l2)) || adjacent_free l2.
Proof.
  induction l1 as [|b l1 IH]; [reflexivity|].
  change ((b :: l1) ++ l2) with (b :: (l1 ++ l2)). rewrite !adj_cons, IH.
  destruct l1 as [|[[a' sz'] al'] l1'].
  - simpl. rewrite andb_false_r. simpl. reflexivity.
  - change (last_alloc (b :: (a', sz', al') :: l1')) with (last_alloc ((a', sz', al') :: l1')).
    change (((a', sz', al') :: l1') ++ l2) with ((a', sz', al') :: (l1' ++ l2)).
    rewrite !next_alloc_cons, !orb_assoc. reflexivity.
Qed.

(** Coalescing a block between a prefix and a suffix that have no adjacent
    free pair leaves none. *)
Lemma coalesced_noadj l1 bp ptr sz l2 fl :
  adjacent_free (l1 ++ [bp]) = false -> adjacent_free l2 = false ->
  adjacent_free (snd (fst (coalesced l1 bp ptr sz l2 fl))) = false.
Proof.
  destruct bp as [[pa psz] pal]. rewrite adj_app. simpl adjacent_free at 2.
  rewrite next_alloc_cons. intros H1 H2.
  destruct pal; destruct l2 as [|[[n nsz] [|]] l2']; simpl coalesced; cbn [fst snd];
    rewrite ?adj_app, ?adj_cons, ?next_alloc_cons in *; cbn [snd] in *;
    rewrite ?adj_cons, ?next_alloc_cons in *; cbn [snd negb andb orb next_alloc adjacent_free] in *;
    repeat match goal with
           | |- context [adjacent_free ?l] => destruct (adjacent_free l)
           | |- context [last_alloc ?l] => destruct (last_alloc l)
           | |- context [next_alloc ?l] => destruct (next_alloc l)
           end; simpl in *; try reflexivity; try discriminate.
Qed.

Lemma noadj_middle (l1 : list block) bp ptr sz l2 :
  adjacent_free (l1 ++ bp :: (ptr, sz, true) :: l2) = false ->
  adjacent_free (l1 ++ [bp]) = false /\ adjacent_free l2 = false.
Proof.
  destruct bp as [[pa psz] pal].
  rewrite !adj_app, !adj_cons, !next_alloc_cons. cbn [snd negb andb orb next_alloc adjacent_free].
  destruct (adjacent_free l1), (last_alloc l1), pal, (next_alloc l2), (adjacent_free l2);
    simpl; intros H; try discriminate; split; reflexivity.
Qed.

Lemma noadj_resize (l1 : list block) p sz sz' l2 :
  adjacent_free (l1 ++ (p, sz, true) :: l2) = false ->
  adjacent_free (l1 ++ [(p, sz', true)]) = false /\ adjacent_free l2 = false.
Proof.
  rewrite !adj_app, !adj_cons, !next_alloc_cons. cbn [snd negb andb orb next_alloc adjacent_free].
  destruct (adjacent_free l1), (last_alloc l1), (next_alloc l2), (adjacent_free l2);
    simpl; intros H; try discriminate; split; reflexivity.
Qed.

Lemma noadj_take (l1 : list block) p sz l2 :
  adjacent_free (l1 ++ (p, sz, false) :: l2) = false ->
  adjacent_free (l1 ++ (p, sz, true) :: l2) = false.
Proof.
  rewrite !adj_app, !adj_cons, !next_alloc_cons. cbn [snd negb andb orb next_alloc adjacent_free].
  destruct (adjacent_free l1), (last_alloc l1), (next_alloc l2), (adjacent_free l2);
    simpl; intros H; try discriminate; reflexivity.
Qed.

(** ** The observations of a well-formed heap *)

Lemma NoDup_range_length (l : list Z) lo hi :
  NoDup l -> (forall x, In x l -> lo <= x < hi) -> (length l <= Z.to_nat (hi - lo))%nat.
Proof.
  intros Hnd Hr.
  assert (Hnd' : NoDup (map (fun x => Z.to_nat (x - lo)) l)).
  { clear -Hnd Hr. induction Hnd as [|x l Hx Hnd IH]; simpl; constructor.
    - intros Hin. apply in_map_iff in Hin as (y & Ey & Hy).
      assert (lo <= x < hi) by (apply Hr; left; reflexivity).
      assert (lo <= y < hi) by (apply Hr; right; assumption).
      assert (y = x) by lia. subst. contradiction.
    - apply IH. intros y Hy. apply Hr. right. assumption. }
  assert (Hincl : incl (map (fun x => Z.to_nat (x - lo)) l) (seq 0 (Z.to_nat (hi - lo)))).
  { intros k Hk. apply in_map_iff in Hk as (y & <- & Hy). apply in_seq.
    specialize (Hr _ Hy). lia. }
  pose proof (NoDup_incl_length Hnd' Hincl) as H.
  rewrite length_map, length_seq in H. exact H.
Qed.

Lemma follow_chain s h fl fuel :
  chain (mem s) h fl ->
  (forall x, In x fl -> x <> 0 /\ valid s (x + 4) = true) ->
  (length fl < fuel)%nat ->
  follow fuel s (mem s (h + 4)) = Some fl.
Proof.
  revert h fuel. induction fl as [|x fl IH]; intros h fuel Hc Hv Hf.
  - simpl in Hc. rewrite Hc. destruct fuel; [inversion Hf|]. reflexivity.
  - simpl in Hc. destruct Hc as (H1 & H2 & H3). rewrite H1.
    destruct fuel as [|fuel]; [inversion Hf|]. simpl in Hf.
    destruct (Hv x (or_introl eq_refl)) as [Hx0 Hxv].
    simpl. unfold NULL, SUCC, WSIZE. rewrite (proj2 (Z.eqb_neq _ _) Hx0), Hxv.
    rewrite (IH x fuel H3); [reflexivity| |lia].
    intros y Hy. apply Hv. right. assumption.
Qed.

Lemma free_list_wf s LL fl ex :
  wf s LL fl ex -> free_list s = Some fl.
Proof.
  intros Hwf.
  pose proof (wf_layout _ _ _ _ Hwf) as Hlay.
  pose proof (wf_listed _ _ _ _ Hwf) as Hlist.
  pose proof (wf_chain _ _ _ _ Hwf) as Hch.
  pose proof (listed_nodes_ok _ _ _ _ Hlay Hlist) as Hok.
  destruct (lk_head _ _ Hlay) as (K1 & K2 & K3 & K4 & K5).
  unfold free_list, SUCC, WSIZE.
  destruct (lk_valid _ _ _ Hlay Hok (head s) (or_introl eq_refl)) as [_ Hv]. rewrite Hv.
  apply follow_chain; [assumption| |].
  - intros x Hx. split.
    + assert (0 < x < 2 ^ 32) by (apply (lk_pos _ _ _ Hlay Hok); right; assumption). lia.
    + apply (lk_valid _ _ _ Hlay Hok). right. assumption.
  - assert (Hlen : (length fl <= Z.to_nat (mem_brk s - head s))%nat).
    { apply NoDup_range_length; [apply Hok|].
      intros x Hx. destruct (nok_range _ _ Hok _ Hx) as (N1 & N2 & N3). lia. }
    unfold granted. lia.
Qed.

Lemma contig_length p L q : contig p L q -> 16 * Z.of_nat (length L) <= q - p.
Proof.
  revert p. induction L as [|[[a sz] al] L IH]; intros p; simpl length.
  - simpl. lia.
  - intros (_ & Hs & _ & H). apply IH in H. unfold MINSIZE in Hs. lia.
Qed.

Lemma walk_blocks s p L q fuel :
  contig p L q -> Forall (tag (mem s)) L -> Forall (exact_hdr (mem s)) L ->
  mem s (q - 4) = 1 ->
  mem_heap s + 4 <= p -> p mod 8 = 0 -> q <= mem_brk s ->
  (length L < fuel)%nat ->
  walk fuel s p = Some L.
Proof.
  revert p fuel. induction L as [|[[a sz] al] L IH]; intros p fuel Hc Ht He Hq Hlo Hal Hhi Hf.
  - simpl in Hc. subst q. destruct fuel; [inversion Hf|]. simpl.
    replace (valid s (HDR p)) with true by (symmetry; valid_tac).
    unfold block_size, HDR, WSIZE. rewrite Hq. reflexivity.
  - simpl in Hc. destruct Hc as (-> & Hs & Hm & Hc).
    destruct fuel as [|fuel]; [inversion Hf|]. simpl in Hf.
    pose proof (contig_le _ _ _ Hc). unfold MINSIZE in Hs.
    pose proof (Forall_inv Ht) as T. pose proof (Forall_inv He) as E.
    simpl. replace (valid s (HDR p)) with true by (symmetry; valid_tac).
    unfold block_size, block_alloc, HDR, WSIZE. unfold exact_hdr in E. rewrite E.
    replace (sz =? 0) with false by (symmetry; apply Z.eqb_neq; lia).
    rewrite (tag_header_alloc _ _ _ _ T Hm).
    rewrite (IH (p + sz) fuel); try assumption.
    + destruct al; reflexivity.
    + apply (Forall_inv_tail Ht).
    + apply (Forall_inv_tail He).
    + lia.
    + Z.div_mod_to_equations. lia.
    + lia.
Qed.

(** Under the invariant the two observations return the layout, prologue
    left out, and the free list. *)
Lemma observe_inv s LL fl :
  wf s LL fl NULL -> Forall (exact_hdr (mem s)) LL ->
  blocks_of s = Some (tl LL) /\ free_list s = Some fl /\
  total_size (tl LL) = granted s - 24.
Proof.
  intros Hwf Hex.
  pose proof (wf_layout _ _ _ _ Hwf) as Hlay.
  destruct (lk_head _ _ Hlay) as (K1 & K2 & K3 & K4 & K5).
  destruct (lay_prologue _ _ Hlay) as [L EL]. subst LL. simpl tl.
  pose proof (lay_contig _ _ Hlay) as Hc. simpl in Hc.
  destruct Hc as (_ & _ & _ & Hc).
  split; [|split].
  - unfold blocks_of. apply (walk_blocks _ _ _ (mem_brk s)); try assumption.
    + apply (Forall_inv_tail (lay_tags _ _ Hlay)).
    + apply (Forall_inv_tail Hex).
    + apply (lay_epilogue _ _ Hlay).
    + unfold MINSIZE. lia.
    + unfold MINSIZE. Z.div_mod_to_equations. lia.
    + lia.
    + pose proof (contig_length _ _ _ Hc). unfold granted, MINSIZE in *. lia.
  - apply (free_list_wf _ _ _ _ Hwf).
  - apply contig_total in Hc. unfold granted, MINSIZE in *. lia.
Qed.

(** ** The coalescer *)

(** C8. [coalesce] is given a block [ptr] that is marked free and not yet on
    the free list [fl].  It returns a free block of the new layout that
    covers the block given.  When the predecessor [pa] is free the block
    returned is [pa], and the list is [fl], without the successor if that was
    free too: [pa] keeps its place and is neither inserted nor removed.
    When only the successor is free, the list is [fl] without the successor
    and with [ptr] in front. *)
Theorem coalesce_result_C8 (s : heap) (l1 : list block) (pa psz : Z) (pal : bool)
    (ptr sz : Z) (l2 : list block) (fl : list Z) :
  wf s (l1 ++ (pa, psz, pal) :: (ptr, sz, false) :: l2) fl ptr ->
  exists r s' LL' fl',
    coalesce ptr s = Some (r, s') /\
    (r, LL', fl') = coalesced l1 (pa, psz, pal) ptr sz l2 fl /\
    wf s' LL' fl' NULL /\
    free_list s = Some fl /\ free_list s' = Some fl' /\
    (exists rsz, In (r, rsz, false) LL' /\ r <= ptr /\ ptr + sz <= r + rsz) /\
    (pal = false ->
       r = pa /\ In pa fl /\ In pa fl' /\
       fl' = (if next_alloc l2 then fl else remove Z.eq_dec (ptr + sz) fl)) /\
    (pal = true -> next_alloc l2 = false ->
       r = ptr /\ In (ptr + sz) fl /\ fl' = ptr :: remove Z.eq_dec (ptr + sz) fl).
Proof.
  intros Hwf.
  destruct (coalesce_ok _ _ _ _ _ _ _ Hwf) as (m' & Hrun & Hwf' & _).
  destruct (coalesced l1 (pa, psz, pal) ptr sz l2 fl) as [[r LL'] fl'] eqn:Eco.
  simpl in Hrun, Hwf'.
  exists r, (set_mem s m'), LL', fl'.
  split; [assumption|]. split; [reflexivity|]. split; [assumption|].
  split; [apply (free_list_wf _ _ _ _ Hwf)|]. split; [apply (free_list_wf _ _ _ _ Hwf')|].
  destruct (co_bounds _ _ _ _ _ _ _ _ _ Hwf) as (B1 & B2 & B3 & B4 & B5 & B6 & B7 & B8 & B9 & B10 & B11 & B12).
  destruct (co_contig _ _ _ _ _ _ _ _ _ Hwf) as (C1 & _ & C2).
  pose proof (wf_listed _ _ _ _ Hwf) as Hlist.
  pose proof (wf_listed _ _ _ _ Hwf') as Hlist'.
  assert (Hpa : pal = false -> In pa fl).
  { intros ->. apply Hlist. split; [lia|]. exists psz.
    apply in_or_app. right. left. reflexivity. }
  unfold coalesced in Eco.
  destruct pal; destruct l2 as [|[[n nsz] [|]] l2']; simpl in *;
    injection Eco as <- <- <-;
    try (destruct C2 as (-> & N1 & N2 & C2); unfold MINSIZE in N1).
  - split; [|split; [discriminate|intros _ [=]]].
    exists sz. split; [|lia]. apply in_or_app. right. right. left. reflexivity.
  - split; [|split; [discriminate|intros _ [=]]].
    exists sz. split; [|lia]. apply in_or_app. right. right. left. reflexivity.
  - split; [|split; [discriminate|intros _ _]].
    + exists (sz + nsz). split; [|lia]. apply in_or_app. right. right. left. reflexivity.
    + split; [reflexivity|]. split; [|reflexivity].
      apply Hlist. split; [lia|]. exists nsz.
      apply in_or_app. right. right. right. left. reflexivity.
  - split; [|split; [intros _|discriminate]].
    + exists (psz + sz). split; [|lia]. apply in_or_app. right. left. reflexivity.
    + repeat split; auto.
  - split; [|split; [intros _|discriminate]].
    + exists (psz + sz). split; [|lia]. apply in_or_app. right. left. reflexivity.
    + repeat split; auto.
  - split; [|split; [intros _|discriminate]].
    + exists (psz + sz + nsz). split; [|lia]. apply in_or_app. right. left. reflexivity.
    + split; [reflexivity|]. split; [auto|]. split; [|reflexivity].
      apply Hlist'. unfold NULL. split; [lia|]. exists (psz + sz + nsz).
      apply in_or_app. right. left. reflexivity.
Qed.

(** ** Deciding well-formedness of a given heap *)

Fixpoint contig_b (p : Z) (L : list block) (q : Z) : bool :=
  match L with
  | [] => p =? q
  | (a, sz, _) :: L' => (a =? p) && (MINSIZE <=? sz) && (sz mod 8 =? 0) && contig_b (p + sz) L' q
  end.

Definition tag_b (m : Z -> Z) (b : block) : bool :=
  let '(a, sz, al) := b in
  if al then (Z.land (m (a - 4)) 1 =? 1) && (Z.land (m (a + sz - 8)) (Z.lnot 7) =? sz)
  else (m (a - 4) =? sz) && (m (a + sz - 8) =? sz).

Definition exact_b (m : Z -> Z) (b : block) : bool :=
  let '(a, sz, _) := b in Z.land (m (a - 4)) (Z.lnot 7) =? sz.

Fixpoint chain_b (m : Z -> Z) (h : Z) (fl : list Z) : bool :=
  match fl with
  | [] => m (h + 4) =? 0
  | f :: fl' => (m (h + 4) =? f) && (m f =? h) && chain_b m f fl'
  end.

Fixpoint nodup_b (l : list Z) : bool :=
  match l with
  | [] => true
  | x :: l' => negb (existsb (Z.eqb x) l') && nodup_b l'
  end.

Definition mem_b (x : Z) (l : list Z) : bool := existsb (Z.eqb x) l.

Definition wf_b (s : heap) (LL : list block) (fl : list Z) (ex : Z) : bool :=
  (0 <=? mem_heap s) && (mem_heap s mod 8 =? 0) && (head s =? mem_heap s + 8)
  && (mem_brk s <=? mem_max_addr s) && (mem_max_addr s <=? 2 ^ 32)
  && match LL with
     | (a, sz, true) :: _ => (a =? head s) && (sz =? MINSIZE)
     | _ => false
     end
  && contig_b (head s) LL (mem_brk s)
  && forallb (tag_b (mem s)) LL
  && (mem s (mem_brk s - 4) =? 1)
  && chain_b (mem s) (head s) fl
  && nodup_b fl
  && forallb (fun x => negb (x =? ex) && mem_b x (free_blocks LL)) fl
  && forallb (fun x => (x =? ex) || mem_b x fl) (free_blocks LL).

Lemma contig_b_ok p L q : contig_b p L q = true -> contig p L q.
Proof.
  revert p. induction L as [|[[a sz] al] L IH]; intros p; simpl.
  - apply Z.eqb_eq.
  - rewrite !andb_true_iff, Z.eqb_eq, Z.leb_le, Z.eqb_eq.
    intros (((H1 & H2) & H3) & H4). auto.
Qed.

Lemma tag_b_ok m b : tag_b m b = true -> tag m b.
Proof.
  destruct b as [[a sz] al]. unfold tag_b, tag.
  destruct al; rewrite andb_true_iff, !Z.eqb_eq; auto.
Qed.

Lemma chain_b_ok m h fl : chain_b m h fl = true -> chain m h fl.
Proof.
  revert h. induction fl as [|f fl IH]; intros h; simpl.
  - apply Z.eqb_eq.
  - rewrite !andb_true_iff, !Z.eqb_eq. intros ((H1 & H2) & H3). auto.
Qed.

Lemma mem_b_ok x l : mem_b x l = true <-> In x l.
Proof.
  unfold mem_b. rewrite existsb_exists. split.
  - intros (y & Hy & E). apply Z.eqb_eq in E. subst. assumption.
  - intros H. exists x. split; [assumption|apply Z.eqb_refl].
Qed.

Lemma nodup_b_ok l : nodup_b l = true -> NoDup l.
Proof.
  induction l as [|x l IH]; simpl; [constructor|].
  rewrite andb_true_iff, negb_true_iff. intros [H1 H2]. constructor; [|auto].
  intros Hin. apply mem_b_ok in Hin. unfold mem_b in Hin. congruence.
Qed.

Lemma free_blocks_in L x : In x (free_blocks L) <-> exists sz, In (x, sz, false) L.
Proof.
  unfold free_blocks. rewrite in_map_iff. split.
  - intros ([[a sz] al] & E & H). apply filter_In in H as [H1 H2]. simpl in *.
    destruct al; [discriminate|]. subst. exists sz. assumption.
  - intros [sz H]. exists (x, sz, false). split; [reflexivity|].
    apply filter_In. auto.
Qed.

Lemma wf_b_ok s LL fl ex : wf_b s LL fl ex = true -> wf s LL fl ex.
Proof.
  unfold wf_b. rewrite !andb_true_iff.
  intros ((((((((((((H1 & H2) & H3) & H4) & H5) & H6) & H7) & H8) & H9) & H10) & H11) & H12) & H13).
  apply Z.leb_le in H1, H4, H5. apply Z.eqb_eq in H2, H3, H9.
  constructor.
  - constructor; try assumption.
    + destruct LL as [|[[a sz] [|]] L]; try discriminate.
      apply andb_true_iff in H6 as [E1 E2]. apply Z.eqb_eq in E1, E2. subst.
      eexists. reflexivity.
    + apply contig_b_ok. assumption.
    + rewrite forallb_forall in H8. apply Forall_forall. intros b Hb.
      apply tag_b_ok, H8, Hb.
  - apply chain_b_ok. assumption.
  - split; [apply nodup_b_ok; assumption|].
    rewrite forallb_forall in H12, H13. intros x. rewrite <- free_blocks_in. split.
    + intros Hx. specialize (H12 _ Hx). apply andb_true_iff in H12 as [E1 E2].
      apply negb_true_iff, Z.eqb_neq in E1. apply mem_b_ok in E2. auto.
    + intros [Hne Hx]. specialize (H13 _ Hx). apply orb_true_iff in H13 as [E|E].
      * apply Z.eqb_eq in E. contradiction.
      * apply mem_b_ok. assumption.
Qed.

Lemma exact_b_ok m L : forallb (exact_b m) L = true -> Forall (exact_hdr m) L.
Proof.
  rewrite forallb_forall. intros H. apply Forall_forall. intros [[a sz] al] Hb.
  specialize (H _ Hb). apply Z.eqb_eq in H. exact H.
Qed.

(** A heap in the middle of [mm_free]: of three blocks of 16 bytes the first
    has been freed, and the second, at 4136, has just been marked free;
    [coalesce] is about to run. *)
Definition freeing_heap : heap :=
  match (mm_init ;;; a <- mm_malloc 8 ;; b <- mm_malloc 8 ;; _ <- mm_malloc 8 ;;
         mm_free a ;;;
         SET (HDR b) (PACK 16 FREE) ;;; f <- FTR b ;; SET f (PACK 16 FREE)) heap0 with
  | Some (_, s) => s
  | None => heap0
  end.

Lemma coalesce_result_C8_witness :
  exists r s' LL' fl',
    coalesce 4136 freeing_heap = Some (r, s') /\
    (r, LL', fl') = coalesced [(4104, 16, true)] (4120, 16, false) 4136 16
                      [(4152, 16, true); (4168, 4048, false)] [4120; 4168] /\
    wf s' LL' fl' NULL /\
    free_list freeing_heap = Some [4120; 4168] /\ free_list s' = Some fl' /\
    (exists rsz, In (r, rsz, false) LL' /\ r <= 4136 /\ 4136 + 16 <= r + rsz) /\
    (false = false ->
       r = 4120 /\ In 4120 [4120; 4168] /\ In 4120 fl' /\
       fl' = (if next_alloc [(4152, 16, true); (4168, 4048, false)]
              then [4120; 4168] else remove Z.eq_dec (4136 + 16) [4120; 4168])) /\
    (false = true -> next_alloc [(4152, 16, true); (4168, 4048, false)] = false ->
       r = 4136 /\ In (4136 + 16) [4120; 4168] /\
       fl' = 4136 :: remove Z.eq_dec (4136 + 16) [4120; 4168]).
Proof.
  apply (coalesce_result_C8 freeing_heap [(4104, 16, true)] 4120 16 false 4136 16
           [(4152, 16, true); (4168, 4048, false)] [4120; 4168]).
  apply wf_b_ok. vm_compute. reflexivity.
Defined.


(** ** Header sizes *)

(** Every header except that of [ex] records the size of its block. *)
Definition sized (m : Z -> Z) (LL : list block) (ex : Z) : Prop :=
  forall a sz al, In (a, sz, al) LL -> a <> ex -> Z.land (m (a - 4)) (Z.lnot 7) = sz.

Lemma sized_exact s LL m :
  layout s LL -> (sized m LL NULL <-> Forall (exact_hdr m) LL).
Proof.
  intros Hlay. rewrite Forall_forall. unfold sized, exact_hdr, NULL. split.
  - intros H [[a sz] al] Hin. apply (H a sz al Hin).
    destruct (block_bounds _ _ Hlay _ _ _ Hin) as (_ & _ & _ & _ & _ & ? & _). lia.
  - intros H a sz al Hin _. apply (H _ Hin).
Qed.

(** The bytes of an allocated block lie in no free block. *)
Lemma alloc_off_free s LL a sz x :
  layout s LL -> In (a, sz, true) LL -> a - 4 <= x < a + sz - 4 -> off_free LL x.
Proof.
  intros Hlay Ha Hx f szf Hf.
  destruct (blocks_apart _ _ Hlay _ _ _ _ _ _ Ha Hf) as [(_ & _ & E)|E]; [discriminate|lia].
Qed.

(** After writes that stay inside free blocks, headers still record sizes
    in any layout whose allocated blocks are allocated blocks of the old one
    and whose free blocks carry their tags. *)
Lemma sized_frame s LL LL' m m' ex :
  layout s LL -> sized m LL ex ->
  frame_free LL (head s) m m' ->
  Forall (tag m') LL' ->
  (forall a sz al, In (a, sz, al) LL' -> sz mod 8 = 0) ->
  (forall a sz, In (a, sz, true) LL' -> In (a, sz, true) LL) ->
  sized m' LL' ex.
Proof.
  intros Hlay Hs Hfr Ht Hm Hal a sz al Hin Hne.
  destruct al.
  - pose proof (Hal _ _ Hin) as Hin0.
    destruct (block_bounds _ _ Hlay _ _ _ Hin0) as (? & ? & ? & _).
    rewrite Hfr.
    + apply (Hs _ _ _ Hin0 Hne).
    + destruct (blocks_apart _ _ Hlay _ _ _ _ _ _ (head_block _ _ Hlay) Hin0) as [(E & _)|E];
        unfold MINSIZE in *; lia.
    + apply (alloc_off_free _ _ _ _ _ Hlay Hin0). lia.
  - rewrite Forall_forall in Ht. apply (tag_free_size _ _ _ (Ht _ Hin) (Hm _ _ _ Hin)).
Qed.

Lemma layout_mod s LL a sz al : layout s LL -> In (a, sz, al) LL -> sz mod 8 = 0.
Proof. intros Hlay Hin. apply (block_bounds _ _ Hlay _ _ _ Hin). Qed.

(** ** Marking a block free and coalescing it *)

Lemma block_split (LL : list block) h b :
  (exists L, LL = (h, MINSIZE, true) :: L) -> In b LL -> fst (fst b) <> h ->
  exists l1 bp l2, LL = l1 ++ bp :: b :: l2.
Proof.
  intros [L ->] Hin Hne. apply in_split in Hin as (la & l2 & E).
  destruct la as [|x la].
  - simpl in E. injection E as <- _. simpl in Hne. contradiction.
  - assert (Hnil : x :: la <> []) by discriminate.
    destruct (exists_last Hnil) as (l1 & bp & El). rewrite El in E.
    exists l1, bp, l2. rewrite E, <- app_assoc. reflexivity.
Qed.

Lemma release_ok s l1 bp ptr sz l2 fl ex :
  wf s (l1 ++ bp :: (ptr, sz, true) :: l2) fl NULL ->
  sized (mem s) (l1 ++ bp :: (ptr, sz, true) :: l2) ex ->
  let LL1 := l1 ++ bp :: (ptr, sz, false) :: l2 in
  exists m',
    release ptr sz s = Some (tt, set_mem s m') /\
    wf (set_mem s m') (snd (fst (coalesced l1 bp ptr sz l2 fl)))
       (snd (coalesced l1 bp ptr sz l2 fl)) NULL /\
    sized m' (snd (fst (coalesced l1 bp ptr sz l2 fl))) ex /\
    (forall x, x <> head s + 4 -> off_free LL1 x -> m' x = mem s x).
Proof.
  destruct bp as [[pa psz] pal]. intros Hwf Hsz LL1.
  set (bp := (pa, psz, pal)) in *.
  set (LL := l1 ++ bp :: (ptr, sz, true) :: l2) in *.
  pose proof (wf_layout _ _ _ _ Hwf) as Hlay.
  pose proof (wf_listed _ _ _ _ Hwf) as Hlist.
  pose proof (wf_chain _ _ _ _ Hwf) as Hch.
  assert (Hptr : In (ptr, sz, true) LL).
  { apply in_or_app. right. right. left. reflexivity. }
  destruct (block_bounds _ _ Hlay _ _ _ Hptr) as (P1 & P2 & P3 & P4 & P5 & P6 & P7).
  destruct (lk_head _ _ Hlay) as (K1 & K2 & K3 & K4 & K5).
  assert (E1 : LL = (l1 ++ [bp]) ++ [(ptr, sz, true)] ++ l2).
  { unfold LL. rewrite <- app_assoc. reflexivity. }
  assert (E2 : LL1 = (l1 ++ [bp]) ++ (ptr, sz, false) :: l2).
  { unfold LL1. rewrite <- app_assoc. reflexivity. }
  pose proof (lay_contig _ _ Hlay) as Hc. rewrite E1 in Hc.
  apply contig_app in Hc as (r & Hc1 & Hc2). simpl in Hc2.
  destruct Hc2 as (<- & _ & _ & Hc2).
  pose proof Hlay as Hlay1. rewrite E1 in Hlay1.
  destruct (retag_ok s (l1 ++ [bp]) [(ptr, sz, true)] l2 ptr sz fl)
    as (HlayA0 & HchA & R1 & R2 & R3 & R4); try assumption.
  { simpl. unfold MINSIZE. repeat split; try assumption; lia. }
  { destruct l1; discriminate. }
  { intros f Hf. pose proof (listed_is_block _ _ _ _ Hlist Hf) as H.
    rewrite E1 in H. exact H. }
  set (mA := upd (upd (mem s) (ptr - 4) sz) (ptr + sz - 8) sz) in *.
  assert (HlayA : layout (set_mem s mA) LL1) by (rewrite E2; exact HlayA0).
  assert (HwfA : wf (set_mem s mA) LL1 fl ptr).
  { constructor; [exact HlayA | exact HchA |].
    destruct Hlist as [Hnd Hin]. split; [assumption|].
    intros x. rewrite Hin. fold (sf LL x). fold (sf LL1 x).
    assert (Hx : sf LL x -> x <> 0 /\ x <> ptr).
    { intros [sx Hs].
      destruct (block_bounds _ _ Hlay _ _ _ Hs) as (_ & _ & ? & _ & _ & ? & _).
      destruct (blocks_apart _ _ Hlay _ _ _ _ _ _ Hs Hptr) as [(_ & _ & E)|E];
        [discriminate|lia]. }
    revert Hx. unfold LL, LL1, bp. rewrite !sf_app, !sf_cons. unfold NULL.
    intuition congruence. }
  destruct (coalesce_ok _ _ _ _ _ _ _ HwfA) as (m' & Hrun & Hwf' & Hfr). fields.
  exists m'. split; [|split; [|split]].
  - unfold release.
    destruct (free_word sz) as [W1 W2]; [lia | assumption |].
    rewrite (bind_set_tags _ _ _ _ _ _ W1 W2) by valid_tac.
    fold mA. rewrite (bind_some _ _ _ _ _ Hrun). reflexivity.
  - exact Hwf'.
  - apply (sized_frame (set_mem s mA) LL1 _ mA m' ex HlayA); try assumption.
    + intros a sa al Hin Hne.
      assert (Hcase : (a = ptr /\ sa = sz) \/ (a <> ptr /\ In (a, sa, al) LL)).
      { unfold LL1 in Hin. unfold LL. rewrite in_app_iff in *. simpl in *.
        destruct Hin as [H|[H|[H|H]]].
        - right. split; [|tauto].
          intros ->. destruct (contig_in _ _ _ _ _ _ Hc1 (in_or_app _ _ _ (or_introl H)))
            as (_ & ? & ? & _).
          unfold MINSIZE in *. lia.
        - right. split; [|tauto].
          intros ->. unfold bp in H. injection H as -> _ _.
          assert (Hb : In (ptr, psz, pal) (l1 ++ [(ptr, psz, pal)])).
          { apply in_or_app. right. left. reflexivity. }
          destruct (contig_in _ _ _ _ _ _ Hc1 Hb) as (_ & ? & ? & _).
          unfold MINSIZE in *. lia.
        - left. injection H. auto.
        - right. split; [|tauto].
          intros ->. destruct (contig_in _ _ _ _ _ _ Hc2 H) as (? & _). lia. }
      destruct Hcase as [[-> ->]|[Hne' Hin']].
      * unfold mA. rewrite upd_other by lia. rewrite upd_same by reflexivity.
        rewrite land_lnot7. lia.
      * destruct (block_bounds _ _ Hlay _ _ _ Hin') as (_ & _ & _ & _ & Ha & _).
        unfold mA. rewrite !upd_other by (Z.div_mod_to_equations; lia).
        apply (Hsz _ _ _ Hin' Hne).
    + apply (lay_tags _ _ (wf_layout _ _ _ _ Hwf')).
    + intros a sa al Hin. apply (layout_mod _ _ _ _ _ (wf_layout _ _ _ _ Hwf') Hin).
    + intros a sa Hin. apply coalesced_alloc in Hin. exact Hin.
  - intros x Hx Hoff. rewrite (Hfr x Hx Hoff).
    assert (Hp : x < ptr - 4 \/ ptr + sz - 4 <= x).
    { apply (Hoff ptr sz). unfold LL1. apply in_or_app. right. right. left. reflexivity. }
    unfold mA. rewrite !upd_other by lia. reflexivity.
Qed.

(** ** mm_free *)

(** The invariant with its layout and list shown. *)
Definition InvL (s : heap) (LL : list block) (fl : list Z) : Prop :=
  wf s LL fl NULL /\ sized (mem s) LL NULL.

Lemma Inv_InvL s : Inv s <-> exists LL fl, InvL s LL fl.
Proof.
  unfold Inv, InvL. split; intros (LL & fl & Hwf & H); exists LL, fl; (split; [assumption|]);
    apply (sized_exact _ _ _ (wf_layout _ _ _ _ Hwf)); assumption.
Qed.

(** Flipping the flag of one block of a layout. *)
Lemma flip_in s l1 (bp : block) ptr sz l2 fg fg' a sa al :
  layout s (l1 ++ bp :: (ptr, sz, fg) :: l2) ->
  In (a, sa, al) (l1 ++ bp :: (ptr, sz, fg') :: l2) <->
  (a = ptr /\ sa = sz /\ al = fg') \/
  (a <> ptr /\ In (a, sa, al) (l1 ++ bp :: (ptr, sz, fg) :: l2)).
Proof.
  intros Hlay.
  assert (Hptr : In (ptr, sz, fg) (l1 ++ bp :: (ptr, sz, fg) :: l2)).
  { apply in_or_app. right. right. left. reflexivity. }
  assert (Hne : forall b, In b (l1 ++ bp :: (ptr, sz, fg) :: l2) ->
                          fst (fst b) = ptr -> b = (ptr, sz, fg)).
  { intros [[a' sa'] al'] Hb E. simpl in E. subst a'.
    destruct (contig_addr _ _ _ _ _ _ _ _ (lay_contig _ _ Hlay) Hb Hptr) as [-> ->].
    reflexivity. }
  pose proof (lay_contig _ _ Hlay) as Hc.
  apply contig_app in Hc as (r & Hc1 & Hc2). destruct bp as [[pa psz] pal].
  simpl in Hc2. destruct Hc2 as (-> & Hp1 & Hp2 & Eptr & Hs1 & Hs2 & Hc2).
  unfold MINSIZE in *.
  rewrite !in_app_iff. simpl. split.
  - intros [H|[H|[H|H]]].
    + right. split; [|tauto]. intros ->.
      destruct (contig_in _ _ _ _ _ _ Hc1 H) as (_ & ? & ? & _). unfold MINSIZE in *. lia.
    + right. split; [|tauto]. injection H as <- <- <-. lia.
    + left. injection H. auto.
    + right. split; [|tauto]. intros ->.
      destruct (contig_in _ _ _ _ _ _ Hc2 H) as (? & _). lia.
  - intros [(-> & -> & ->)|[Hn [H|[H|[H|H]]]]]; try tauto.
    injection H as E _ _. congruence.
Qed.

Lemma mm_free_ok s LL fl ptr sz :
  InvL s LL fl -> In (ptr, sz, true) LL -> ptr <> head s ->
  exists m' LL' fl',
    mm_free ptr s = Some (tt, set_mem s m') /\
    InvL (set_mem s m') LL' fl' /\
    total_size LL' = total_size LL /\
    (forall a sa, In (a, sa, true) LL' <-> In (a, sa, true) LL /\ a <> ptr) /\
    (forall a sa x, In (a, sa, true) LL -> a <> ptr -> a - 4 <= x < a + sa - 4 ->
                    x <> head s + 4 -> m' x = mem s x).
Proof.
  intros [Hwf Hsz] Hin Hne.
  pose proof (wf_layout _ _ _ _ Hwf) as Hlay.
  destruct (block_split LL (head s) (ptr, sz, true) (lay_prologue _ _ Hlay) Hin Hne)
    as (l1 & bp & l2 & E).
  subst LL.
  destruct (release_ok _ _ _ _ _ _ _ NULL Hwf Hsz) as (m' & Hrun & Hwf' & Hsz' & Hfr).
  destruct (block_bounds _ _ Hlay _ _ _ Hin) as (P1 & P2 & P3 & P4 & P5 & P6 & P7).
  destruct (lk_head _ _ Hlay) as (K1 & K2 & K3 & K4 & K5).
  exists m', (snd (fst (coalesced l1 bp ptr sz l2 fl))), (snd (coalesced l1 bp ptr sz l2 fl)).
  split; [|split; [|split; [|split]]].
  - unfold mm_free, when.
    replace (negb (ptr =? NULL)) with true
      by (symmetry; apply negb_true_iff, Z.eqb_neq; unfold NULL; lia).
    rewrite bind_SIZE by valid_tac.
    replace (Z.land (mem s (HDR ptr)) (Z.lnot 7)) with sz.
    + exact Hrun.
    + symmetry. apply (Hsz _ _ _ Hin). unfold NULL. lia.
  - split; assumption.
  - rewrite coalesced_total.
    assert (Happ : forall a b, total_size (a ++ b) = total_size a + total_size b).
    { induction a as [|x a IH]; intros b; simpl; [reflexivity|]. rewrite IH. lia. }
    rewrite !Happ. reflexivity.
  - intros a sa. rewrite coalesced_alloc.
    rewrite (flip_in _ _ _ _ _ _ true false _ _ _ Hlay). split.
    + intros [(_ & _ & [=])|[H1 H2]]. tauto.
    + intros [H1 H2]. right. tauto.
  - intros a sa x Ha Hap Hx Hxh. apply Hfr; [assumption|].
    intros f szf Hf.
    apply (flip_in _ _ _ _ _ _ true false _ _ _ Hlay) in Hf as [(-> & -> & _)|[Hfp Hf]].
    + destruct (blocks_apart _ _ Hlay _ _ _ _ _ _ Ha Hin) as [(E & _)|E]; [contradiction|lia].
    + destruct (blocks_apart _ _ Hlay _ _ _ _ _ _ Ha Hf) as [(_ & _ & E)|E]; [discriminate|lia].
Qed.

(** ** The first-fit scan *)

(** The first node of [fl] whose header records at least [asize] bytes, or
    [NULL]. *)
Fixpoint fit (m : Z -> Z) (asize : Z) (fl : list Z) : Z :=
  match fl with
  | [] => NULL
  | f :: fl' => if Z.land (m (f - 4)) (Z.lnot 7) >=? asize then f else fit m asize fl'
  end.

Lemma scan_ok s h fl asize fuel :
  chain (mem s) h fl ->
  (forall f, In f fl -> f <> 0 /\ valid s (f - 4) = true /\ valid s (f + 4) = true) ->
  (length fl < fuel)%nat ->
  scan fuel asize (mem s (h + 4)) s = Some (fit (mem s) asize fl, s).
Proof.
  revert h fuel. induction fl as [|f fl IH]; intros h fuel Hc Hv Hf.
  - simpl in Hc. rewrite Hc. destruct fuel; [inversion Hf|]. reflexivity.
  - simpl in Hc. destruct Hc as (H1 & H2 & H3). rewrite H1.
    destruct fuel as [|fuel]; [inversion Hf|]. simpl in Hf.
    destruct (Hv f (or_introl eq_refl)) as (F0 & F1 & F2).
    simpl. unfold NULL. rewrite (proj2 (Z.eqb_neq _ _) F0).
    unfold HDR, SUCC, WSIZE. rewrite bind_SIZE by assumption.
    destruct (Z.land (mem s (f - 4)) (Z.lnot 7) >=? asize); [reflexivity|].
    rewrite bind_GET by assumption.
    apply IH; [assumption| |lia].
    intros y Hy. apply Hv. right. assumption.
Qed.

Lemma first_fit_ok s LL fl ex asize :
  wf s LL fl ex -> first_fit asize s = Some (fit (mem s) asize fl, s).
Proof.
  intros Hwf.
  pose proof (wf_layout _ _ _ _ Hwf) as Hlay.
  pose proof (wf_listed _ _ _ _ Hwf) as Hlist.
  pose proof (wf_chain _ _ _ _ Hwf) as Hch.
  pose proof (listed_nodes_ok _ _ _ _ Hlay Hlist) as Hok.
  destruct (lk_head _ _ Hlay) as (K1 & K2 & K3 & K4 & K5).
  unfold first_fit. rewrite bind_get_head.
  unfold SUCC, WSIZE. rewrite bind_GET by valid_tac.
  apply scan_ok; [assumption| |].
  - intros f Hf. destruct (nok_range _ _ Hok _ Hf) as (N1 & N2 & N3).
    split; [lia|]. split; valid_tac.
  - assert (Hlen : (length fl <= Z.to_nat (mem_brk s - head s))%nat).
    { apply NoDup_range_length; [apply Hok|].
      intros x Hx. destruct (nok_range _ _ Hok _ Hx) as (N1 & N2 & N3). lia. }
    unfold granted. lia.
Qed.

Lemma fit_spec m asize fl :
  (fit m asize fl = NULL /\ forall f, In f fl -> Z.land (m (f - 4)) (Z.lnot 7) < asize) \/
  (exists fa fb, fl = fa ++ fit m asize fl :: fb /\
                 asize <= Z.land (m (fit m asize fl - 4)) (Z.lnot 7) /\
                 forall f, In f fa -> Z.land (m (f - 4)) (Z.lnot 7) < asize).
Proof.
  induction fl as [|f fl IH]; simpl.
  - left. split; [reflexivity|]. intros f [].
  - destruct (Z.geb_spec (Z.land (m (f - 4)) (Z.lnot 7)) asize) as [H|H].
    + right. exists [], fl. split; [reflexivity|]. split; [lia|]. intros x [].
    + destruct IH as [[E Hall]|(fa & fb & E & Hsz & Hall)].
      * left. split; [assumption|]. intros x [<-|Hx]; [lia|]. apply Hall. assumption.
      * right. exists (f :: fa), fb. split; [simpl; rewrite <- E; reflexivity|].
        split; [assumption|]. intros x [<-|Hx]; [lia|]. apply Hall. assumption.
Qed.

(** ** Taking a block off the list *)

Lemma take_ok s l1 newptr fsize l2 fl a0 :
  let LL := l1 ++ (newptr, fsize, false) :: l2 in
  let LL' := l1 ++ (newptr, fsize, true) :: l2 in
  let asize := if fsize - a0 <? MINSIZE then fsize else a0 in
  wf s LL fl NULL -> sized (mem s) LL NULL ->
  16 <= a0 <= fsize -> a0 mod 8 = 0 ->
  exists m',
    take newptr a0 s = Some ((asize, fsize), set_mem s m') /\
    wf (set_mem s m') LL' (remove Z.eq_dec newptr fl) NULL /\
    sized m' LL' newptr /\
    m' (newptr - 4) = asize + 1 /\ m' (newptr + asize - 8) = asize + 1 /\
    frame_free LL (head s) (mem s) m'.
Proof.
  intros LL LL' asize Hwf Hsz Ha0 Ha0m.
  pose proof (wf_layout _ _ _ _ Hwf) as Hlay.
  pose proof (wf_listed _ _ _ _ Hwf) as Hlist.
  pose proof (wf_chain _ _ _ _ Hwf) as Hch.
  pose proof (listed_nodes_ok _ _ _ _ Hlay Hlist) as Hok.
  destruct (lk_head _ _ Hlay) as (K1 & K2 & K3 & K4 & K5).
  assert (Hnew : In (newptr, fsize, false) LL).
  { apply in_or_app. right. left. reflexivity. }
  destruct (block_bounds _ _ Hlay _ _ _ Hnew) as (P1 & P2 & P3 & P4 & P5 & P6 & P7).
  destruct (blocks_apart _ _ Hlay _ _ _ _ _ _ (head_block _ _ Hlay) Hnew) as [(_ & _ & E)|P8];
    [discriminate|]. unfold MINSIZE in P8.
  pose proof (lay_contig _ _ Hlay) as Hc. unfold LL in Hc.
  apply contig_app in Hc as (r & Hc1 & Hc2). simpl in Hc2.
  destruct Hc2 as (<- & _ & _ & Hc2).
  pose proof (lay_tags _ _ Hlay) as Ht. unfold LL in Ht.
  apply Forall_app in Ht as [Ht1 Ht2].
  pose proof (Forall_inv Ht2) as [Tn1 Tn2]. apply Forall_inv_tail in Ht2.
  assert (Has : 16 <= asize <= fsize /\ asize mod 8 = 0 /\ (asize = fsize \/ asize + 16 <= fsize)).
  { unfold asize, MINSIZE. destruct (Z.ltb_spec (fsize - a0) 16); repeat split; try lia; auto. }
  destruct Has as (As1 & As2 & As3).
  set (mT := upd (upd (mem s) (newptr - 4) (asize + 1)) (newptr + asize - 8) (asize + 1)).
  destruct (alloc_word asize) as (W1 & W2 & W3); [lia | assumption |].
  (* the layout with the block marked allocated *)
  assert (HlayT : layout (set_mem s mT) LL').
  { destruct Hlay as [H1 H2 H3 H4 H5 H6 H7 H8 H9].
    constructor; fields; try assumption.
    - destruct H6 as [L EL]. unfold LL in EL. destruct l1 as [|b1 l1'].
      + simpl in EL. injection EL as _ _. discriminate.
      + simpl in EL. injection EL as -> _. eexists. reflexivity.
    - unfold LL'. apply contig_app. exists newptr. split; [assumption|].
      simpl. unfold MINSIZE. repeat split; try assumption; lia.
    - unfold LL'. apply Forall_app. split; [|constructor].
      + unfold mT. apply tags_upd; [|apply tags_upd; [|assumption]];
          apply (off_tags_outside _ _ _ _ Hc1); lia.
      + unfold tag, mT. split.
        * rewrite upd_other by lia. rewrite upd_same by reflexivity. assumption.
        * destruct As3 as [E|E].
          -- rewrite upd_same by lia. rewrite W2. assumption.
          -- rewrite !upd_other by lia. rewrite Tn2, land_lnot7. lia.
      + unfold mT. apply tags_upd; [|apply tags_upd; [|assumption]];
          apply (off_tags_outside _ _ _ _ Hc2); lia.
    - unfold mT. rewrite !upd_other by lia. assumption. }
  (* nodes other than the block lie outside it *)
  assert (Hout : forall f, In f fl -> f <> newptr -> f + 16 <= newptr \/ newptr + fsize <= f).
  { intros f Hf Hne. destruct (node_block _ _ _ Hlist _ Hf) as [szf Hb].
    destruct (block_bounds _ _ Hlay _ _ _ Hb) as (_ & _ & ? & _).
    destruct (blocks_apart _ _ Hlay _ _ _ _ _ _ Hb Hnew) as [(E & _)|E]; [contradiction|lia]. }
  assert (HchT : chain mT (head s) fl).
  { unfold mT. apply chain_upd; [apply chain_upd; [assumption|lia|]|lia|];
      intros f Hf; (destruct (Z.eq_dec f newptr) as [->|Hne];
                    [lia | destruct (Hout f Hf Hne); lia]). }
  assert (Hnin : In newptr fl).
  { apply Hlist. unfold NULL. split; [lia|]. exists fsize. assumption. }
  destruct (in_split _ _ Hnin) as (f1 & f2 & Efl).
  destruct (remove_unique newptr fl f1 f2 (nok_nodup _ _ Hok) Efl) as (Erm & Hnd & Hin).
  assert (Hflip : forall a sa al, In (a, sa, al) LL' <->
            (a = newptr /\ sa = fsize /\ al = true) \/ (a <> newptr /\ In (a, sa, al) LL)).
  { intros a sa al. unfold LL, LL'. rewrite !in_app_iff. simpl. split.
    - intros [H|[H|H]].
      + right. split; [|tauto]. intros ->.
        destruct (contig_in _ _ _ _ _ _ Hc1 H) as (_ & ? & ? & _). unfold MINSIZE in *. lia.
      + left. injection H. auto.
      + right. split; [|tauto]. intros ->.
        destruct (contig_in _ _ _ _ _ _ Hc2 H) as (? & _). lia.
    - intros [(-> & -> & ->)|[Hn [H|[H|H]]]]; try tauto.
      injection H as E _ _. congruence. }
  assert (Hblk : forall f, In f (f1 ++ f2) -> is_block LL' f).
  { intros f Hf. apply Hin in Hf as [Hf Hne].
    destruct (node_block _ _ _ Hlist _ Hf) as [szf Hb].
    exists szf, false. apply Hflip. right. split; assumption. }
  destruct (unlink_step (set_mem s mT) LL' fl f1 newptr f2 HlayT HchT (nodes_ok_mem _ _ _ Hok) Efl Hblk)
    as (HrunU & HlayU & HchU & HokU & HagU).
  set (mU := unlink_mem mT newptr) in *. fields.
  assert (Hnodes : forall x, (newptr - 4 <= x < newptr + fsize - 4 /\ x <> newptr /\ x <> newptr + 4)
                             \/ (forall f, In f fl -> x <> f /\ x <> f + 4) ->
                             forall f, In f (f1 ++ f2) -> x <> f /\ x <> f + 4).
  { intros x Hx f Hf. apply Hin in Hf as [Hf Hne].
    destruct Hx as [Hx|Hx]; [|apply Hx; assumption].
    destruct (Hout f Hf Hne); lia. }
  exists mU. split; [|split; [|split; [|split; [|split]]]].
  - unfold take. rewrite bind_SIZE by valid_tac.
    replace (Z.land (mem s (HDR newptr)) (Z.lnot 7)) with fsize.
    2:{ unfold HDR, WSIZE. rewrite Tn1, land_lnot7. lia. }
    rewrite usize_small by lia. fold asize.
    rewrite (bind_set_tags _ _ _ _ _ _ W1 W2) by valid_tac.
    fold mT. rewrite HrunU. reflexivity.
  - rewrite Erm. constructor; [exact HlayU | exact HchU |].
    split; [assumption|]. intros x. rewrite Hin. rewrite (proj2 Hlist x).
    split.
    + intros [[Hx0 [sx Hs]] Hne]. split; [assumption|]. exists sx.
      apply Hflip. right. split; assumption.
    + intros [Hx0 [sx Hs]]. apply Hflip in Hs as [(_ & _ & [=])|[Hne Hs]].
      split; [|assumption]. split; [assumption|]. exists sx. assumption.
  - intros a sa al Hb Hne. apply Hflip in Hb as [(E & _)|[_ Hb]]; [contradiction|].
    destruct (block_bounds _ _ Hlay _ _ _ Hb) as (_ & _ & ? & _ & Ham & _).
    destruct (blocks_apart _ _ Hlay _ _ _ _ _ _ Hb Hnew) as [(E & _)|E]; [contradiction|].
    unfold mU. rewrite HagU.
    + unfold mT. rewrite !upd_other by lia. apply (Hsz _ _ _ Hb). unfold NULL.
      destruct (block_bounds _ _ Hlay _ _ _ Hb) as (_ & _ & _ & _ & _ & ? & _). lia.
    + destruct (blocks_apart _ _ Hlay _ _ _ _ _ _ (head_block _ _ Hlay) Hb) as [(E' & _)|E'];
        unfold MINSIZE in *; lia.
    + intros f Hf. apply Hin in Hf as [Hf _].
      destruct (node_block _ _ _ Hlist _ Hf) as [szf Hfb].
      apply (tag_not_link _ _ Hlay _ _ _ _ _ _ _ Hb Hfb). left. reflexivity.
  - unfold mU. rewrite HagU; [| lia |].
    + unfold mT. rewrite upd_other by lia. apply upd_same. reflexivity.
    + apply Hnodes. left. lia.
  - unfold mU. rewrite HagU; [| lia |].
    + unfold mT. apply upd_same. reflexivity.
    + apply Hnodes. left. lia.
  - intros x Hx Hoff.
    assert (Hp : x < newptr - 4 \/ newptr + fsize - 4 <= x) by (apply (Hoff _ _ Hnew)).
    unfold mU. rewrite HagU; [| assumption |].
    + unfold mT. rewrite !upd_other by lia. reflexivity.
    + apply Hnodes. right. intros f Hf.
      destruct (node_block _ _ _ Hlist _ Hf) as [szf Hfb].
      destruct (block_bounds _ _ Hlay _ _ _ Hfb) as (_ & _ & ? & _).
      destruct (Hoff _ _ Hfb); lia.
Qed.

(** ** Splitting off the remainder *)

(** Two heaps over the same region, with the same list head. *)
Definition same_region (s s' : heap) : Prop :=
  mem_heap s' = mem_heap s /\ mem_brk s' = mem_brk s /\
  mem_max_addr s' = mem_max_addr s /\ head s' = head s.

Lemma same_region_set_mem s m : same_region s (set_mem s m).
Proof. repeat split. Qed.

Lemma same_region_refl s : same_region s s.
Proof. repeat split. Qed.

Lemma total_size_app (a b : list block) : total_size (a ++ b) = total_size a + total_size b.
Proof. induction a as [|x a IH]; simpl; [reflexivity|]. rewrite IH. lia. Qed.

Lemma split_full s l1 newptr fsize l2 fl asize :
  let LL := l1 ++ (newptr, fsize, true) :: l2 in
  wf s LL fl NULL -> sized (mem s) LL newptr -> newptr <> head s ->
  mem s (newptr - 4) = asize + 1 -> mem s (newptr + asize - 8) = asize + 1 ->
  16 <= asize -> asize mod 8 = 0 -> asize = fsize \/ asize + 16 <= fsize ->
  exists s' LL' fl',
    split newptr asize fsize s = Some (tt, s') /\ same_region s s' /\
    InvL s' LL' fl' /\
    total_size LL' = total_size LL /\
    (forall a sa, In (a, sa, true) LL' <->
                  (a = newptr /\ sa = asize) \/ (a <> newptr /\ In (a, sa, true) LL)) /\
    (forall x, x <> head s + 4 -> off_free LL x ->
               x < newptr + asize - 4 \/ newptr + fsize - 4 <= x -> mem s' x = mem s x) /\
    (adjacent_free LL = false -> adjacent_free LL' = false) /\
    (asize = fsize -> s' = s /\ LL' = LL /\ fl' = fl) /\
    (asize + 16 <= fsize ->
     LL' = snd (fst (coalesced l1 (newptr, asize, true) (newptr + asize) (fsize - asize) l2 fl)) /\
     fl' = snd (coalesced l1 (newptr, asize, true) (newptr + asize) (fsize - asize) l2 fl)).
Proof.
  intros LL Hwf Hsz Hnh Hh Hf As1 As2 As3.
  pose proof (wf_layout _ _ _ _ Hwf) as Hlay.
  pose proof (wf_listed _ _ _ _ Hwf) as Hlist.
  pose proof (wf_chain _ _ _ _ Hwf) as Hch.
  destruct (lk_head _ _ Hlay) as (K1 & K2 & K3 & K4 & K5).
  assert (Hnew : In (newptr, fsize, true) LL).
  { apply in_or_app. right. left. reflexivity. }
  destruct (block_bounds _ _ Hlay _ _ _ Hnew) as (P1 & P2 & P3 & P4 & P5 & P6 & P7).
  destruct (blocks_apart _ _ Hlay _ _ _ _ _ _ (head_block _ _ Hlay) Hnew) as [(E & _)|P8];
    [congruence|]. unfold MINSIZE in P8.
  pose proof (lay_contig _ _ Hlay) as Hc. unfold LL in Hc.
  apply contig_app in Hc as (r & Hc1 & Hc2). simpl in Hc2.
  destruct Hc2 as (<- & _ & _ & Hc2).
  pose proof (lay_tags _ _ Hlay) as Ht. unfold LL in Ht.
  apply Forall_app in Ht as [Ht1 Ht2]. apply Forall_inv_tail in Ht2.
  assert (Hl1 : l1 <> []).
  { intros ->. destruct (lay_prologue _ _ Hlay) as [L EL]. unfold LL in EL.
    simpl in EL. injection EL as -> _ _. contradiction. }
  destruct As3 as [Efs|Hrem].
  - (* nothing is left over *)
    subst fsize. exists s, LL, fl.
    split; [|split; [apply same_region_refl|split; [|split; [reflexivity|split]]]].
    + unfold split, when. rewrite Z.ltb_irrefl. reflexivity.
    + split; [assumption|]. intros a sa al Hb _.
      destruct (Z.eq_dec a newptr) as [->|Hne]; [|apply (Hsz _ _ _ Hb Hne)].
      destruct (contig_addr _ _ _ _ _ _ _ _ (lay_contig _ _ Hlay) Hb Hnew) as [-> _].
      rewrite Hh, land_lnot7. Z.div_mod_to_equations. lia.
    + intros a sa. split.
      * intros Hb. destruct (Z.eq_dec a newptr) as [->|Hne]; [left|right; tauto].
        destruct (contig_addr _ _ _ _ _ _ _ _ (lay_contig _ _ Hlay) Hb Hnew) as [-> _]. auto.
      * intros [[-> ->]|[_ Hb]]; assumption.
    + split; [reflexivity|]. split; [auto|]. split; [auto|]. intros; lia.
  - (* the remainder becomes a free block and is coalesced *)
    set (R := fsize - asize). set (newfree := newptr + asize).
    set (LLS := l1 ++ (newptr, asize, true) :: (newfree, R, false) :: l2).
    set (mS := upd (upd (mem s) (newfree - 4) R) (newfree + R - 8) R).
    assert (Hout : forall f, In f fl -> f + 16 <= newptr \/ newptr + fsize <= f).
    { intros f Hfl. destruct (node_block _ _ _ Hlist _ Hfl) as [szf Hb].
      destruct (block_bounds _ _ Hlay _ _ _ Hb) as (_ & _ & ? & _).
      destruct (blocks_apart _ _ Hlay _ _ _ _ _ _ Hb Hnew) as [(_ & _ & E)|E];
        [discriminate|lia]. }
    assert (HlayS : layout (set_mem s mS) LLS).
    { destruct Hlay as [H1 H2 H3 H4 H5 H6 H7 H8 H9].
      constructor; fields; try assumption.
      - destruct H6 as [L EL]. unfold LL in EL. destruct l1 as [|b1 l1']; [contradiction|].
        simpl in EL. injection EL as -> _. eexists. reflexivity.
      - unfold LLS. apply contig_app. exists newptr. split; [assumption|].
        simpl. unfold MINSIZE, newfree, R. repeat split; try assumption; try lia.
        + Z.div_mod_to_equations. lia.
        + replace (newptr + asize + (fsize - asize)) with (newptr + fsize) by lia. assumption.
      - unfold LLS. apply Forall_app. split; [|constructor; [|constructor]].
        + unfold mS. apply tags_upd; [|apply tags_upd; [|assumption]];
            apply (off_tags_outside _ _ _ _ Hc1); unfold newfree, R; lia.
        + unfold tag, mS, newfree, R. rewrite !upd_other by lia.
          rewrite Hh, Hf, land_1, land_lnot7. split; Z.div_mod_to_equations; lia.
        + unfold tag, mS. split.
          * rewrite upd_other by (unfold R; lia). apply upd_same. reflexivity.
          * apply upd_same. reflexivity.
        + unfold mS. apply tags_upd; [|apply tags_upd; [|assumption]];
            apply (off_tags_outside _ _ _ _ Hc2); unfold newfree, R; lia.
      - unfold mS, newfree, R. rewrite !upd_other by lia. assumption. }
    assert (HchS : chain mS (head s) fl).
    { unfold mS, newfree, R. apply chain_upd; [apply chain_upd; [assumption|lia|]|lia|];
        intros f Hfl; destruct (Hout f Hfl); lia. }
    assert (HsfS : forall x, sf LLS x <-> x = newfree \/ sf LL x).
    { intros x. unfold LLS, LL. rewrite !sf_app, !sf_cons. intuition congruence. }
    assert (HwfS : wf (set_mem s mS) LLS fl newfree).
    { constructor; [exact HlayS | exact HchS |].
      destruct Hlist as [Hnd Hin]. split; [assumption|].
      intros x. rewrite Hin. fold (sf LL x). fold (sf LLS x). rewrite HsfS. unfold NULL.
      split.
      - intros [Hx0 Hs]. split; [|tauto]. intros ->.
        assert (Hfl : In newfree fl) by (apply Hin; split; assumption).
        destruct (Hout _ Hfl); unfold newfree in *; lia.
      - intros [Hne [E|Hs]]; [contradiction|]. split; [|assumption].
        destruct Hs as [sx Hs].
        destruct (block_bounds _ _ Hlay _ _ _ Hs) as (_ & _ & _ & _ & _ & ? & _). lia. }
    destruct (coalesce_ok _ _ _ _ _ _ _ HwfS) as (m' & Hrun & Hwf' & Hfr). fields.
    set (res := coalesced l1 (newptr, asize, true) newfree R l2 fl) in *.
    assert (HszS : sized mS LLS NULL).
    { intros a sa al Hb _. unfold LLS in Hb. rewrite in_app_iff in Hb. simpl in Hb.
      destruct Hb as [Hb|[Hb|[Hb|Hb]]].
      - assert (Hb' : In (a, sa, al) LL) by (apply in_or_app; left; assumption).
        destruct (contig_in _ _ _ _ _ _ Hc1 Hb) as (_ & ? & ? & _). unfold MINSIZE in *.
        unfold mS, newfree, R. rewrite !upd_other by lia.
        apply (Hsz _ _ _ Hb'). lia.
      - injection Hb as <- <- <-. unfold mS, newfree, R. rewrite !upd_other by lia.
        rewrite Hh, land_lnot7. Z.div_mod_to_equations. lia.
      - injection Hb as <- <- <-. unfold mS. rewrite upd_other by (unfold R; lia).
        rewrite upd_same by reflexivity. rewrite land_lnot7. unfold R.
        Z.div_mod_to_equations. lia.
      - assert (Hb' : In (a, sa, al) LL) by (apply in_or_app; right; right; assumption).
        destruct (contig_in _ _ _ _ _ _ Hc2 Hb) as (? & ? & ? & _). unfold MINSIZE in *.
        unfold mS, newfree, R. rewrite !upd_other by lia.
        apply (Hsz _ _ _ Hb'). lia. }
    exists (set_mem s m'), (snd (fst res)), (snd res).
    split; [|split; [apply same_region_set_mem|split; [|split; [|split; [|split; [|split; [|split]]]]]]].
    + unfold split, when. replace (asize <? fsize) with true by (symmetry; apply Z.ltb_lt; lia).
      rewrite bind_NEXT by valid_tac. rewrite Hh, land_lnot7.
      replace (newptr + (asize + 1 - (asize + 1) mod 8)) with newfree
        by (unfold newfree; Z.div_mod_to_equations; lia).
      rewrite usize_small by lia. fold R.
      destruct (free_word R) as [W1 W2]; [unfold R; lia | unfold R; zdiv |].
      rewrite (bind_set_tags _ _ _ _ _ _ W1 W2) by (unfold newfree, R; valid_tac).
      fold mS. rewrite (bind_some _ _ _ _ _ Hrun). reflexivity.
    + split; [exact Hwf'|].
      apply (sized_frame (set_mem s mS) LLS _ mS m' NULL HlayS HszS Hfr).
      * apply (lay_tags _ _ (wf_layout _ _ _ _ Hwf')).
      * intros a sa al Hin. apply (layout_mod _ _ _ _ _ (wf_layout _ _ _ _ Hwf') Hin).
      * intros a sa Hin. apply coalesced_alloc in Hin. exact Hin.
    + unfold res. rewrite coalesced_total. unfold LL. rewrite !total_size_app.
      simpl. unfold R. lia.
    + intros a sa. unfold res. rewrite coalesced_alloc. unfold LL.
      rewrite !in_app_iff. simpl. split.
      * intros [H|[H|[H|H]]].
        -- right. split; [|tauto]. intros ->.
           destruct (contig_in _ _ _ _ _ _ Hc1 H) as (_ & ? & ? & _). unfold MINSIZE in *. lia.
        -- left. injection H. auto.
        -- discriminate H.
        -- right. split; [|tauto]. intros ->.
           destruct (contig_in _ _ _ _ _ _ Hc2 H) as (? & _). lia.
      * intros [[-> ->]|[Hne [H|[H|H]]]]; try tauto.
        injection H as E _. congruence.
    + intros x Hx Hoff Hxr. fields. rewrite Hfr; [| assumption |].
      * unfold mS, newfree, R. rewrite !upd_other by lia. reflexivity.
      * intros f szf Hb. fold (sf LLS f) in HsfS.
        assert (Hs : sf LLS f) by (exists szf; assumption).
        apply HsfS in Hs as [->|[sf' Hs]].
        -- assert (Enf : In (newfree, R, false) LLS).
           { unfold LLS. apply in_or_app. right. right. left. reflexivity. }
           destruct (contig_addr _ _ _ _ _ _ _ _ (lay_contig _ _ HlayS) Hb Enf) as [-> _].
           unfold newfree, R. lia.
        -- assert (In (f, szf, false) LL).
           { unfold LLS in Hb. unfold LL. rewrite in_app_iff in *. simpl in Hb. simpl.
             destruct Hb as [Hb|[Hb|[Hb|Hb]]].
             - left. assumption.
             - discriminate Hb.
             - exfalso. injection Hb as Ef Es.
               destruct (block_bounds _ _ Hlay _ _ _ Hs) as (_ & _ & ? & _).
               destruct (blocks_apart _ _ Hlay _ _ _ _ _ _ Hs Hnew) as [(_ & _ & E)|E];
                 [discriminate|unfold newfree in *; lia].
             - right. right. assumption. }
           apply (Hoff f szf). assumption.
    + intros Hna. unfold res. unfold LL in Hna.
      destruct (noadj_resize _ _ _ asize _ Hna) as [Hn1 Hn2].
      apply coalesced_noadj; assumption.
    + intros; lia.
    + intros _. split; reflexivity.
Qed.

Lemma split_ok s l1 newptr fsize l2 fl asize :
  let LL := l1 ++ (newptr, fsize, true) :: l2 in
  wf s LL fl NULL -> sized (mem s) LL newptr -> newptr <> head s ->
  mem s (newptr - 4) = asize + 1 -> mem s (newptr + asize - 8) = asize + 1 ->
  16 <= asize -> asize mod 8 = 0 -> asize = fsize \/ asize + 16 <= fsize ->
  exists s' LL' fl',
    split newptr asize fsize s = Some (tt, s') /\ same_region s s' /\
    InvL s' LL' fl' /\
    total_size LL' = total_size LL /\
    (forall a sa, In (a, sa, true) LL' <->
                  (a = newptr /\ sa = asize) \/ (a <> newptr /\ In (a, sa, true) LL)) /\
    (forall x, x <> head s + 4 -> off_free LL x ->
               x < newptr + asize - 4 \/ newptr + fsize - 4 <= x -> mem s' x = mem s x).
Proof.
  intros LL Hwf Hsz Hnh Hh Hf As1 As2 As3.
  destruct (split_full s l1 newptr fsize l2 fl asize Hwf Hsz Hnh Hh Hf As1 As2 As3)
    as (s' & LL' & fl' & H1 & H2 & H3 & H4 & H5 & H6 & _).
  exists s', LL', fl'. auto 10.
Qed.

(** ** Growing the heap *)

Lemma nodes_ok_brk s s' fl :
  head s' = head s -> mem_brk s <= mem_brk s' -> nodes_ok s fl -> nodes_ok s' fl.
Proof.
  intros Eh Hb [H1 H2 H3]. constructor; try assumption.
  intros x Hx. destruct (H2 x Hx) as (N1 & N2 & N3). unfold node_ok. rewrite Eh.
  repeat split; lia.
Qed.

Lemma last_block (LL : list block) h :
  (exists L, LL = (h, MINSIZE, true) :: L) -> exists l0 b, LL = l0 ++ [b].
Proof.
  intros [L ->].
  assert (Hnil : (h, MINSIZE, true) :: L <> []) by discriminate.
  destruct (exists_last Hnil) as (l0 & b & E). exists l0, b. assumption.
Qed.

(** The heap after a granted [mem_sbrk] and the three stores that shape the
    new block: the new block is marked free and not yet listed. *)
Lemma grow_ok s LL fl ex :
  InvL s LL fl -> 16 <= ex -> ex mod 8 = 0 -> mem_brk s + ex <= mem_max_addr s ->
  let B := mem_brk s in
  let m1 := upd (upd (upd (mem s) (B - 4) ex) (B + ex - 8) ex) (B + ex - 4) 1 in
  let s1 := set_mem (set_brk s (B + ex)) m1 in
  wf s1 (LL ++ [(B, ex, false)]) fl B /\
  sized m1 (LL ++ [(B, ex, false)]) NULL /\
  (forall x, x < B - 4 -> m1 x = mem s x).
Proof.
  intros [Hwf Hsz] He1 He2 Hcap B m1 s1. subst B.
  pose proof (wf_layout _ _ _ _ Hwf) as Hlay.
  pose proof (wf_listed _ _ _ _ Hwf) as Hlist.
  pose proof (wf_chain _ _ _ _ Hwf) as Hch.
  pose proof (listed_nodes_ok _ _ _ _ Hlay Hlist) as Hok.
  destruct (lk_head _ _ Hlay) as (K1 & K2 & K3 & K4 & K5).
  pose proof (lay_max _ _ Hlay) as Hmax.
  pose proof (lay_contig _ _ Hlay) as Hc.
  assert (Hag : forall x, x < mem_brk s - 4 -> m1 x = mem s x).
  { intros x Hx. unfold m1. rewrite !upd_other by lia. reflexivity. }
  assert (HBm : mem_brk s mod 8 = 0).
  { apply contig_mod in Hc. Z.div_mod_to_equations. lia. }
  split; [|split; [|assumption]].
  - constructor.
    + destruct Hlay as [H1 H2 H3 H4 H5 H6 H7 H8 H9].
      constructor; unfold s1; fields; try assumption; try lia.
      * destruct H6 as [L EL]. rewrite EL. eexists. reflexivity.
      * apply contig_app. exists (mem_brk s). split; [assumption|]. simpl. unfold MINSIZE.
        repeat split; try assumption; lia.
      * apply Forall_app. split; [|constructor; [|constructor]].
        -- unfold m1. apply tags_upd; [|apply tags_upd; [|apply tags_upd; [|assumption]]];
             apply (off_tags_outside _ _ _ _ H7); lia.
        -- unfold tag, m1. split.
           ++ rewrite !upd_other by lia. apply upd_same. reflexivity.
           ++ rewrite upd_other by lia. apply upd_same. reflexivity.
      * unfold m1. apply upd_same. reflexivity.
    + unfold s1. fields. apply (chain_frame (mem s)); [assumption|apply Hag; lia|].
      intros x Hx. destruct (nok_range _ _ Hok _ Hx) as (N1 & N2 & N3).
      split; apply Hag; lia.
    + destruct Hlist as [Hnd Hin]. split; [assumption|].
      intros x. rewrite Hin. fold (sf LL x). fold (sf (LL ++ [(mem_brk s, ex, false)]) x).
      rewrite sf_app, sf_cons, sf_nil. unfold NULL. split.
      * intros [Hx0 Hs]. split; [|tauto]. intros ->.
        destruct (sf_range _ _ _ _ Hc Hs). lia.
      * intros [Hne [Hs|[[E _]|[]]]]; [|contradiction]. split; [|assumption].
        destruct Hs as [sx Hs].
        destruct (block_bounds _ _ Hlay _ _ _ Hs) as (_ & _ & _ & _ & _ & ? & _). lia.
  - intros a sa al Hb _. apply in_app_or in Hb as [Hb|[Hb|[]]].
    + destruct (block_bounds _ _ Hlay _ _ _ Hb) as (_ & ? & ? & _ & _ & ? & _).
      rewrite Hag by lia. apply (Hsz _ _ _ Hb). unfold NULL. lia.
    + injection Hb as <- <- <-. unfold m1. rewrite !upd_other by lia.
      rewrite upd_same by reflexivity. rewrite land_lnot7. lia.
Qed.

Lemma exsize_bounds asize :
  16 <= asize -> asize mod 8 = 0 ->
  16 <= exsize_of asize /\ exsize_of asize mod 8 = 0 /\ asize <= exsize_of asize.
Proof.
  intros H1 H2. unfold exsize_of. change CHUNKSIZE with 4096.
  destruct (Z.gtb_spec asize 4096); repeat split; try lia; try assumption.
Qed.

Lemma extend_full s LL fl asize :
  InvL s LL fl -> 16 <= asize -> asize mod 8 = 0 ->
  mem_brk s + exsize_of asize <= mem_max_addr s ->
  exists s' l1 p fsz fl',
    extend_heap asize s = Some (Some p, s') /\
    InvL s' (l1 ++ [(p, fsz, false)]) fl' /\
    mem_heap s' = mem_heap s /\ head s' = head s /\
    mem_max_addr s' = mem_max_addr s /\ mem_brk s' = mem_brk s + exsize_of asize /\
    asize <= fsz /\
    total_size (l1 ++ [(p, fsz, false)]) = total_size LL + exsize_of asize /\
    (forall a sa, In (a, sa, true) (l1 ++ [(p, fsz, false)]) <-> In (a, sa, true) LL) /\
    (forall x, x <> head s + 4 -> x < mem_brk s - 4 -> off_free LL x -> mem s' x = mem s x) /\
    (adjacent_free LL = false -> adjacent_free (l1 ++ [(p, fsz, false)]) = false) /\
    (last_alloc LL = true ->
     p = mem_brk s /\ fsz = exsize_of asize /\ l1 = LL /\ fl' = mem_brk s :: fl) /\
    (last_alloc LL = false ->
     fl' = fl /\ exists psz, LL = l1 ++ [(p, psz, false)] /\ fsz = psz + exsize_of asize).
Proof.
  intros HI As1 As2 Hcap.
  destruct (exsize_bounds asize As1 As2) as (E1 & E2 & E3).
  set (ex := exsize_of asize) in *.
  destruct (grow_ok s LL fl ex HI E1 E2 Hcap) as (Hwf1 & Hsz1 & Hag1).
  destruct HI as [Hwf Hsz].
  pose proof (wf_layout _ _ _ _ Hwf) as Hlay.
  destruct (lk_head _ _ Hlay) as (K1 & K2 & K3 & K4 & K5).
  pose proof (lay_max _ _ Hlay) as Hmax.
  set (B := mem_brk s) in *.
  set (m1 := upd (upd (upd (mem s) (B - 4) ex) (B + ex - 8) ex) (B + ex - 4) 1) in *.
  set (s1 := set_mem (set_brk s (B + ex)) m1) in *.
  destruct (last_block LL (head s) (lay_prologue _ _ Hlay)) as (l0 & [[pa psz] pal] & ELL).
  assert (ELx : LL ++ [(B, ex, false)] = l0 ++ (pa, psz, pal) :: (B, ex, false) :: []).
  { rewrite ELL, <- app_assoc. reflexivity. }
  rewrite ELx in Hwf1, Hsz1.
  destruct (co_bounds _ _ _ _ _ _ _ _ _ Hwf1) as (B1 & B2 & B3 & B4 & B5 & B6 & B7 & B8 & B9 & B10 & B11 & B12).
  destruct (co_reads _ _ _ _ _ _ _ _ _ Hwf1) as (R1 & R2 & R3 & _).
  destruct (co_tags _ _ _ _ _ _ _ _ _ Hwf1) as (_ & T1 & _ & _).
  unfold s1 in B1, B2, B3, B4, B5, B12. fields.
  pose proof (wf_layout _ _ _ _ Hwf1) as Hlay1.
  assert (Hrun0 : extend_heap asize s =
    (prev <- PREV B ;;
     pa' <- ALLOC (HDR prev) ;;
     if negb (pa' =? 0) then insert_front B ;;; ret (Some B)
     else
       psz' <- SIZE (HDR prev) ;;
       let exsize := usize (ex + psz') in
       SET (HDR prev) (PACK exsize FREE) ;;;
       f <- FTR prev ;;
       SET f (PACK exsize FREE) ;;;
       ret (Some prev)) s1).
  { unfold extend_heap. fold (exsize_of asize). fold ex.
    rewrite bind_sbrk_granted by (fold B; lia). fold B.
    rewrite ptr_lt_null_false.
    destruct (free_word ex) as [W1 W2]; [lia | assumption |].
    rewrite (bind_set_tags _ _ _ _ _ _ W1 W2) by valid_tac.
    rewrite bind_NEXT by valid_tac. fields.
    rewrite upd_other by lia. rewrite upd_same by reflexivity. rewrite W2.
    rewrite bind_SET by valid_tac. reflexivity. }
  rewrite Hrun0. clear Hrun0.
  rewrite bind_PREV by (unfold s1; valid_tac). rewrite R1.
  rewrite bind_ALLOC by (unfold s1; valid_tac).
  unfold HDR at 1. unfold WSIZE. rewrite R3.
  assert (Hoff : forall x, x < B - 4 -> off_free LL x ->
                           off_free (l0 ++ [(pa, psz, pal); (B, ex, false)]) x).
  { intros x Hx Ho f szf Hf. rewrite <- ELx in Hf. apply in_app_or in Hf as [Hf|[Hf|[]]].
    - apply (Ho _ _ Hf).
    - injection Hf as <- <-. lia. }
  assert (Hfin : forall m' LL',
            frame_free (l0 ++ [(pa, psz, pal); (B, ex, false)]) (head s) m1 m' ->
            wf (set_mem s1 m') LL' fl NULL \/ wf (set_mem s1 m') LL' (B :: fl) NULL ->
            (forall a sa, In (a, sa, true) LL' <-> In (a, sa, true) LL) ->
            sized m' LL' NULL /\
            (forall x, x <> head s + 4 -> x < B - 4 -> off_free LL x -> m' x = mem s x)).
  { intros m' LL' Hfr Hwf' Hal. split.
    - apply (sized_frame s1 _ LL' m1 m' NULL Hlay1 Hsz1 Hfr).
      + destruct Hwf' as [H|H]; apply (lay_tags _ _ (wf_layout _ _ _ _ H)).
      + intros a sa al Hin.
        destruct Hwf' as [H|H]; apply (layout_mod _ _ _ _ _ (wf_layout _ _ _ _ H) Hin).
      + intros a sa Hin. apply Hal in Hin. rewrite <- ELx. apply in_or_app. left. assumption.
    - intros x Hx HxB Ho. rewrite (Hfr x Hx (Hoff x HxB Ho)). apply Hag1. assumption. }
  destruct pal; [change (negb (1 =? 0)) with true | change (negb (0 =? 0)) with false];
    cbv iota.
  - (* the last block is allocated: the new block is listed *)
    destruct (coalesce_none s1 l0 pa psz B ex [] fl Hwf1 eq_refl) as (_ & Hwf' & Hfr).
    pose proof (listed_nodes_ok _ _ _ _ Hlay (wf_listed _ _ _ _ Hwf)) as Hok.
    assert (Hnode : node_ok s1 B) by (unfold node_ok, s1; fields; repeat split; zdiv).
    assert (Hfar : forall x, In x fl -> far x B).
    { intros x Hx. destruct (nok_range _ _ Hok _ Hx) as (N1 & N2 & N3).
      unfold far. fold B in N2. lia. }
    destruct (insert_front_ok s1 _ fl Hlay1 (wf_chain _ _ _ _ Hwf1)
                (listed_nodes_ok _ _ _ _ Hlay1 (wf_listed _ _ _ _ Hwf1)) B Hnode Hfar)
      as (Hrun & _ & _).
    set (m' := insert_mem (mem s1) (head s1) B) in *.
    assert (Hal : forall a sa, In (a, sa, true) (l0 ++ [(pa, psz, true); (B, ex, false)])
                               <-> In (a, sa, true) LL).
    { intros a sa. rewrite <- ELx, in_app_iff. simpl. intuition congruence. }
    destruct (Hfin m' _ Hfr (or_intror Hwf') Hal) as [Hsz' Hag'].
    exists (set_mem s1 m'), (l0 ++ [(pa, psz, true)]), B, ex, (B :: fl).
    rewrite <- app_assoc. simpl app.
    split; [rewrite Hrun; reflexivity|].
    split; [split; assumption|].
    do 4 (split; [reflexivity|]). split; [lia|].
    split; [rewrite ELL, !total_size_app; simpl; lia|].
    split; [exact Hal|]. split; [exact Hag'|].
    split; [|split].
    + rewrite ELL, !adj_app, !adj_cons, !next_alloc_cons.
      cbn [snd negb andb orb next_alloc adjacent_free].
      rewrite !orb_false_r, !andb_false_r, !orb_false_r. auto.
    + intros _. repeat split; try reflexivity. symmetry. exact ELL.
    + rewrite ELL, last_alloc_snoc. discriminate.
  - (* the last block is free: it absorbs the new block *)
    destruct (coalesce_prev s1 l0 pa psz B ex [] fl Hwf1 eq_refl) as (_ & Hwf' & Hfr).
    set (m' := upd (upd (mem s1) (pa - 4) (psz + ex)) (pa + (psz + ex) - 8) (psz + ex)) in *.
    assert (Hal : forall a sa, In (a, sa, true) (l0 ++ [(pa, psz + ex, false)])
                               <-> In (a, sa, true) LL).
    { intros a sa. rewrite ELL, !in_app_iff. simpl. intuition congruence. }
    destruct (Hfin m' _ Hfr (or_introl Hwf') Hal) as [Hsz' Hag'].
    exists (set_mem s1 m'), l0, pa, (psz + ex), fl.
    split; [|split; [split; assumption|]].
    2:{ do 4 (split; [reflexivity|]). split; [lia|].
        split; [rewrite ELL, !total_size_app; simpl; lia|].
        split; [exact Hal|]. split; [exact Hag'|].
        split; [|split].
        - rewrite ELL, !adj_app, !adj_cons, !next_alloc_cons.
          cbn [snd negb andb orb next_alloc adjacent_free]. auto.
        - rewrite ELL, last_alloc_snoc. discriminate.
        - intros _. split; [reflexivity|]. exists psz. split; [exact ELL|reflexivity]. }
    rewrite bind_SIZE by (unfold s1; valid_tac).
    replace (Z.land (mem s1 (HDR (B - psz))) (Z.lnot 7)) with psz.
    2:{ unfold HDR, WSIZE. replace (B - psz - 4) with (pa - 4) by lia.
        symmetry. apply (tag_free_size _ _ _ T1 B8). }
    rewrite usize_small by lia.
    destruct (free_word (ex + psz)) as [W1 W2]; [lia | zdiv |].
    rewrite (bind_set_tags _ _ _ _ _ _ W1 W2) by (unfold s1; valid_tac).
    unfold ret, m'. replace (B - psz) with pa by lia.
    replace (ex + psz) with (psz + ex) by lia. reflexivity.
Qed.

Lemma extend_ok s LL fl asize :
  InvL s LL fl -> 16 <= asize -> asize mod 8 = 0 ->
  mem_brk s + exsize_of asize <= mem_max_addr s ->
  exists s' l1 p fsz fl',
    extend_heap asize s = Some (Some p, s') /\
    InvL s' (l1 ++ [(p, fsz, false)]) fl' /\
    mem_heap s' = mem_heap s /\ head s' = head s /\
    mem_max_addr s' = mem_max_addr s /\ mem_brk s' = mem_brk s + exsize_of asize /\
    asize <= fsz /\
    total_size (l1 ++ [(p, fsz, false)]) = total_size LL + exsize_of asize /\
    (forall a sa, In (a, sa, true) (l1 ++ [(p, fsz, false)]) <-> In (a, sa, true) LL) /\
    (forall x, x <> head s + 4 -> x < mem_brk s - 4 -> off_free LL x -> mem s' x = mem s x).
Proof.
  intros HI As1 As2 Hcap.
  destruct (extend_full s LL fl asize HI As1 As2 Hcap)
    as (s' & l1 & p & fsz & fl' & H1 & H2 & H3 & H4 & H5 & H6 & H7 & H8 & H9 & H10 & _).
  exists s', l1, p, fsz, fl'. auto 12.
Qed.

(** ** Finding or growing a block *)

Lemma obtain_full s LL fl asize :
  InvL s LL fl -> 16 <= asize -> asize mod 8 = 0 ->
  (obtain asize s = None /\ mem_max_addr s < mem_brk s + exsize_of asize /\
   fit (mem s) asize fl = NULL) \/
  (exists s1 l1 p fsz l2 fl1,
     obtain asize s = Some (Some p, s1) /\
     InvL s1 (l1 ++ (p, fsz, false) :: l2) fl1 /\
     asize <= fsz /\
     mem_heap s1 = mem_heap s /\ head s1 = head s /\
     mem_max_addr s1 = mem_max_addr s /\ mem_brk s <= mem_brk s1 /\
     (forall a sa, In (a, sa, true) (l1 ++ (p, fsz, false) :: l2) <-> In (a, sa, true) LL) /\
     (forall x, x <> head s + 4 -> x < mem_brk s - 4 -> off_free LL x ->
                mem s1 x = mem s x) /\
     (adjacent_free LL = false -> adjacent_free (l1 ++ (p, fsz, false) :: l2) = false) /\
     total_size (l1 ++ (p, fsz, false) :: l2) = total_size LL + (mem_brk s1 - mem_brk s) /\
     (fit (mem s) asize fl <> NULL ->
      p = fit (mem s) asize fl /\ s1 = s /\ fl1 = fl /\ l1 ++ (p, fsz, false) :: l2 = LL) /\
     (fit (mem s) asize fl = NULL ->
      mem_brk s1 = mem_brk s + exsize_of asize /\ l2 = [] /\
      (last_alloc LL = true ->
       p = mem_brk s /\ fsz = exsize_of asize /\ l1 = LL /\ fl1 = mem_brk s :: fl) /\
      (last_alloc LL = false ->
       fl1 = fl /\ exists psz, LL = l1 ++ [(p, psz, false)] /\ fsz = psz + exsize_of asize))).
Proof.
  intros HI As1 As2. pose proof HI as [Hwf Hsz].
  pose proof (wf_layout _ _ _ _ Hwf) as Hlay.
  pose proof (wf_listed _ _ _ _ Hwf) as Hlist.
  unfold obtain. rewrite (bind_some _ _ _ _ _ (first_fit_ok _ _ _ _ asize Hwf)).
  destruct (fit_spec (mem s) asize fl) as [[E Hall]|(fa & fb & E & Hfit & Hall)].
  - (* no block fits *)
    rewrite E. simpl (NULL =? NULL). cbv iota.
    destruct (Z.le_gt_cases (mem_brk s + exsize_of asize) (mem_max_addr s)) as [Hcap|Hcap].
    + right. destruct (extend_full s LL fl asize HI As1 As2 Hcap)
        as (s' & l1 & p & fsz & fl' & Hrun & HI' & F1 & F2 & F3 & F4 & F5 & F6 & F7 & F8
            & F9 & F10 & F11).
      destruct (exsize_bounds asize As1 As2) as (X1 & _ & _).
      exists s', l1, p, fsz, [], fl'.
      split; [assumption|]. split; [assumption|]. split; [assumption|].
      do 3 (split; [assumption|]). split; [lia|]. split; [assumption|].
      split; [assumption|]. split; [assumption|]. split; [lia|].
      split; [intros Hne; contradiction|].
      intros _. split; [assumption|]. split; [reflexivity|]. split; assumption.
    + left. split; [|split; [lia|reflexivity]]. apply extend_refused. lia.
  - (* the first fit *)
    set (p := fit (mem s) asize fl) in *.
    assert (Hp : In p fl) by (rewrite E; apply in_or_app; right; left; reflexivity).
    destruct (node_block _ _ _ Hlist _ Hp) as [fsz Hb].
    destruct (block_bounds _ _ Hlay _ _ _ Hb) as (_ & _ & _ & _ & _ & Hp0 & _).
    replace (p =? NULL) with false by (symmetry; apply Z.eqb_neq; unfold NULL; lia).
    right. destruct (in_split _ _ Hb) as (l1 & l2 & ELL).
    exists s, l1, p, fsz, l2, fl. rewrite <- ELL.
    split; [reflexivity|]. split; [assumption|].
    split; [rewrite (Hsz _ _ _ Hb) in Hfit; [assumption|unfold NULL; lia]|].
    do 3 (split; [reflexivity|]). split; [lia|]. split; [tauto|].
    split; [reflexivity|]. split; [auto|]. split; [lia|].
    split; [auto|]. intros Hn. unfold NULL in Hn. lia.
Qed.

Lemma obtain_ok s LL fl asize :
  InvL s LL fl -> 16 <= asize -> asize mod 8 = 0 ->
  (obtain asize s = None /\ mem_max_addr s < mem_brk s + exsize_of asize) \/
  (exists s1 l1 p fsz l2 fl1,
     obtain asize s = Some (Some p, s1) /\
     InvL s1 (l1 ++ (p, fsz, false) :: l2) fl1 /\
     asize <= fsz /\
     mem_heap s1 = mem_heap s /\ head s1 = head s /\
     mem_max_addr s1 = mem_max_addr s /\ mem_brk s <= mem_brk s1 /\
     (forall a sa, In (a, sa, true) (l1 ++ (p, fsz, false) :: l2) <-> In (a, sa, true) LL) /\
     (forall x, x <> head s + 4 -> x < mem_brk s - 4 -> off_free LL x ->
                mem s1 x = mem s x)).
Proof.
  intros HI As1 As2.
  destruct (obtain_full s LL fl asize HI As1 As2)
    as [(H1 & H2 & _)|(s1 & l1 & p & fsz & l2 & fl1 & H1 & H2 & H3 & H4 & H5 & H6 & H7 & H8
                       & H9 & _)].
  - left. auto.
  - right. exists s1, l1, p, fsz, l2, fl1. auto 12.
Qed.

(** ** mm_malloc *)

(** Requests whose block size is computed without wrap-around. *)
Definition size_ok (size : Z) : Prop := 0 < size <= 2 ^ 64 - 16.

Lemma adjust_ok size :
  size_ok size ->
  16 <= adjust size /\ adjust size mod 8 = 0 /\ size + 8 <= adjust size.
Proof.
  unfold size_ok, adjust, ALIGN. consts. intros H.
  destruct (Z.leb_spec size (16 - 8)).
  - repeat split; try lia.
  - rewrite (usize_small (size + (8 - 1))) by lia. rewrite land_lnot7.
    rewrite usize_small by (Z.div_mod_to_equations; lia).
    repeat split; Z.div_mod_to_equations; lia.
Qed.

Lemma free_not_head s LL p fsz : layout s LL -> In (p, fsz, false) LL -> p <> head s.
Proof.
  intros Hlay Hb E. subst p.
  destruct (contig_addr _ _ _ _ _ _ _ _ (lay_contig _ _ Hlay) Hb (head_block _ _ Hlay)) as [_ E].
  discriminate E.
Qed.

Lemma mm_malloc_ok s LL fl size :
  InvL s LL fl -> size_ok size ->
  (mm_malloc size s = None /\
   mem_max_addr s < mem_brk s + exsize_of (adjust size)) \/
  (exists p s' LL' fl' asz,
     mm_malloc size s = Some (p, s') /\
     InvL s' LL' fl' /\
     In (p, asz, true) LL' /\ p <> head s' /\ size + 8 <= asz /\
     mem_heap s' = mem_heap s /\ head s' = head s /\
     mem_max_addr s' = mem_max_addr s /\ mem_brk s <= mem_brk s').
Proof.
  intros HI Hsize. destruct (adjust_ok size Hsize) as (A1 & A2 & A3).
  assert (Hnz : (size =? 0) = false) by (apply Z.eqb_neq; unfold size_ok in Hsize; lia).
  unfold mm_malloc. rewrite Hnz.
  destruct (obtain_ok s LL fl (adjust size) HI A1 A2)
    as [[Hrun Hcap]|(s1 & l1 & p & fsz & l2 & fl1 & Hrun & [Hwf1 Hsz1] & Hfit & F1 & F2 & F3 & F4 & _)].
  - left. unfold bind at 1. rewrite Hrun. split; [reflexivity|assumption].
  - right. rewrite (bind_some _ _ _ _ _ Hrun).
    destruct (take_ok s1 l1 p fsz l2 fl1 (adjust size) Hwf1 Hsz1 (conj A1 Hfit) A2)
      as (mT & HrunT & HwfT & HszT & Hh & Hf & _).
    set (asize := if fsz - adjust size <? MINSIZE then fsz else adjust size) in *.
    assert (Has : 16 <= asize /\ asize mod 8 = 0 /\ (asize = fsz \/ asize + 16 <= fsz)
                  /\ size + 8 <= asize).
    { pose proof (wf_layout _ _ _ _ Hwf1) as Hlay1.
      assert (Hb : In (p, fsz, false) (l1 ++ (p, fsz, false) :: l2))
        by (apply in_or_app; right; left; reflexivity).
      pose proof (layout_mod _ _ _ _ _ Hlay1 Hb).
      unfold asize, MINSIZE. destruct (Z.ltb_spec (fsz - adjust size) 16);
        repeat split; try lia; auto. }
    destruct Has as (As1 & As2 & As3 & As4).
    assert (Hph : p <> head (set_mem s1 mT)).
    { apply (free_not_head s1 _ p fsz (wf_layout _ _ _ _ Hwf1)).
      apply in_or_app. right. left. reflexivity. }
    destruct (split_ok (set_mem s1 mT) l1 p fsz l2 _ asize HwfT HszT Hph Hh Hf As1 As2 As3)
      as (s' & LL' & fl' & HrunS & (G1 & G2 & G3 & G4) & HI' & _ & Hal & _).
    exists p, s', LL', fl', asize.
    split; [|split; [assumption|split; [|split; [|split; [assumption|]]]]].
    + rewrite (bind_some _ _ _ _ _ HrunT). rewrite (bind_some _ _ _ _ _ HrunS). reflexivity.
    + apply Hal. left. auto.
    + rewrite G4. exact Hph.
    + fields. rewrite G1, G2, G3, G4. repeat split; try assumption; lia.
Qed.

(** ** mm_init *)

Ltac mem_rw := repeat first [rewrite upd_same by lia | rewrite upd_other by lia].

Lemma mm_init_ok s :
  mem_brk s = mem_heap s -> 0 <= mem_heap s -> mem_heap s mod 8 = 0 ->
  mem_brk s + 6 * WSIZE + CHUNKSIZE <= mem_max_addr s -> mem_max_addr s <= 2 ^ 32 ->
  exists s',
    mm_init s = Some (0, s') /\
    InvL s' [(head s', MINSIZE, true); (head s' + 16, CHUNKSIZE, false)] [head s' + 16] /\
    mem_heap s' = mem_heap s /\ mem_max_addr s' = mem_max_addr s /\
    head s' = mem_heap s + 8 /\ mem_brk s' = mem_heap s + 6 * WSIZE + CHUNKSIZE.
Proof.
  intros Hb Hlo Hal Hcap Hmax. consts.
  set (b := mem_heap s) in *.
  unfold mm_init. consts.
  rewrite bind_sbrk_granted by lia. rewrite Hb.
  rewrite ptr_lt_null_false.
  do 6 (rewrite bind_SET by (apply valid_intro; fields; fold b; zdiv)).
  unfold put_head at 1. unfold bind at 1.
  rewrite bind_sbrk_granted by (fields; lia). fields.
  rewrite ptr_lt_null_false.
  assert (W17 : uint (PACK (4 * 4) 1) = 17) by reflexivity.
  assert (W1 : uint (PACK 0 1) = 1) by reflexivity.
  assert (W0 : uint 0 = 0) by reflexivity.
  assert (WC : uint (PACK 4096 0) = 4096) by reflexivity.
  assert (WS : Z.land 4096 (Z.lnot 7) = 4096) by reflexivity.
  rewrite W17, W1, W0.
  rewrite (bind_set_tags (b + 6 * 4) _ _ _ _ _ WC WS) by (apply valid_intro; fields; fold b; zdiv).
  rewrite bind_NEXT by (apply valid_intro; fields; fold b; zdiv).
  fields. mem_rw. rewrite WS.
  rewrite bind_SET by (apply valid_intro; fields; fold b; zdiv).
  rewrite bind_get_head. fields.
  do 3 (rewrite bind_SET by (apply valid_intro; fields; fold b; zdiv)).
  rewrite W1, W0. rewrite !uint_small by lia.
  eexists. split; [reflexivity|]. fields.
  split; [|repeat split; fold b; lia].
  split.
  - constructor.
    + constructor; fields; fold b; try lia; try assumption.
      * eexists. reflexivity.
      * simpl. unfold MINSIZE. change CHUNKSIZE with 4096. repeat split; try lia.
      * constructor; [|constructor; [|constructor]]; unfold tag; change CHUNKSIZE with 4096;
          unfold MINSIZE.
        -- split; mem_rw; reflexivity.
        -- split; mem_rw; reflexivity.
      * mem_rw. reflexivity.
    + fields. simpl. repeat split; mem_rw; first [reflexivity | lia].
    + split.
      * constructor; [intros []|constructor].
      * intros x. unfold NULL. split.
        -- intros [<-|[]]. split; [lia|]. eexists. right. left. reflexivity.
        -- intros [_ [sz [E|[E|[]]]]]; [discriminate E|].
           injection E as <- _. left. reflexivity.
  - intros a sa al [E|[E|[]]] _; injection E as <- <- <-; fields;
      change CHUNKSIZE with 4096; unfold MINSIZE; mem_rw; reflexivity.
Qed.

(** ** Writing into the payload of an allocated block *)

Lemma wf_payload s LL fl ex a sa m' :
  wf s LL fl ex -> In (a, sa, true) LL -> a <> head s ->
  (forall x, x < a \/ a + sa - 8 <= x -> m' x = mem s x) ->
  wf (set_mem s m') LL fl ex /\
  (forall e, sized (mem s) LL e -> sized m' LL e).
Proof.
  intros Hwf Ha Hne Hag.
  pose proof (wf_layout _ _ _ _ Hwf) as Hlay.
  pose proof (wf_listed _ _ _ _ Hwf) as Hlist.
  pose proof (wf_chain _ _ _ _ Hwf) as Hch.
  destruct (block_bounds _ _ Hlay _ _ _ Ha) as (P1 & P2 & P3 & P4 & P5 & P6 & P7).
  assert (Htag : forall b sb alb x, In (b, sb, alb) LL -> x = b - 4 \/ x = b + sb - 8 ->
                                    m' x = mem s x).
  { intros b sb alb x Hb Hx. apply Hag.
    destruct (block_bounds _ _ Hlay _ _ _ Hb) as (_ & _ & ? & _).
    destruct (blocks_apart _ _ Hlay _ _ _ _ _ _ Hb Ha) as [(E1 & E2 & _)|E]; lia. }
  assert (Hlink : forall f sf alf, In (f, sf, alf) LL -> f <> a ->
                                   m' f = mem s f /\ m' (f + 4) = mem s (f + 4)).
  { intros f sf alf Hf Hfa.
    destruct (block_bounds _ _ Hlay _ _ _ Hf) as (_ & _ & ? & _).
    destruct (blocks_apart _ _ Hlay _ _ _ _ _ _ Hf Ha) as [(E1 & _)|E]; [contradiction|].
    split; apply Hag; lia. }
  split.
  - constructor; [|apply (chain_frame (mem s)); fields; try assumption|assumption].
    + destruct Hlay as [H1 H2 H3 H4 H5 H6 H7 H8 H9].
      constructor; fields; try assumption.
      * rewrite Forall_forall in *. intros [[b sb] alb] Hb. specialize (H8 _ Hb).
        unfold tag in *.
        rewrite (Htag b sb alb (b - 4) Hb (or_introl eq_refl)).
        rewrite (Htag b sb alb (b + sb - 8) Hb (or_intror eq_refl)). assumption.
      * rewrite Hag by lia. assumption.
    + apply (Hlink _ _ _ (head_block _ _ Hlay)). congruence.
    + intros f Hf. destruct (node_block _ _ _ Hlist _ Hf) as [szf Hb].
      apply (Hlink _ _ _ Hb). intros ->.
      destruct (contig_addr _ _ _ _ _ _ _ _ (lay_contig _ _ Hlay) Hb Ha) as [_ E].
      discriminate E.
  - intros e Hs b sb alb Hb Hbe.
    rewrite (Htag b sb alb (b - 4) Hb (or_introl eq_refl)). apply (Hs _ _ _ Hb Hbe).
Qed.

Lemma bind_memcpy {B} dst src n (k : unit -> M B) s :
  0 < n -> n mod 4 = 0 -> dst mod 4 = 0 -> src mod 4 = 0 ->
  mem_heap s <= dst -> dst + n <= mem_brk s ->
  mem_heap s <= src -> src + n <= mem_brk s ->
  dst + n <= src \/ src + n <= dst ->
  bind (memcpy dst src n) k s
  = k tt (set_mem s (fun q => if (dst <=? q) && (q <? dst + n)
                              then mem s (q - dst + src) else mem s q)).
Proof.
  intros H0 H1 H2 H3 H4 H5 H6 H7 H8. unfold bind, memcpy.
  replace (n =? 0) with false by (symmetry; apply Z.eqb_neq; lia).
  rewrite (proj2 (Z.eqb_eq _ _) H1), (proj2 (Z.eqb_eq _ _) H2), (proj2 (Z.eqb_eq _ _) H3).
  rewrite (proj2 (Z.leb_le _ _) H4), (proj2 (Z.leb_le _ _) H5).
  rewrite (proj2 (Z.leb_le _ _) H6), (proj2 (Z.leb_le _ _) H7).
  replace ((dst + n <=? src) || (src + n <=? dst)) with true; [reflexivity|].
  symmetry. apply orb_true_iff. rewrite !Z.leb_le. assumption.
Qed.

(** ** mm_realloc *)

Lemma in_flag_change (l1 : list block) p fsz fg fg' l2 a sa al :
  In (a, sa, al) (l1 ++ (p, fsz, fg) :: l2) -> a <> p ->
  In (a, sa, al) (l1 ++ (p, fsz, fg') :: l2).
Proof.
  rewrite !in_app_iff. simpl. intros [H|[H|H]] Hne; try tauto.
  injection H as E _ _. congruence.
Qed.

Lemma in_flag_change2 (l1 : list block) bp p fsz fg fg' l2 a sa al :
  In (a, sa, al) (l1 ++ bp :: (p, fsz, fg) :: l2) -> a <> p ->
  In (a, sa, al) (l1 ++ bp :: (p, fsz, fg') :: l2).
Proof.
  rewrite !in_app_iff. simpl. intros [H|[H|[H|H]]] Hne; try tauto.
  injection H as E _ _. congruence.
Qed.

(** ** mm_malloc, in full *)

Lemma coalesced_after_alloc l1 pa psz ptr sz l2 fl :
  let res := coalesced l1 (pa, psz, true) ptr sz l2 fl in
  hd 0 (snd res) = ptr /\
  exists rsz, In (ptr, rsz, false) (snd (fst res)) /\
              (next_alloc l2 = true -> rsz = sz /\ snd res = ptr :: fl).
Proof.
  destruct l2 as [|[[n nsz] [|]] l2']; simpl; (split; [reflexivity|]).
  - exists sz. split; [apply in_or_app; right; right; left; reflexivity|auto].
  - exists sz. split; [apply in_or_app; right; right; left; reflexivity|auto].
  - exists (sz + nsz). split; [apply in_or_app; right; right; left; reflexivity|discriminate].
Qed.

Lemma noadj_next (l1 : list block) p sz l2 :
  adjacent_free (l1 ++ (p, sz, false) :: l2) = false -> next_alloc l2 = true.
Proof.
  rewrite !adj_app, !adj_cons, !next_alloc_cons. cbn [snd negb andb orb].
  destruct (adjacent_free l1), (last_alloc l1), (next_alloc l2); simpl;
    intros H; try discriminate; reflexivity.
Qed.

Lemma total_size_flag (l1 : list block) p sz fg fg' l2 :
  total_size (l1 ++ (p, sz, fg) :: l2) = total_size (l1 ++ (p, sz, fg') :: l2).
Proof. rewrite !total_size_app. reflexivity. Qed.

(** What a successful [mm_malloc] does to a well-formed heap: the block
    returned, the blocks in use before and after, the words it leaves
    alone, the free list, and the growth of the region. *)
Lemma mm_malloc_full s LL fl size :
  InvL s LL fl -> size_ok size ->
  (mm_malloc size s = None /\
   mem_max_addr s < mem_brk s + exsize_of (adjust size) /\
   fit (mem s) (adjust size) fl = NULL) \/
  (exists p s' LL' fl' asz fsz fl1,
     mm_malloc size s = Some (p, s') /\
     InvL s' LL' fl' /\
     In (p, asz, true) LL' /\ p <> head s' /\
     adjust size <= asz <= adjust size + 8 /\
     (mem_heap s' = mem_heap s /\ head s' = head s /\
      mem_max_addr s' = mem_max_addr s /\ mem_brk s <= mem_brk s') /\
     (forall a sa, In (a, sa, true) LL' <->
                   (a = p /\ sa = asz) \/ (a <> p /\ In (a, sa, true) LL)) /\
     (forall sa, ~ In (p, sa, true) LL) /\
     (forall a sa x, In (a, sa, true) LL -> a - 4 <= x < a + sa - 4 -> x <> head s + 4 ->
                     mem s' x = mem s x) /\
     (adjacent_free LL = false -> adjacent_free LL' = false) /\
     total_size LL' = total_size LL + (mem_brk s' - mem_brk s) /\
     (fit (mem s) (adjust size) fl <> NULL ->
      p = fit (mem s) (adjust size) fl /\ mem_brk s' = mem_brk s /\
      In (p, fsz, false) LL /\ fl1 = fl) /\
     (fit (mem s) (adjust size) fl = NULL ->
      mem_brk s' = mem_brk s + exsize_of (adjust size) /\
      (last_alloc LL = true ->
       p = mem_brk s /\ fsz = exsize_of (adjust size) /\ fl1 = mem_brk s :: fl) /\
      (last_alloc LL = false ->
       fl1 = fl /\ exists l0 psz, LL = l0 ++ [(p, psz, false)] /\
                                  fsz = psz + exsize_of (adjust size))) /\
     ((asz = fsz /\ fsz - adjust size < MINSIZE /\ fl' = remove Z.eq_dec p fl1) \/
      (asz = adjust size /\ asz + MINSIZE <= fsz /\ hd 0 fl' = p + asz /\
       exists rsz, In (p + asz, rsz, false) LL' /\
                   (adjacent_free LL = false ->
                    rsz = fsz - asz /\ fl' = (p + asz) :: remove Z.eq_dec p fl1)))).
Proof.
  intros HI Hsize. destruct (adjust_ok size Hsize) as (A1 & A2 & A3).
  pose proof HI as [Hwf Hsz].
  pose proof (wf_layout _ _ _ _ Hwf) as Hlay.
  destruct (lk_head _ _ Hlay) as (K1 & K2 & K3 & K4 & K5).
  assert (Hnz : (size =? 0) = false) by (apply Z.eqb_neq; unfold size_ok in Hsize; lia).
  unfold mm_malloc. rewrite Hnz.
  destruct (obtain_full s LL fl (adjust size) HI A1 A2)
    as [(Hrun & Hcap & Hnf)|(s1 & l1 & p & fsz & l2 & fl1 & Hrun & [Hwf1 Hsz1] & Hfit
                             & F1 & F2 & F3 & F4 & Hal1 & Hfr1 & Hna1 & Htot1 & Hfy & Hfn)].
  - left. unfold bind at 1. rewrite Hrun. auto.
  - right. rewrite (bind_some _ _ _ _ _ Hrun).
    set (LL1 := l1 ++ (p, fsz, false) :: l2) in *.
    pose proof (wf_layout _ _ _ _ Hwf1) as Hlay1.
    assert (Hp1 : In (p, fsz, false) LL1) by (apply in_or_app; right; left; reflexivity).
    destruct (block_bounds _ _ Hlay1 _ _ _ Hp1) as (Q1 & Q2 & Q3 & Q4 & Q5 & Q6 & Q7).
    destruct (take_ok s1 l1 p fsz l2 fl1 (adjust size) Hwf1 Hsz1 (conj A1 Hfit) A2)
      as (mT & HrunT & HwfT & HszT & Hh & Hf & HfrT).
    set (asize := if fsz - adjust size <? MINSIZE then fsz else adjust size) in *.
    set (LLT := l1 ++ (p, fsz, true) :: l2) in *.
    pose proof (wf_layout _ _ _ _ HwfT) as HlayT.
    assert (HpT : In (p, fsz, true) LLT) by (apply in_or_app; right; left; reflexivity).
    assert (Has : 16 <= asize /\ asize mod 8 = 0 /\ (asize = fsz \/ asize + 16 <= fsz)
                  /\ adjust size <= asize <= adjust size + 8).
    { unfold asize, MINSIZE. destruct (Z.ltb_spec (fsz - adjust size) 16);
        repeat split; try lia; auto; Z.div_mod_to_equations; lia. }
    destruct Has as (As1 & As2 & As3 & As4).
    assert (Hph : p <> head (set_mem s1 mT)).
    { apply (free_not_head s1 _ p fsz Hlay1). exact Hp1. }
    destruct (split_full (set_mem s1 mT) l1 p fsz l2 _ asize HwfT HszT Hph Hh Hf As1 As2 As3)
      as (s' & LL' & fl' & HrunS & (G1 & G2 & G3 & G4) & HI' & HtotS & Hal & HfrS & HnaS
          & HeqS & HremS).
    fold LLT in HtotS, Hal, HfrS, HnaS, HeqS. fields.
    assert (HalT : forall a sa, a <> p -> (In (a, sa, true) LLT <-> In (a, sa, true) LL)).
    { intros a sa Hne. rewrite <- Hal1. fold LL1. unfold LLT, LL1.
      split; intros H; apply (in_flag_change _ _ _ _ _ _ _ _ _ H Hne). }
    assert (Hfresh : forall sa, ~ In (p, sa, true) LL).
    { intros sa Hin. apply Hal1 in Hin. fold LL1 in Hin.
      destruct (contig_addr _ _ _ _ _ _ _ _ (lay_contig _ _ Hlay1) Hin Hp1) as [_ E].
      discriminate E. }
    exists p, s', LL', fl', asize, fsz, fl1.
    split; [rewrite (bind_some _ _ _ _ _ HrunT), (bind_some _ _ _ _ _ HrunS); reflexivity|].
    split; [assumption|].
    split; [apply Hal; left; auto|].
    split; [rewrite G4; exact Hph|].
    split; [assumption|].
    split; [rewrite G1, G2, G3, G4; fields; repeat split; assumption|].
    split; [|split; [exact Hfresh|split; [|split; [|split; [|split; [|split]]]]]].
    + intros a sa. rewrite Hal. split.
      * intros [H|[Hne H]]; [left; assumption|right]. split; [assumption|].
        apply HalT; assumption.
      * intros [H|[Hne H]]; [left; assumption|right]. split; [assumption|].
        apply HalT; assumption.
    + intros a sa x Hin Hx Hxh.
      assert (Hne : a <> p) by (intros ->; apply (Hfresh sa); assumption).
      assert (Hin1 : In (a, sa, true) LL1) by (apply Hal1; assumption).
      assert (HinT : In (a, sa, true) LLT) by (apply HalT; assumption).
      destruct (block_bounds _ _ Hlay _ _ _ Hin) as (P1 & P2 & _).
      rewrite HfrS.
      * rewrite HfrT.
        -- apply Hfr1; [assumption|lia|]. apply (alloc_off_free _ _ _ _ _ Hlay Hin Hx).
        -- rewrite F2. assumption.
        -- apply (alloc_off_free _ _ _ _ _ Hlay1 Hin1 Hx).
      * rewrite F2. assumption.
      * apply (alloc_off_free _ _ _ _ _ HlayT HinT Hx).
      * destruct (blocks_apart _ _ HlayT _ _ _ _ _ _ HinT HpT) as [(E & _)|E];
          [contradiction|lia].
    + intros Hna. apply HnaS. apply noadj_take. apply Hna1. assumption.
    + transitivity (total_size LLT); [exact HtotS|].
      transitivity (total_size LL1); [apply total_size_flag|].
      rewrite G2. fields. exact Htot1.
    + intros Hne. destruct (Hfy Hne) as (E1 & E2 & E3 & E4).
      split; [assumption|]. split; [rewrite G2; fields; rewrite E2; reflexivity|].
      split; [rewrite <- E4; exact Hp1|assumption].
    + intros Hn. destruct (Hfn Hn) as (E1 & E2 & E3 & E4).
      split; [rewrite G2; fields; assumption|]. split.
      * intros Hl. destruct (E3 Hl) as (? & ? & ? & ?). auto.
      * intros Hl. destruct (E4 Hl) as (? & psz & ? & ?). split; [assumption|].
        exists l1, psz. auto.
    + destruct As3 as [Ea|Ea].
      * left. destruct (HeqS Ea) as (_ & _ & Efl).
        split; [assumption|]. split; [|assumption].
        unfold asize, MINSIZE in Ea |- *.
        destruct (Z.ltb_spec (fsz - adjust size) 16); lia.
      * right. destruct (HremS Ea) as (ELL' & Efl').
        assert (Eas : asize = adjust size).
        { unfold asize, MINSIZE in Ea |- *.
          destruct (Z.ltb_spec (fsz - adjust size) 16); lia. }
        split; [assumption|]. split; [unfold MINSIZE; lia|].
        destruct (coalesced_after_alloc l1 p asize (p + asize) (fsz - asize) l2
                    (remove Z.eq_dec p fl1)) as (Ehd & rsz & Hrin & Hnx).
        rewrite <- Efl' in Ehd, Hnx. rewrite <- ELL' in Hrin.
        split; [assumption|]. exists rsz. split; [assumption|].
        intros Hna. apply Hnx. apply (noadj_next l1 p fsz). apply Hna1. assumption.
Qed.

Lemma mm_realloc_full s LL fl ptr osz size :
  InvL s LL fl -> In (ptr, osz, true) LL -> ptr <> head s -> size_ok size ->
  (mm_realloc ptr size s = None /\
   mem_max_addr s < mem_brk s + exsize_of (adjust size) /\
   fit (mem s) (adjust size) fl = NULL) \/
  (exists p s' LL' fl' asz,
     mm_realloc ptr size s = Some (p, s') /\
     InvL s' LL' fl' /\
     In (p, asz, true) LL' /\ p <> head s' /\ size + 8 <= asz /\
     mem_heap s' = mem_heap s /\ head s' = head s /\
     mem_max_addr s' = mem_max_addr s /\ mem_brk s <= mem_brk s' /\
     (forall j, 0 <= j < Z.min osz asz - 8 -> mem s' (p + j) = mem s (ptr + j)) /\
     p <> ptr /\ adjust size <= asz <= adjust size + 8 /\
     (forall a sa, In (a, sa, true) LL' <->
                   (a = p /\ sa = asz) \/ (a <> p /\ a <> ptr /\ In (a, sa, true) LL)) /\
     (forall sa, ~ In (p, sa, true) LL) /\
     (forall a sa x, In (a, sa, true) LL -> a <> ptr -> a - 4 <= x < a + sa - 4 ->
                     x <> head s + 4 -> mem s' x = mem s x) /\
     (adjacent_free LL = false -> adjacent_free LL' = false) /\
     total_size LL' = total_size LL + (mem_brk s' - mem_brk s)).
Proof.
  intros HI Hptr Hph Hsize. destruct (adjust_ok size Hsize) as (A1 & A2 & A3).
  pose proof HI as [Hwf Hsz].
  pose proof (wf_layout _ _ _ _ Hwf) as Hlay.
  destruct (lk_head _ _ Hlay) as (K1 & K2 & K3 & K4 & K5).
  destruct (block_bounds _ _ Hlay _ _ _ Hptr) as (P1 & P2 & P3 & P4 & P5 & P6 & P7).
  destruct (blocks_apart _ _ Hlay _ _ _ _ _ _ (head_block _ _ Hlay) Hptr) as [(E & _)|P8];
    [congruence|]. unfold MINSIZE in P8.
  assert (Hnz : (size =? 0) = false) by (apply Z.eqb_neq; unfold size_ok in Hsize; lia).
  assert (Hpn : negb (ptr =? NULL) = true)
    by (apply negb_true_iff, Z.eqb_neq; unfold NULL; lia).
  unfold mm_realloc. rewrite Hpn.
  rewrite bind_SIZE by valid_tac.
  replace (Z.land (mem s (HDR ptr)) (Z.lnot 7)) with osz
    by (symmetry; apply (Hsz _ _ _ Hptr); unfold NULL; lia).
  rewrite Hnz.
  destruct (obtain_full s LL fl (adjust size) HI A1 A2)
    as [(Hrun & Hcap & Hnf)|(s1 & l1 & p & fsz & l2 & fl1 & Hrun & [Hwf1 Hsz1] & Hfit
                             & F1 & F2 & F3 & F4 & Hal1 & Hfr1 & Hna1 & Htot1 & _)].
  - left. unfold bind at 1. rewrite Hrun. auto.
  - right. rewrite (bind_some _ _ _ _ _ Hrun).
    set (LL1 := l1 ++ (p, fsz, false) :: l2) in *.
    pose proof (wf_layout _ _ _ _ Hwf1) as Hlay1.
    assert (Hp1 : In (p, fsz, false) LL1) by (apply in_or_app; right; left; reflexivity).
    assert (Hptr1 : In (ptr, osz, true) LL1) by (apply Hal1; assumption).
    destruct (block_bounds _ _ Hlay1 _ _ _ Hp1) as (Q1 & Q2 & Q3 & Q4 & Q5 & Q6 & Q7).
    destruct (blocks_apart _ _ Hlay1 _ _ _ _ _ _ (head_block _ _ Hlay1) Hp1) as [(_ & _ & E)|Q8];
      [discriminate|]. unfold MINSIZE in Q8.
    destruct (blocks_apart _ _ Hlay1 _ _ _ _ _ _ Hptr1 Hp1) as [(_ & _ & E)|Hpp];
      [discriminate|].
    assert (D1 : forall x, ptr - 4 <= x < ptr + osz - 4 -> mem s1 x = mem s x).
    { intros x Hx. apply Hfr1; [lia|lia|].
      apply (alloc_off_free _ _ _ _ _ Hlay Hptr Hx). }
    (* the block is taken *)
    destruct (take_ok s1 l1 p fsz l2 fl1 (adjust size) Hwf1 Hsz1 (conj A1 Hfit) A2)
      as (mT & HrunT & HwfT & HszT & Hh & Hf & HfrT).
    set (asize := if fsz - adjust size <? MINSIZE then fsz else adjust size) in *.
    set (LLT := l1 ++ (p, fsz, true) :: l2) in *.
    assert (Has : 16 <= asize <= fsz /\ asize mod 8 = 0 /\ (asize = fsz \/ asize + 16 <= fsz)
                  /\ size + 8 <= asize).
    { unfold asize, MINSIZE. destruct (Z.ltb_spec (fsz - adjust size) 16);
        repeat split; try lia; auto. }
    destruct Has as (As1 & As2 & As3 & As4).
    assert (HpT : In (p, fsz, true) LLT) by (apply in_or_app; right; left; reflexivity).
    assert (HptrT : In (ptr, osz, true) LLT).
    { apply (in_flag_change _ _ _ false true _ _ _ _ Hptr1). lia. }
    assert (D2 : forall x, ptr - 4 <= x < ptr + osz - 4 -> mT x = mem s1 x).
    { intros x Hx. apply HfrT; [rewrite F2; lia|].
      apply (alloc_off_free _ _ _ _ _ Hlay1 Hptr1 Hx). }
    (* the copy *)
    set (n := (if osz <? asize then osz else asize) - 8).
    assert (Hn : n = Z.min osz asize - 8 /\ 8 <= n /\ n mod 8 = 0 /\ n <= asize - 8 /\ n <= osz - 8).
    { unfold n. destruct (Z.ltb_spec osz asize); repeat split; try lia;
        Z.div_mod_to_equations; lia. }
    destruct Hn as (En & N1 & N2 & N3 & N4).
    set (mC := fun q => if (p <=? q) && (q <? p + n) then mT (q - p + ptr) else mT q).
    assert (HagC : forall x, x < p \/ p + n <= x -> mC x = mT x).
    { intros x Hx. unfold mC.
      replace ((p <=? x) && (x <? p + n)) with false; [reflexivity|].
      symmetry. apply andb_false_iff. rewrite Z.leb_gt, Z.ltb_ge. lia. }
    assert (D3 : forall j, 0 <= j < n -> mC (p + j) = mT (ptr + j)).
    { intros j Hj. unfold mC.
      replace ((p <=? p + j) && (p + j <? p + n)) with true.
      - f_equal. lia.
      - symmetry. apply andb_true_iff. rewrite Z.leb_le, Z.ltb_lt. lia. }
    assert (HphT : p <> head (set_mem s1 mT)) by (fields; lia).
    destruct (wf_payload (set_mem s1 mT) LLT _ NULL p fsz mC HwfT HpT HphT) as [HwfC HszC'].
    { intros x Hx. fields. apply HagC. lia. }
    pose proof (HszC' p HszT) as HszC. clear HszC'. fields.
    pose proof (wf_layout _ _ _ _ HwfC) as HlayC.
    (* the old block is released *)
    assert (HphC : fst (fst (ptr, osz, true)) <> head (set_mem s1 mC)).
    { simpl. rewrite F2. assumption. }
    destruct (block_split LLT _ (ptr, osz, true) (lay_prologue _ _ HlayC) HptrT HphC)
      as (la & bp & lb & ELT).
    rewrite ELT in HwfC, HszC.
    destruct (release_ok _ la bp ptr osz lb _ p HwfC HszC) as (mR & HrunR & HwfR & HszR & HfrR).
    fields.
    set (LLR := snd (fst (coalesced la bp ptr osz lb (remove Z.eq_dec p fl1)))) in *.
    set (flR := snd (coalesced la bp ptr osz lb (remove Z.eq_dec p fl1))) in *.
    pose proof (wf_layout _ _ _ _ HwfR) as HlayR.
    assert (HpR : In (p, fsz, true) LLR).
    { apply coalesced_alloc. apply (in_flag_change2 _ _ _ _ true false).
      - pose proof HpT as H. rewrite ELT in H. exact H.
      - lia. }
    assert (DR : forall x, p - 4 <= x < p + fsz - 4 -> mR x = mC x).
    { intros x Hx. apply HfrR; [rewrite F2; lia|].
      intros f szf Hfb.
      destruct (Z.eq_dec f ptr) as [->|Hfp].
      - assert (Hpt : In (ptr, osz, false) (la ++ bp :: (ptr, osz, false) :: lb))
          by (apply in_or_app; right; right; left; reflexivity).
        assert (HlT1 : contig (head s1) (la ++ bp :: (ptr, osz, false) :: lb) (mem_brk s1)).
        { pose proof (lay_contig _ _ HlayC) as Hc. fields. rewrite ELT in Hc.
          apply contig_app in Hc as (r & Hc1 & Hc2). apply contig_app. exists r.
          split; [assumption|]. destruct bp as [[b1 b2] b3]. simpl in *. tauto. }
        destruct (contig_addr _ _ _ _ _ _ _ _ HlT1 Hfb Hpt) as [-> _]. lia.
      - assert (Hfb' : In (f, szf, false) LLT).
        { rewrite ELT. apply (in_flag_change2 _ _ _ _ false true _ _ _ _ Hfb Hfp). }
        destruct (blocks_apart _ _ HlayC _ _ _ _ _ _ HpT Hfb') as [(_ & _ & E)|E];
          [discriminate|lia]. }
    (* the remainder *)
    destruct (in_split _ _ HpR) as (l1' & l2' & ELR).
    rewrite ELR in HwfR, HszR.
    assert (HphR : p <> head (set_mem s1 mR)) by (fields; lia).
    assert (HhR : mR (p - 4) = asize + 1).
    { rewrite DR by lia. rewrite HagC by lia. assumption. }
    assert (HfR : mR (p + asize - 8) = asize + 1).
    { rewrite DR by lia. rewrite HagC by lia. assumption. }
    destruct (split_full (set_mem s1 mR) l1' p fsz l2' flR asize HwfR HszR HphR HhR HfR
                (proj1 As1) As2 As3)
      as (s' & LL' & fl' & HrunS & (G1 & G2 & G3 & G4) & HI' & HtotS & Hal' & HfrS & HnaS & _).
    fields. rewrite <- ELR in HfrS, HtotS, Hal', HnaS.
    assert (Has2 : adjust size <= asize <= adjust size + 8).
    { unfold asize, MINSIZE. destruct (Z.ltb_spec (fsz - adjust size) 16); try lia.
      Z.div_mod_to_equations. lia. }
    assert (Hfresh : forall sa, ~ In (p, sa, true) LL).
    { intros sa Hin. apply Hal1 in Hin.
      destruct (contig_addr _ _ _ _ _ _ _ _ (lay_contig _ _ Hlay1) Hin Hp1) as [_ E].
      discriminate E. }
    assert (HalT : forall a sa, a <> p -> (In (a, sa, true) LLT <-> In (a, sa, true) LL)).
    { intros a sa Hne. rewrite <- Hal1. unfold LLT, LL1.
      split; intros H; apply (in_flag_change _ _ _ _ _ _ _ _ _ H Hne). }
    assert (HlayT' : layout (set_mem s1 mC) (la ++ bp :: (ptr, osz, true) :: lb)).
    { pose proof HlayC as H. rewrite ELT in H. exact H. }
    assert (HalR : forall a sa, In (a, sa, true) LLR <-> a <> ptr /\ In (a, sa, true) LLT).
    { intros a sa. unfold LLR. rewrite coalesced_alloc.
      rewrite (flip_in _ _ _ _ _ _ true false _ _ _ HlayT'). rewrite ELT. split.
      - intros [(_ & _ & [=])|H]. exact H.
      - intros H. right. exact H. }
    assert (Hkeep : forall a sa x, In (a, sa, true) LL -> a <> ptr -> a - 4 <= x < a + sa - 4 ->
                                   x <> head s + 4 -> mem s' x = mem s x).
    { intros a sa x Hin Hap Hx Hxh.
      assert (Hne : a <> p) by (intros ->; apply (Hfresh sa); assumption).
      assert (Hin1 : In (a, sa, true) LL1) by (apply Hal1; assumption).
      assert (HinT : In (a, sa, true) LLT) by (apply HalT; assumption).
      assert (HinR : In (a, sa, true) LLR) by (apply HalR; auto).
      destruct (block_bounds _ _ Hlay _ _ _ Hin) as (U1 & U2 & U3 & _).
      destruct (blocks_apart _ _ HlayC _ _ _ _ _ _ HinT HpT) as [(E & _)|Hap1]; [contradiction|].
      destruct (blocks_apart _ _ HlayC _ _ _ _ _ _ HinT HptrT) as [(E & _)|Hap2]; [contradiction|].
      rewrite HfrS; [| rewrite F2; assumption | apply (alloc_off_free _ _ _ _ _ HlayR HinR Hx) | lia].
      rewrite HfrR; [| rewrite F2; assumption |].
      - rewrite HagC by lia. rewrite HfrT; [| rewrite F2; assumption |].
        + apply Hfr1; [assumption|lia|]. apply (alloc_off_free _ _ _ _ _ Hlay Hin Hx).
        + apply (alloc_off_free _ _ _ _ _ Hlay1 Hin1 Hx).
      - intros f szf Hfb.
        apply (flip_in _ _ _ _ _ _ true false _ _ _ HlayT') in Hfb as [(-> & -> & _)|[Hfp Hfb]].
        + lia.
        + assert (Hfb' : In (f, szf, false) LLT) by (rewrite ELT; exact Hfb).
          destruct (blocks_apart _ _ HlayC _ _ _ _ _ _ HinT Hfb') as [(_ & _ & E)|E];
            [discriminate|lia]. }
    exists p, s', LL', fl', asize.
    split; [|split; [assumption|split; [|split; [|split; [assumption|]]]]].
    + rewrite (bind_some _ _ _ _ _ HrunT).
      unfold when at 1. rewrite !bind_bind.
      assert (Eus : usize ((if osz <? asize then osz else asize) - DWSIZE) = n).
      { unfold n, DWSIZE. apply usize_small. fold n. lia. }
      rewrite Eus.
      rewrite bind_memcpy; fields; try lia; try (Z.div_mod_to_equations; lia).
      fold mC. rewrite (bind_some _ _ _ _ _ HrunR).
      rewrite (bind_some _ _ _ _ _ HrunS). reflexivity.
    + apply Hal'. left. auto.
    + rewrite G4. fields. lia.
    + rewrite G1, G2, G3, G4. fields.
      split; [assumption|]. split; [assumption|]. split; [assumption|]. split; [lia|].
      split; [|split; [lia|split; [exact Has2|split; [|split; [exact Hfresh|
                split; [exact Hkeep|split]]]]]].
      * intros j Hj. rewrite <- En in Hj.
        rewrite HfrS; [| rewrite F2; lia | apply (alloc_off_free _ _ _ _ _ HlayR HpR); lia | lia].
        rewrite DR by lia. rewrite D3 by lia. rewrite D2 by lia. apply D1. lia.
      * intros a sa. rewrite Hal'. split.
        -- intros [H|[Hne H]]; [left; assumption|right]. apply HalR in H as [H1 H2].
           split; [assumption|]. split; [assumption|]. apply HalT; assumption.
        -- intros [H|(Hne & Hap & H)]; [left; assumption|right]. split; [assumption|].
           apply HalR. split; [assumption|]. apply HalT; assumption.
      * intros Hna. apply HnaS. unfold LLR. apply Hna1 in Hna.
        assert (HnT : adjacent_free LLT = false) by (unfold LLT; apply noadj_take; exact Hna).
        rewrite ELT in HnT.
        destruct (noadj_middle _ _ _ _ _ HnT) as [Hn1 Hn2].
        apply coalesced_noadj; assumption.
      * transitivity (total_size LLR); [exact HtotS|].
        unfold LLR. rewrite coalesced_total.
        transitivity (total_size LLT);
          [rewrite ELT; rewrite !total_size_app; destruct bp as [[b1 b2] b3]; reflexivity|].
        transitivity (total_size LL1); [apply total_size_flag|]. exact Htot1.
Qed.

Lemma mm_realloc_ok s LL fl ptr osz size :
  InvL s LL fl -> In (ptr, osz, true) LL -> ptr <> head s -> size_ok size ->
  (mm_realloc ptr size s = None /\
   mem_max_addr s < mem_brk s + exsize_of (adjust size) /\
   fit (mem s) (adjust size) fl = NULL) \/
  (exists p s' LL' fl' asz,
     mm_realloc ptr size s = Some (p, s') /\
     InvL s' LL' fl' /\
     In (p, asz, true) LL' /\ p <> head s' /\ size + 8 <= asz /\
     mem_heap s' = mem_heap s /\ head s' = head s /\
     mem_max_addr s' = mem_max_addr s /\ mem_brk s <= mem_brk s' /\
     (forall j, 0 <= j < Z.min osz asz - 8 -> mem s' (p + j) = mem s (ptr + j))).
Proof.
  intros HI Hptr Hph Hsize.
  destruct (mm_realloc_full s LL fl ptr osz size HI Hptr Hph Hsize)
    as [H|(p & s' & LL' & fl' & asz & H1 & H2 & H3 & H4 & H5 & H6 & H7 & H8 & H9 & H10 & _)].
  - left. exact H.
  - right. exists p, s', LL', fl', asz. auto 12.
Qed.

(** * Sequences of calls *)

Inductive call : Type :=
| Malloc (size : Z)
| Free (ptr : Z)
| Realloc (ptr size : Z).

Definition run_call (c : call) : M Z :=
  match c with
  | Malloc size => mm_malloc size
  | Free ptr => mm_free ptr ;;; ret NULL
  | Realloc ptr size => mm_realloc ptr size
  end.

Fixpoint run_calls (cs : list call) (s : heap) : option heap :=
  match cs with
  | [] => Some s
  | c :: cs' =>
      match run_call c s with
      | Some (_, s') => run_calls cs' s'
      | None => None
      end
  end.

(** [ptr] is the address of a block in use. *)
Definition allocated (s : heap) (ptr : Z) : bool :=
  match blocks_of s with
  | Some l => existsb (fun b => (fst (fst b) =? ptr) && snd b) l
  | None => false
  end.

(** Sizes for which [adjust] does not wrap around; zero is a request too. *)
Definition request_ok (size : Z) : Prop := 0 <= size <= 2 ^ 64 - 16.

(** Some block on the free list is large enough for the request. *)
Definition fits (s : heap) (size : Z) : bool :=
  match free_list s with
  | Some fl => existsb (fun f => adjust size <=? block_size s f) fl
  | None => false
  end.

(** The provider can grant the growth the request would ask for. *)
Definition room (s : heap) (size : Z) : bool :=
  mem_brk s + exsize_of (adjust size) <=? mem_max_addr s.

(** The request can be served: from the free list, or by growing. *)
Definition served (s : heap) (size : Z) : bool := fits s size || room s size.

(** The contract of a call: a pointer passed in is [NULL] or a block in
    use, a size passed in does not wrap around, and a request that is not
    zero can be served.  (A request that cannot be served makes the code
    store through [(void * ) -1].) *)
Definition call_ok (s : heap) (c : call) : Prop :=
  match c with
  | Malloc size => request_ok size /\ (size = 0 \/ served s size = true)
  | Free ptr => ptr = NULL \/ allocated s ptr = true
  | Realloc ptr size =>
      (ptr = NULL \/ allocated s ptr = true) /\ request_ok size /\
      (size = 0 \/ served s size = true)
  end.

(** Every call of the sequence is made within its contract. *)
Fixpoint calls_ok (s : heap) (cs : list call) : Prop :=
  match cs with
  | [] => True
  | c :: cs' =>
      call_ok s c /\
      forall r s', run_call c s = Some (r, s') -> calls_ok s' cs'
  end.

(** A provider that has granted nothing yet and lives below [2^32]. *)
Definition fresh_provider (s : heap) : Prop :=
  mem_brk s = mem_heap s /\ 0 <= mem_heap s /\ mem_heap s mod 8 = 0 /\
  mem_brk s + 6 * WSIZE + CHUNKSIZE <= mem_max_addr s /\ mem_max_addr s <= 2 ^ 32.

Lemma realloc_null s n : mm_realloc NULL n s = mm_malloc n s.
Proof.
  unfold mm_realloc, mm_malloc, when. simpl (negb (NULL =? NULL)). cbv iota.
  rewrite bind_ret. destruct (n =? 0); [reflexivity|].
  unfold bind.
  destruct (obtain (adjust n) s) as [[[newptr|] s1]|]; reflexivity.
Qed.

Lemma realloc_zero s addr : mm_realloc addr 0 s = (mm_free addr ;;; ret NULL) s.
Proof.
  unfold mm_realloc, mm_free. simpl (0 =? 0). cbv iota.
  destruct (addr =? NULL); simpl negb; cbv iota.
  - reflexivity.
  - unfold when, bind. destruct (SIZE (HDR addr) s) as [[sz s1]|]; reflexivity.
Qed.

Lemma allocated_in s LL fl ptr :
  InvL s LL fl -> allocated s ptr = true ->
  exists sz, In (ptr, sz, true) LL /\ ptr <> head s.
Proof.
  intros [Hwf Hsz] Ha.
  pose proof (wf_layout _ _ _ _ Hwf) as Hlay.
  destruct (observe_inv s LL fl Hwf (proj1 (sized_exact _ _ _ Hlay) Hsz)) as (Hb & _ & _).
  unfold allocated in Ha. rewrite Hb in Ha.
  apply existsb_exists in Ha as ([[a sz] al] & Hin & E). simpl in E.
  apply andb_true_iff in E as [E1 E2]. apply Z.eqb_eq in E1. subst a al.
  destruct (lay_prologue _ _ Hlay) as [L EL]. subst LL. simpl in Hin.
  exists sz. split; [right; assumption|].
  pose proof (lay_contig _ _ Hlay) as Hc. simpl in Hc. destruct Hc as (_ & _ & _ & Hc).
  destruct (contig_in _ _ _ _ _ _ Hc Hin) as (? & _). unfold MINSIZE in *. lia.
Qed.

(** No listed block fits exactly when every listed header records less
    than the size asked for. *)
Lemma fit_null_iff m a fl :
  (forall f, In f fl -> f <> NULL) ->
  (fit m a fl = NULL <-> forall f, In f fl -> Z.land (m (f - 4)) (Z.lnot 7) < a).
Proof.
  intros Hnz. destruct (fit_spec m a fl) as [[E Hall]|(fa & fb & E & Hsz & _)].
  - split; auto.
  - assert (Hin : In (fit m a fl) fl).
    { rewrite E at 2. apply in_or_app. right. left. reflexivity. }
    split.
    + intros E0. destruct (Hnz _ Hin E0).
    + intros Hall. specialize (Hall _ Hin). lia.
Qed.

Lemma listed_nonzero s LL fl f : InvL s LL fl -> In f fl -> f <> NULL.
Proof.
  intros [Hwf _] Hin.
  destruct (node_block _ _ _ (wf_listed _ _ _ _ Hwf) _ Hin) as [sz Hb].
  destruct (block_bounds _ _ (wf_layout _ _ _ _ Hwf) _ _ _ Hb) as (_ & _ & _ & _ & _ & ? & _).
  unfold NULL. lia.
Qed.

(** [served] is the condition under which the code finds or obtains a
    block. *)
Lemma served_iff s LL fl size :
  InvL s LL fl ->
  (served s size = true <->
   fit (mem s) (adjust size) fl <> NULL \/
   mem_brk s + exsize_of (adjust size) <= mem_max_addr s).
Proof.
  intros HI. unfold served, fits, room.
  rewrite (free_list_wf _ _ _ _ (proj1 HI)).
  rewrite orb_true_iff, Z.leb_le, existsb_exists.
  assert (Hiff : (exists f, In f fl /\ (adjust size <=? block_size s f) = true) <->
                 fit (mem s) (adjust size) fl <> NULL).
  { rewrite (fit_null_iff (mem s) (adjust size) fl (fun f => listed_nonzero _ _ _ f HI)).
    unfold block_size, HDR, WSIZE. split.
    - intros (f & Hf & Hle) Hall. apply Z.leb_le in Hle. specialize (Hall f Hf). lia.
    - intros Hn. destruct (fit_spec (mem s) (adjust size) fl) as [[_ Hall]|(fa & fb & E & Hsz & _)].
      + destruct (Hn Hall).
      + exists (fit (mem s) (adjust size) fl). split.
        * rewrite E at 2. apply in_or_app. right. left. reflexivity.
        * apply Z.leb_le. assumption. }
  rewrite Hiff. reflexivity.
Qed.

(** A call within its contract returns and keeps the invariant. *)
Lemma call_preserves s c :
  Inv s -> call_ok s c ->
  exists r s', run_call c s = Some (r, s') /\ Inv s' /\
               mem_heap s' = mem_heap s /\ mem_brk s <= mem_brk s'.
Proof.
  intros HI Hc. apply Inv_InvL in HI as (LL & fl & HI).
  assert (Hmalloc : forall n, request_ok n -> n = 0 \/ served s n = true ->
            exists r s', mm_malloc n s = Some (r, s') /\ Inv s' /\
                         mem_heap s' = mem_heap s /\ mem_brk s <= mem_brk s').
  { intros n Hn Hsv. destruct (Z.eq_dec n 0) as [->|Hn0].
    - exists NULL, s. repeat split; try lia. apply Inv_InvL. eauto.
    - destruct Hsv as [?|Hsv]; [contradiction|].
      apply (served_iff _ _ _ _ HI) in Hsv.
      assert (Hs : size_ok n) by (unfold size_ok, request_ok in *; lia).
      destruct (mm_malloc_full s LL fl n HI Hs)
        as [(_ & Hcap & Hnf)|(p & s' & LL' & fl' & asz & fsz & fl1 & Hrun & HI' & _ & _ & _
                              & (G1 & _ & _ & G4) & _)].
      + destruct Hsv as [Hsv|Hsv]; [contradiction|lia].
      + exists p, s'. repeat split; try assumption. apply Inv_InvL. eauto. }
  assert (Hfree : forall p, p = NULL \/ allocated s p = true ->
            exists s', mm_free p s = Some (tt, s') /\ Inv s' /\
                       mem_heap s' = mem_heap s /\ mem_brk s <= mem_brk s').
  { intros p [->|Hp].
    - exists s. repeat split; try lia. apply Inv_InvL. eauto.
    - destruct (allocated_in _ _ _ _ HI Hp) as (sz & Hin & Hne).
      destruct (mm_free_ok s LL fl p sz HI Hin Hne) as (m' & LL' & fl' & Hrun & HI' & _).
      exists (set_mem s m'). split; [assumption|]. split; [apply Inv_InvL; eauto|].
      fields. split; [reflexivity|lia]. }
  destruct c as [n|p|p n]; simpl in *.
  - destruct Hc as [Hn Hsv]. apply Hmalloc; assumption.
  - destruct (Hfree p Hc) as (s' & Hrun & H). exists NULL, s'.
    split; [|assumption]. rewrite (bind_some _ _ _ _ _ Hrun). reflexivity.
  - destruct Hc as (Hp & Hn & Hsv).
    destruct (Z.eq_dec n 0) as [->|Hn0].
    + rewrite realloc_zero. destruct (Hfree p Hp) as (s' & Hrun & H). exists NULL, s'.
      split; [|assumption]. rewrite (bind_some _ _ _ _ _ Hrun). reflexivity.
    + destruct Hp as [->|Hp].
      * rewrite realloc_null. apply Hmalloc; assumption.
      * destruct Hsv as [?|Hsv]; [contradiction|].
        apply (served_iff _ _ _ _ HI) in Hsv.
        destruct (allocated_in _ _ _ _ HI Hp) as (sz & Hin & Hne).
        assert (Hs : size_ok n) by (unfold size_ok, request_ok in *; lia).
        destruct (mm_realloc_full s LL fl p sz n HI Hin Hne Hs)
          as [(_ & Hcap & Hnf)|(q & s' & LL' & fl' & asz & Hrun & HI' & _ & _ & _ & G1 & _ & _
                                & G4 & _)].
        -- destruct Hsv as [Hsv|Hsv]; [contradiction|lia].
        -- exists q, s'. repeat split; try assumption. apply Inv_InvL. eauto.
Qed.

Lemma calls_preserve cs : forall s,
  Inv s -> calls_ok s cs -> exists s', run_calls cs s = Some s' /\ Inv s'.
Proof.
  induction cs as [|c cs IH]; intros s HI Hok; simpl in *.
  - exists s. auto.
  - destruct Hok as [Hc Hrest].
    destruct (call_preserves s c HI Hc) as (r & s1 & Hrun & HI1 & _).
    rewrite Hrun. apply IH; [assumption|]. apply (Hrest r). assumption.
Qed.

Lemma init_inv s :
  fresh_provider s -> exists s', mm_init s = Some (0, s') /\ Inv s' /\
                                 granted s' = 6 * WSIZE + CHUNKSIZE.
Proof.
  intros (H1 & H2 & H3 & H4 & H5).
  destruct (mm_init_ok s H1 H2 H3 H4 H5) as (s' & Hrun & HI & G1 & G2 & G3 & G4).
  exists s'. split; [assumption|]. split; [apply Inv_InvL; eauto|].
  unfold granted. lia.
Qed.

(** C9 (amended). On a provider below [2^32] that has granted nothing yet,
    [mm_init] succeeds, every sequence of calls made within their contracts
    (pointers [NULL] or in use, sizes at most [2^64 - 16], every non-zero
    request served by a listed block that fits or by a growth the provider
    grants) returns, and in the heap it leaves the sizes of the blocks
    between the prologue and the epilogue add up to the granted bytes minus
    the 24 bytes of padding, prologue and epilogue. *)
Theorem total_size_C9 s0 cs :
  fresh_provider s0 ->
  (forall s1, mm_init s0 = Some (0, s1) -> calls_ok s1 cs) ->
  exists s1 s l,
    mm_init s0 = Some (0, s1) /\ run_calls cs s1 = Some s /\
    blocks_of s = Some l /\ total_size l = granted s - 24.
Proof.
  intros Hp Hok.
  destruct (init_inv s0 Hp) as (s1 & Hinit & HI1 & _).
  destruct (calls_preserve cs s1 HI1 (Hok s1 Hinit)) as (s & Hrun & (LL & fl & Hwf & Hex)).
  destruct (observe_inv s LL fl Hwf Hex) as (Hb & _ & Ht).
  exists s1, s, (tl LL). auto.
Qed.

Lemma total_size_C9_witness :
  exists s1 s l,
    mm_init heap0 = Some (0, s1) /\
    run_calls [Malloc 8; Free 4120; Realloc NULL 24] s1 = Some s /\
    blocks_of s = Some l /\ total_size l = granted s - 24.
Proof.
  apply (total_size_C9 heap0 [Malloc 8; Free 4120; Realloc NULL 24]).
  - unfold fresh_provider, heap0, fresh, WSIZE. change CHUNKSIZE with 4096.
    cbn [mem_brk mem_heap mem_max_addr].
    change (4096 mod 8) with 0. lia.
  - intros s1 H1. vm_compute in H1. injection H1 as <-.
    split; [unfold call_ok, request_ok; split; [lia|right; vm_compute; reflexivity]|].
    intros r s2 H2. vm_compute in H2. injection H2 as <- <-.
    split; [unfold call_ok; right; vm_compute; reflexivity|].
    intros r s3 H3. vm_compute in H3. injection H3 as <- <-.
    split; [unfold call_ok, request_ok;
            split; [left; reflexivity|split; [lia|right; vm_compute; reflexivity]]|].
    intros r s4 H4. exact I.
Defined.

(** * Contents across [mm_realloc] *)

(** A client storing words into a payload, and reading them back. *)
Fixpoint write_words (p : Z) (ws : list Z) : M unit :=
  match ws with
  | [] => ret tt
  | w :: ws' => SET p w ;;; write_words (p + 4) ws'
  end.

Definition read_words (s : heap) (p : Z) (k : nat) : list Z :=
  map (fun i => mem s (p + 4 * Z.of_nat i)) (seq 0 k).

(** A block of 8 bytes is allocated and freed again, so that a free block of
    16 bytes heads the list; the block [b] of 16 bytes allocated in between
    is filled with four words and reallocated to [m] bytes. *)
Definition refill_and_realloc (m : Z) : M (Z * Z) :=
  mm_init ;;;
  a <- mm_malloc 8 ;;
  b <- mm_malloc 16 ;;
  mm_free a ;;;
  write_words b [11; 22; 33; 44] ;;;
  r <- mm_realloc b m ;;
  ret (b, r).

(** C6. Reallocating the block of 16 bytes filled with [11; 22; 33; 44] to
    [2^64 - 1] bytes returns: the result is the block at 4120 with 8 usable
    bytes, and the 16 bytes from its payload on are [11; 22; 17; 4080], the
    last two being its own footer and the header of the next block.  The
    request is rounded to 8 by the wrap-around of [adjust]. *)
Theorem realloc_huge_pattern_C6 :
  adjust (2 ^ 64 - 1) = 8 /\
  observe (refill_and_realloc (2 ^ 64 - 1))
          (fun '(b, r) s => (b, r, usable s r, read_words s r 4)) heap0
  = Some (4136, 4120, 8, [11; 22; 17; 4080]).
Proof. split; vm_compute; reflexivity. Qed.

(** Within the range of sizes that [adjust] does not wrap, the same calls
    keep the four words. *)
Lemma realloc_pattern_kept :
  observe (refill_and_realloc 40)
          (fun '(b, r) s => (b, r, usable s r, read_words s r 4)) heap0
  = Some (4136, 4160, 40, [11; 22; 33; 44]).
Proof. vm_compute. reflexivity. Qed.

(** In general: when a block in use of size [osz] is reallocated within the
    range, either nothing fits and the provider refuses (the call is then
    undefined), or the block is moved to a block in use that holds the first
    [osz - 8] bytes of the old payload when the request is larger than the
    old payload. *)
Lemma realloc_keeps_payload s LL fl ptr osz size :
  InvL s LL fl -> In (ptr, osz, true) LL -> ptr <> head s ->
  size_ok size -> osz - 8 <= size ->
  mm_realloc ptr size s = None \/
  exists p s' asz,
    mm_realloc ptr size s = Some (p, s') /\ Inv s' /\
    allocated s' p = true /\ block_size s' p = asz /\ size + 8 <= asz /\
    forall j, 0 <= j < osz - 8 -> mem s' (p + j) = mem s (ptr + j).
Proof.
  intros HI Hin Hne Hs Hle.
  destruct (mm_realloc_ok s LL fl ptr osz size HI Hin Hne Hs)
    as [[Hrun _]|(p & s' & LL' & fl' & asz & Hrun & HI' & Hp & Hph & Hasz & _ & _ & _ & _ & Hcopy)].
  - left. assumption.
  - right. exists p, s', asz.
    destruct HI' as [Hwf' Hsz'].
    pose proof (wf_layout _ _ _ _ Hwf') as Hlay'.
    pose proof (proj1 (sized_exact _ _ _ Hlay') Hsz') as Hex'.
    destruct (observe_inv s' LL' fl' Hwf' Hex') as (Hb & _ & _).
    split; [assumption|]. split; [exists LL', fl'; auto|].
    split; [|split; [|split; [assumption|]]].
    + unfold allocated. rewrite Hb. apply existsb_exists. exists (p, asz, true).
      split; [|simpl; rewrite Z.eqb_refl; reflexivity].
      destruct (lay_prologue _ _ Hlay') as [L EL]. rewrite EL in Hp |- *. simpl.
      destruct Hp as [E|Hp]; [|assumption]. inversion E. congruence.
    + rewrite Forall_forall in Hex'. specialize (Hex' _ Hp).
      unfold exact_hdr in Hex'. unfold block_size, HDR, WSIZE. exact Hex'.
    + intros j Hj. apply Hcopy. lia.
Qed.

(** * The width of the links *)

(** The heap [mm_init] leaves on the provider [heap0]. *)
Definition init_heap : heap :=
  match mm_init heap0 with
  | Some (_, s) => s
  | None => heap0
  end.

(** Four blocks of 16 bytes, the first and the third freed in that order:
    the free list holds the third, the first and the rest of the chunk. *)
Definition linked_heap : heap :=
  match (mm_init ;;; a <- mm_malloc 8 ;; _ <- mm_malloc 8 ;; b <- mm_malloc 8 ;;
         _ <- mm_malloc 8 ;; mm_free a ;;; mm_free b) heap0 with
  | Some (_, s) => s
  | None => heap0
  end.

Definition linked_blocks : list block :=
  [(4104, 16, true); (4120, 16, false); (4136, 16, true); (4152, 16, false);
   (4168, 16, true); (4184, 4032, false)].

Lemma uint_id a : uint a = a <-> 0 <= a < 2 ^ 32.
Proof.
  unfold uint. split.
  - intros <-. apply Z.mod_pos_bound. lia.
  - apply Z.mod_small.
Qed.

Lemma uint_range a : 0 <= uint a < 2 ^ 32.
Proof. unfold uint. apply Z.mod_pos_bound. lia. Qed.

Lemma run_of_bind {A} (c : M A) s a s' :
  (forall B (k : A -> M B), bind c k s = k a s') -> c s = Some (a, s').
Proof.
  intros H. specialize (H A ret). unfold bind, ret in H.
  destruct (c s) as [[a0 s0]|]; [assumption|discriminate].
Qed.

Lemma below_region_invalid t a : a < mem_heap t -> valid t a = false.
Proof.
  intros H. unfold valid. rewrite (proj2 (Z.leb_gt _ _) H), andb_false_r. reflexivity.
Qed.

(** On a region that starts at [2^32], [mm_init] succeeds and leaves 24 in
    the successor link of the sentinel where the first block is at
    [2^32 + 24]; the traversal of the next [mm_malloc] leaves the region. *)
Lemma high_region_link_lost :
  observe mm_init (fun r s => (r, head s, mem s (SUCC (head s))))
          (fresh (2 ^ 32) (2 ^ 32 + 2 ^ 20))
  = Some (0, 2 ^ 32 + 8, 24) /\
  (mm_init ;;; mm_malloc 8) (fresh (2 ^ 32) (2 ^ 32 + 2 ^ 20)) = None.
Proof. split; vm_compute; reflexivity. Qed.

(** In a region above [2^32] the scan that starts from a stored link which
    is not [NULL] reads a header outside the region. *)
Lemma high_scan_faults t asize x :
  2 ^ 32 + WSIZE <= mem_heap t -> valid t (SUCC (head t)) = true ->
  mem t (SUCC (head t)) = uint x -> uint x <> NULL ->
  first_fit asize t = None.
Proof.
  intros Hhi Hv E Hx. unfold first_fit.
  rewrite bind_get_head, bind_GET by assumption. rewrite E.
  destruct (Z.to_nat (granted t)) as [|fuel]; [reflexivity|].
  cbn [scan]. rewrite (proj2 (Z.eqb_neq _ _) Hx).
  unfold SIZE. rewrite bind_bind. unfold bind at 1, GET.
  rewrite below_region_invalid; [reflexivity|].
  pose proof (uint_range x). unfold HDR, WSIZE in *. lia.
Qed.

(** In a region above [2^32] the removal of a block whose predecessor link
    is a stored word writes outside the region. *)
Lemma high_unlink_faults t n x :
  2 ^ 32 + WSIZE <= mem_heap t ->
  valid t (PRED n) = true -> valid t (SUCC n) = true ->
  mem t (PRED n) = uint x ->
  unlink n t = None.
Proof.
  intros Hhi Hp Hs E. unfold unlink.
  rewrite bind_GET by assumption. rewrite bind_GET by assumption. rewrite E.
  unfold bind at 1, SET. rewrite below_region_invalid; [reflexivity|].
  pose proof (uint_range x). unfold SUCC, WSIZE in *. lia.
Qed.

(** In a region above [2^32] a block inserted in the empty list is linked
    by its address truncated to 32 bits, and no scan finds it. *)
Lemma high_insert_lost t asize p :
  2 ^ 32 + WSIZE <= mem_heap t ->
  valid t (SUCC (head t)) = true -> valid t (PRED p) = true -> valid t (SUCC p) = true ->
  mem t (SUCC (head t)) = NULL -> head t mod 8 = 0 -> p mod 8 = 0 -> p <> head t ->
  exists t', insert_front p t = Some (tt, t') /\
             mem t' (SUCC (head t')) = uint p /\ mem t' (PRED p) = uint (head t) /\
             uint p <> p /\
             forall r t'', first_fit asize t' = Some (r, t'') -> r <> p.
Proof.
  unfold SUCC, PRED, WSIZE, NULL. intros Hhi Hh Hp Hp4 Hf Ah Ap Hne.
  set (t' := set_mem t (insert_mem (mem t) (head t) p)).
  assert (Hge : 2 ^ 32 + 4 <= p) by (apply valid_iff in Hp; lia).
  pose proof (uint_range p) as Hr.
  assert (E1 : mem t' (head t + 4) = uint p).
  { unfold t', insert_mem, NULL. fields. rewrite Hf. cbn [Z.eqb negb].
    rewrite upd_other by lia. rewrite upd_other by (Z.div_mod_to_equations; lia).
    apply upd_same. reflexivity. }
  assert (E2 : mem t' p = uint (head t)).
  { unfold t', insert_mem, NULL. fields. rewrite Hf. cbn [Z.eqb negb].
    rewrite upd_other by lia. apply upd_same. reflexivity. }
  exists t'. split; [|split; [exact E1|split; [exact E2|split; [lia|]]]].
  - apply run_of_bind. intros B k. apply bind_insert_front; try assumption.
    left. assumption.
  - intros r t'' Hrun.
    destruct (Z.eq_dec (uint p) 0) as [Ez|Ez].
    + unfold first_fit in Hrun. rewrite bind_get_head in Hrun.
      rewrite bind_GET in Hrun by exact Hh.
      unfold SUCC, WSIZE in Hrun. change (head t') with (head t) in Hrun.
      rewrite E1, Ez in Hrun.
      destruct (Z.to_nat (granted t')) as [|fuel]; [discriminate|].
      cbn in Hrun. injection Hrun as <- _. unfold NULL. lia.
    + rewrite (high_scan_faults t' asize p) in Hrun; [discriminate| | | |].
      * exact Hhi.
      * exact Hh.
      * exact E1.
      * exact Ez.
Qed.

(** C10. On a well-formed heap, whose region ends at or below [2^32], every
    link is the address it stands for: the traversal returns the first
    listed block that is large enough; the removal of a listed block and
    its insertion at the front both run and leave a list whose successor
    and predecessor links are exact, which the traversal follows again.
    The links are words of 32 bits: an address is its own truncation only
    below [2^32], and in a region above [2^32] the traversal and the
    removal leave the region at the first stored link, and a block inserted
    in the empty list is never found again. *)
Theorem links_32bit_C10 s LL fl f1 n f2 asize :
  wf s LL fl NULL -> fl = f1 ++ n :: f2 ->
  mem_max_addr s <= 2 ^ 32 /\
  (forall x, In x (head s :: fl) -> uint x = x) /\
  free_list s = Some fl /\
  first_fit asize s = Some (fit (mem s) asize fl, s) /\
  (exists s1 s2,
     unlink n s = Some (tt, s1) /\
     chain (mem s1) (head s1) (f1 ++ f2) /\
     free_list s1 = Some (f1 ++ f2) /\
     first_fit asize s1 = Some (fit (mem s1) asize (f1 ++ f2), s1) /\
     insert_front n s1 = Some (tt, s2) /\
     chain (mem s2) (head s2) (n :: f1 ++ f2) /\
     free_list s2 = Some (n :: f1 ++ f2) /\
     first_fit asize s2 = Some (fit (mem s2) asize (n :: f1 ++ f2), s2)) /\
  (forall a, uint a = a <-> 0 <= a < 2 ^ 32) /\
  (forall t x,
     2 ^ 32 + WSIZE <= mem_heap t -> valid t (SUCC (head t)) = true ->
     mem t (SUCC (head t)) = uint x -> uint x <> NULL ->
     first_fit asize t = None) /\
  (forall t b x,
     2 ^ 32 + WSIZE <= mem_heap t ->
     valid t (PRED b) = true -> valid t (SUCC b) = true ->
     mem t (PRED b) = uint x ->
     unlink b t = None) /\
  (forall t p,
     2 ^ 32 + WSIZE <= mem_heap t ->
     valid t (SUCC (head t)) = true -> valid t (PRED p) = true ->
     valid t (SUCC p) = true ->
     mem t (SUCC (head t)) = NULL -> head t mod 8 = 0 -> p mod 8 = 0 -> p <> head t ->
     exists t', insert_front p t = Some (tt, t') /\
                mem t' (SUCC (head t')) = uint p /\ mem t' (PRED p) = uint (head t) /\
                uint p <> p /\
                forall r t'', first_fit asize t' = Some (r, t'') -> r <> p).
Proof.
  intros Hwf E.
  pose proof (wf_layout _ _ _ _ Hwf) as Hlay.
  pose proof (wf_listed _ _ _ _ Hwf) as Hlist.
  pose proof (wf_chain _ _ _ _ Hwf) as Hch.
  pose proof (listed_nodes_ok _ _ _ _ Hlay Hlist) as Hok.
  destruct (lk_head _ _ Hlay) as (K1 & K2 & K3 & K4 & K5).
  destruct (remove_unique n fl f1 f2 (nok_nodup _ _ Hok) E) as (_ & Hnd & Hin).
  assert (Hn : In n fl) by (rewrite E; apply in_or_app; right; left; reflexivity).
  assert (Hnn : ~ In n (f1 ++ f2)) by (intros H; apply Hin in H; tauto).
  assert (Hblk : forall f, In f (f1 ++ f2) -> is_block LL f).
  { intros f Hf. apply (listed_is_block _ _ _ _ Hlist). apply Hin. assumption. }
  split; [exact (lay_max _ _ Hlay)|].
  split.
  { intros x [<-|Hx]; apply uint_small; [lia|].
    destruct (node_range _ _ _ _ Hlay Hlist _ Hx) as (_ & _ & _ & ?). lia. }
  split; [exact (free_list_wf _ _ _ _ Hwf)|].
  split; [exact (first_fit_ok _ _ _ _ asize Hwf)|].
  split.
  { destruct (unlink_step s LL fl f1 n f2 Hlay Hch Hok E Hblk)
      as (Hrun1 & Hlay1 & Hch1 & Hok1 & _).
    set (s1 := set_mem s (unlink_mem (mem s) n)) in *.
    assert (Hlist1 : listed LL (f1 ++ f2) n).
    { split; [assumption|]. intros x. rewrite Hin. rewrite (proj2 Hlist x).
      split.
      - intros ((_ & Hs) & Hx). split; assumption.
      - intros (Hx & sz & Hs). split; [split|]; [|exists sz|]; try assumption.
        destruct (block_bounds _ _ Hlay _ _ _ Hs) as (_ & _ & _ & _ & _ & ? & _).
        unfold NULL. lia. }
    assert (Hwf1 : wf s1 LL (f1 ++ f2) n) by (constructor; assumption).
    destruct (node_block _ _ _ Hlist _ Hn) as [nsz Hnb].
    assert (Hnh : n <> head s1) by exact (free_not_head _ _ _ _ Hlay Hnb).
    destruct (insert_step s1 LL (f1 ++ f2) n Hlay1 Hch1 Hok1 Hblk
                (listed_is_block _ _ _ _ Hlist Hn) Hnh Hnn)
      as (Hrun2 & Hlay2 & Hch2 & _).
    set (s2 := set_mem s1 (insert_mem (mem s1) (head s1) n)) in *.
    assert (Hlist2 : listed LL (n :: f1 ++ f2) NULL).
    { split; [constructor; assumption|]. intros x. rewrite <- (proj2 Hlist x).
      split.
      - intros [<-|Hx]; [assumption|]. apply Hin in Hx. tauto.
      - intros Hx. destruct (Z.eq_dec n x) as [Ex|Ex]; [left; assumption|].
        right. apply Hin. split; [assumption|congruence]. }
    assert (Hwf2 : wf s2 LL (n :: f1 ++ f2) NULL) by (constructor; assumption).
    exists s1, s2.
    split; [apply run_of_bind; exact Hrun1|].
    split; [exact Hch1|].
    split; [exact (free_list_wf _ _ _ _ Hwf1)|].
    split; [exact (first_fit_ok _ _ _ _ asize Hwf1)|].
    split; [apply run_of_bind; exact Hrun2|].
    split; [exact Hch2|].
    split; [exact (free_list_wf _ _ _ _ Hwf2)|].
    exact (first_fit_ok _ _ _ _ asize Hwf2). }
  split; [exact uint_id|].
  split; [intros t x; apply high_scan_faults|].
  split; [intros t b x; apply high_unlink_faults|].
  intros t p. apply high_insert_lost.
Qed.

(** The free list of [linked_heap] is [4152; 4120; 4184]; the block in the
    middle is removed and inserted at the front. *)
Lemma links_32bit_C10_witness :
  exists s1 s2,
    unlink 4120 linked_heap = Some (tt, s1) /\
    free_list s1 = Some [4152; 4184] /\
    insert_front 4120 s1 = Some (tt, s2) /\
    free_list s2 = Some [4120; 4152; 4184] /\
    first_fit 32 s2 = Some (fit (mem s2) 32 [4120; 4152; 4184], s2).
Proof.
  destruct (links_32bit_C10 linked_heap linked_blocks [4152; 4120; 4184]
              [4152] 4120 [4184] 32)
    as (_ & _ & _ & _ & (s1 & s2 & H1 & _ & H2 & _ & H3 & _ & H4 & H5) & _).
  - apply wf_b_ok. vm_compute. reflexivity.
  - reflexivity.
  - exists s1, s2. repeat split; assumption.
Defined.

(** * Further properties of the code *)

(** ** Rounding of sizes (lines 35, 117-124) *)

(** X1. [ALIGN] rounds a size up to the next multiple of 8, as long as the
    sum with 7 does not leave [size_t]. *)
Theorem ALIGN_rounds_up n :
  0 <= n <= 2 ^ 64 - 8 ->
  ALIGN n mod 8 = 0 /\ n <= ALIGN n < n + 8.
Proof.
  intros H. unfold ALIGN, DWSIZE. rewrite usize_small by lia.
  rewrite land_lnot7. Z.div_mod_to_equations. lia.
Qed.

Lemma ALIGN_rounds_up_witness :
  ALIGN 13 mod 8 = 0 /\ 13 <= ALIGN 13 < 13 + 8.
Proof. apply (ALIGN_rounds_up 13). lia. Defined.

(** X2. For a request within range the block size is a multiple of 8, at
    least [MINSIZE], leaves room for the request and the two tag words, and
    is below the request plus 16 unless it is [MINSIZE]. *)
Theorem adjust_bounds size :
  0 < size <= 2 ^ 64 - 16 ->
  adjust size mod 8 = 0 /\ MINSIZE <= adjust size /\
  size + DWSIZE <= adjust size <= Z.max MINSIZE (size + 15).
Proof.
  intros H. unfold adjust, ALIGN, MINSIZE, DWSIZE.
  destruct (Z.leb_spec size (16 - 8)).
  - repeat split; try reflexivity; lia.
  - rewrite (usize_small (size + (8 - 1))) by lia. rewrite land_lnot7.
    rewrite usize_small by (Z.div_mod_to_equations; lia).
    repeat split; Z.div_mod_to_equations; lia.
Qed.

Lemma adjust_bounds_witness :
  adjust 13 mod 8 = 0 /\ MINSIZE <= adjust 13 /\
  13 + DWSIZE <= adjust 13 <= Z.max MINSIZE (13 + 15).
Proof. apply (adjust_bounds 13). lia. Defined.

(** X3. The block size computed for a request that fits [size_t] reaches
    [MINSIZE] exactly when the request is at most [2^64 - 16]; above that
    the sum wraps around and the block size is 0 or 8. *)
Theorem adjust_min_iff size :
  0 < size < 2 ^ 64 ->
  (MINSIZE <= adjust size <-> size <= 2 ^ 64 - 16) /\
  (2 ^ 64 - 16 < size -> adjust size = 0 \/ adjust size = 8).
Proof.
  intros H. unfold adjust, ALIGN, MINSIZE, DWSIZE.
  destruct (Z.leb_spec size (16 - 8)); [lia|].
  rewrite land_lnot7. unfold usize.
  split; [split|]; intros; Z.div_mod_to_equations; lia.
Qed.

Lemma adjust_min_iff_witness :
  (MINSIZE <= adjust (2 ^ 64 - 3) <-> 2 ^ 64 - 3 <= 2 ^ 64 - 16) /\
  (2 ^ 64 - 16 < 2 ^ 64 - 3 -> adjust (2 ^ 64 - 3) = 0 \/ adjust (2 ^ 64 - 3) = 8).
Proof. apply (adjust_min_iff (2 ^ 64 - 3)). lia. Defined.

(** ** Boundary tags (lines 38-44) *)

(** X4. A size that is a multiple of 8, packed with an allocation bit and
    stored in a tag word, is read back by [SIZE] modulo [2^32], and the bit
    by [ALLOC] as stored. *)
Theorem tag_round_trip s hdr sz al :
  valid s hdr = true -> 0 <= sz -> sz mod 8 = 0 -> al = FREE \/ al = ALLOCATED ->
  observe (SET hdr (PACK sz al) ;;; sz' <- SIZE hdr ;; al' <- ALLOC hdr ;; ret (sz', al'))
          (fun r _ => r) s
  = Some (uint sz, al).
Proof.
  intros Hv Hsz Hm Hal. unfold observe.
  rewrite bind_SET by assumption.
  rewrite bind_SIZE by exact Hv. rewrite bind_ALLOC by exact Hv.
  fields. rewrite upd_same by reflexivity. unfold ret. f_equal.
  assert (E : uint (PACK sz al) = uint sz + al /\ (al = 0 \/ al = 1)).
  { destruct Hal as [-> | ->].
    - rewrite PACK_free. unfold FREE. split; [lia|auto].
    - rewrite PACK_alloc by assumption. unfold ALLOCATED, uint.
      split; [Z.div_mod_to_equations; lia|auto]. }
  destruct E as [-> Hb]. rewrite land_lnot7, land_1.
  assert (uint sz mod 8 = 0) by (unfold uint; Z.div_mod_to_equations; lia).
  unfold FREE, ALLOCATED in *. f_equal; Z.div_mod_to_equations; lia.
Qed.

Lemma tag_round_trip_witness :
  observe (SET 4116 (PACK 4096 FREE) ;;;
           sz' <- SIZE 4116 ;; al' <- ALLOC 4116 ;; ret (sz', al'))
          (fun r _ => r) init_heap
  = Some (uint 4096, FREE).
Proof.
  apply (tag_round_trip init_heap 4116 4096 FREE).
  - vm_compute. reflexivity.
  - lia.
  - reflexivity.
  - left. reflexivity.
Defined.

(** ** Initialisation (lines 59, 74-103) *)

(** X5. Before [mm_init] the list head is [NULL]: a non-zero request then
    reads the word at address 4, outside the region, and the call is
    undefined, for [mm_malloc] and for [mm_realloc]. *)
Theorem malloc_before_init s size ptr :
  head s = NULL -> 4 < mem_heap s -> size <> 0 ->
  mm_malloc size s = None /\
  (ptr = NULL \/ valid s (HDR ptr) = true -> mm_realloc ptr size s = None).
Proof.
  intros Hh Hlo Hsz. apply Z.eqb_neq in Hsz.
  assert (Hv : valid s (SUCC NULL) = false).
  { unfold valid, SUCC, NULL, WSIZE.
    replace (mem_heap s <=? 0 + 4) with false by (symmetry; apply Z.leb_gt; lia).
    rewrite andb_false_r. reflexivity. }
  assert (Hob : obtain (adjust size) s = None).
  { assert (Hff : first_fit (adjust size) s = None).
    { unfold first_fit. rewrite bind_get_head, Hh. unfold bind, GET.
      rewrite Hv. reflexivity. }
    unfold obtain, bind. rewrite Hff. reflexivity. }
  split.
  - unfold mm_malloc. rewrite Hsz. unfold bind. rewrite Hob. reflexivity.
  - intros Hp. unfold mm_realloc.
    assert (Hold : exists o, (if negb (ptr =? NULL) then SIZE (HDR ptr) else ret 0) s
                             = Some (o, s)).
    { destruct Hp as [-> | Hp].
      - exists 0. reflexivity.
      - destruct (ptr =? NULL); simpl; [exists 0; reflexivity|].
        eexists. unfold SIZE, bind, GET. rewrite Hp. reflexivity. }
    destruct Hold as [o Ho]. rewrite (bind_some _ _ _ _ _ Ho). rewrite Hsz.
    unfold bind. rewrite Hob. reflexivity.
Qed.

Lemma malloc_before_init_witness :
  mm_malloc 8 heap0 = None /\
  (NULL = NULL \/ valid heap0 (HDR NULL) = true -> mm_realloc NULL 8 heap0 = None).
Proof.
  apply (malloc_before_init heap0 8 NULL).
  - reflexivity.
  - vm_compute. reflexivity.
  - discriminate.
Defined.

(** X6. On a provider that has granted nothing yet, lies below [2^32] and
    has room for 24 bytes and one chunk, [mm_init] returns 0: the sentinel
    is 8 bytes above the base, 4120 bytes are granted, the heap holds one
    free block of [CHUNKSIZE] bytes 24 bytes above the base, and the free
    list holds that block. *)
Theorem init_shape s :
  fresh_provider s ->
  exists s',
    mm_init s = Some (0, s') /\
    head s' = mem_heap s + DWSIZE /\ granted s' = 6 * WSIZE + CHUNKSIZE /\
    mem_heap s' = mem_heap s /\ mem_max_addr s' = mem_max_addr s /\
    blocks_of s' = Some [(mem_heap s + 6 * WSIZE, CHUNKSIZE, false)] /\
    free_list s' = Some [mem_heap s + 6 * WSIZE] /\
    Inv s'.
Proof.
  intros (H1 & H2 & H3 & H4 & H5).
  destruct (mm_init_ok s H1 H2 H3 H4 H5) as (s' & Hrun & HI & G1 & G2 & G3 & G4).
  pose proof (Inv_InvL s') as HII.
  assert (HInv : Inv s') by (apply HII; eauto).
  destruct HI as [Hwf Hsz].
  pose proof (proj1 (sized_exact _ _ _ (wf_layout _ _ _ _ Hwf)) Hsz) as Hex.
  destruct (observe_inv _ _ _ Hwf Hex) as (Hb & Hf & _).
  exists s'. split; [assumption|].
  unfold granted, DWSIZE, WSIZE in *. simpl tl in Hb.
  replace (mem_heap s + 6 * 4) with (head s' + 16) by lia.
  repeat split; try assumption; lia.
Qed.

Lemma init_shape_witness :
  exists s',
    mm_init heap0 = Some (0, s') /\
    head s' = mem_heap heap0 + DWSIZE /\ granted s' = 6 * WSIZE + CHUNKSIZE /\
    mem_heap s' = mem_heap heap0 /\ mem_max_addr s' = mem_max_addr heap0 /\
    blocks_of s' = Some [(mem_heap heap0 + 6 * WSIZE, CHUNKSIZE, false)] /\
    free_list s' = Some [mem_heap heap0 + 6 * WSIZE] /\
    Inv s'.
Proof.
  apply (init_shape heap0).
  unfold fresh_provider, heap0, fresh, WSIZE. change CHUNKSIZE with 4096.
  cbn [mem_brk mem_heap mem_max_addr].
  change (4096 mod 8) with 0. lia.
Defined.

(** ** Observations of a well-formed heap *)

(** The heap is well formed and no two neighbouring blocks are both free. *)
Definition InvA (s : heap) : Prop :=
  exists LL fl, InvL s LL fl /\ adjacent_free LL = false.

Lemma InvA_Inv s : InvA s -> Inv s.
Proof. intros (LL & fl & HI & _). apply Inv_InvL. eauto. Qed.

Lemma blocks_of_InvL s LL fl : InvL s LL fl -> blocks_of s = Some (tl LL).
Proof.
  intros [Hwf Hsz].
  apply (observe_inv s LL fl Hwf (proj1 (sized_exact _ _ _ (wf_layout _ _ _ _ Hwf)) Hsz)).
Qed.

Lemma free_list_InvL s LL fl : InvL s LL fl -> free_list s = Some fl.
Proof. intros [Hwf _]. apply (free_list_wf _ _ _ _ Hwf). Qed.

Lemma in_tl_InvL s LL fl a sz al :
  InvL s LL fl -> (In (a, sz, al) (tl LL) <-> In (a, sz, al) LL /\ a <> head s).
Proof.
  intros [Hwf _]. pose proof (wf_layout _ _ _ _ Hwf) as Hlay.
  destruct (lay_prologue _ _ Hlay) as [L EL].
  pose proof (lay_contig _ _ Hlay) as Hc. rewrite EL in Hc |- *. simpl in Hc |- *.
  destruct Hc as (_ & _ & _ & Hc). split.
  - intros Hin. split; [right; assumption|].
    destruct (contig_in _ _ _ _ _ _ Hc Hin) as (? & _). unfold MINSIZE in *. lia.
  - intros [[E|Hin] Hne]; [|assumption]. injection E as E _ _. congruence.
Qed.

Lemma block_size_InvL s LL fl a sz al :
  InvL s LL fl -> In (a, sz, al) LL -> block_size s a = sz /\ block_alloc s a = al.
Proof.
  intros [Hwf Hsz] Hin. pose proof (wf_layout _ _ _ _ Hwf) as Hlay.
  destruct (block_bounds _ _ Hlay _ _ _ Hin) as (P1 & P2 & P3 & P4 & P5 & P6 & P7).
  unfold block_size, block_alloc, HDR, WSIZE. split.
  - apply (Hsz _ _ _ Hin). unfold NULL. lia.
  - pose proof (lay_tags _ _ Hlay) as Ht. rewrite Forall_forall in Ht.
    rewrite (tag_header_alloc _ _ _ _ (Ht _ Hin) P4). destruct al; reflexivity.
Qed.

Lemma allocated_iff s LL fl p :
  InvL s LL fl ->
  (allocated s p = true <-> exists sz, In (p, sz, true) LL /\ p <> head s).
Proof.
  intros HI. split; [apply (allocated_in _ _ _ _ HI)|].
  intros (sz & Hin & Hne). unfold allocated. rewrite (blocks_of_InvL _ _ _ HI).
  apply existsb_exists. exists (p, sz, true).
  split; [apply (in_tl_InvL _ _ _ _ _ _ HI); auto|].
  simpl. rewrite Z.eqb_refl. reflexivity.
Qed.

Lemma allocated_false s LL fl p :
  InvL s LL fl -> (forall sz, ~ In (p, sz, true) LL) -> allocated s p = false.
Proof.
  intros HI Hn. destruct (allocated s p) eqn:E; [|reflexivity].
  apply (allocated_iff _ _ _ _ HI) in E as (sz & Hin & _). destruct (Hn sz Hin).
Qed.

(** A concrete heap is well formed when the boolean checks succeed. *)
Lemma InvA_check s LL fl :
  wf_b s LL fl NULL = true -> forallb (exact_b (mem s)) LL = true ->
  adjacent_free LL = false -> InvA s.
Proof.
  intros H1 H2 H3. exists LL, fl. split; [|assumption].
  apply wf_b_ok in H1. apply exact_b_ok in H2.
  split; [assumption|]. apply (sized_exact _ _ _ (wf_layout _ _ _ _ H1)). assumption.
Qed.

(** ** mm_free, in full *)

Lemma after_prologue s (l1 : list block) bp ptr sz al l2 :
  layout s (l1 ++ bp :: (ptr, sz, al) :: l2) -> ptr <> head s.
Proof.
  intros Hlay.
  assert (Hin : In (ptr, sz, al) (l1 ++ bp :: (ptr, sz, al) :: l2))
    by (apply in_or_app; right; right; left; reflexivity).
  pose proof (lay_contig _ _ Hlay) as Hc.
  apply contig_app in Hc as (r & Hc1 & Hc2). apply contig_le in Hc1.
  destruct bp as [[pa psz] pal]. simpl in Hc2. unfold MINSIZE in Hc2.
  destruct Hc2 as (-> & ? & _ & -> & _). lia.
Qed.

Lemma mm_free_at s l1 bp ptr sz l2 fl :
  let LL := l1 ++ bp :: (ptr, sz, true) :: l2 in
  let res := coalesced l1 bp ptr sz l2 fl in
  InvL s LL fl ->
  exists m',
    mm_free ptr s = Some (tt, set_mem s m') /\
    InvL (set_mem s m') (snd (fst res)) (snd res) /\
    (forall a sa, In (a, sa, true) (snd (fst res)) <-> In (a, sa, true) LL /\ a <> ptr) /\
    (forall a sa x, In (a, sa, true) LL -> a <> ptr -> a - 4 <= x < a + sa - 4 ->
                    x <> head s + 4 -> m' x = mem s x) /\
    (adjacent_free LL = false -> adjacent_free (snd (fst res)) = false).
Proof.
  intros LL res [Hwf Hsz]. subst LL res.
  pose proof (wf_layout _ _ _ _ Hwf) as Hlay.
  assert (Hin : In (ptr, sz, true) (l1 ++ bp :: (ptr, sz, true) :: l2))
    by (apply in_or_app; right; right; left; reflexivity).
  pose proof (after_prologue _ _ _ _ _ _ _ Hlay) as Hne.
  destruct (release_ok _ _ _ _ _ _ _ NULL Hwf Hsz) as (m' & Hrun & Hwf' & Hsz' & Hfr).
  destruct (block_bounds _ _ Hlay _ _ _ Hin) as (P1 & P2 & P3 & P4 & P5 & P6 & P7).
  destruct (lk_head _ _ Hlay) as (K1 & K2 & K3 & K4 & K5).
  exists m'.
  split; [|split; [|split; [|split]]].
  - unfold mm_free, when.
    replace (negb (ptr =? NULL)) with true
      by (symmetry; apply negb_true_iff, Z.eqb_neq; unfold NULL; lia).
    rewrite bind_SIZE by valid_tac.
    replace (Z.land (mem s (HDR ptr)) (Z.lnot 7)) with sz.
    + exact Hrun.
    + symmetry. apply (Hsz _ _ _ Hin). unfold NULL. lia.
  - split; assumption.
  - intros a sa. rewrite coalesced_alloc.
    rewrite (flip_in _ _ _ _ _ _ true false _ _ _ Hlay). split.
    + intros [(_ & _ & [=])|[H1 H2]]. tauto.
    + intros [H1 H2]. right. tauto.
  - intros a sa x Ha Hap Hx Hxh. apply Hfr; [assumption|].
    intros f szf Hf.
    apply (flip_in _ _ _ _ _ _ true false _ _ _ Hlay) in Hf as [(-> & -> & _)|[Hfp Hf]].
    + destruct (blocks_apart _ _ Hlay _ _ _ _ _ _ Ha Hin) as [(E & _)|E]; [contradiction|lia].
    + destruct (blocks_apart _ _ Hlay _ _ _ _ _ _ Ha Hf) as [(_ & _ & E)|E]; [discriminate|lia].
  - intros Hna. destruct (noadj_middle _ _ _ _ _ Hna) as [Hn1 Hn2].
    apply coalesced_noadj; assumption.
Qed.

Lemma mm_free_full s LL fl ptr sz :
  InvL s LL fl -> In (ptr, sz, true) LL -> ptr <> head s ->
  exists l1 bp l2 m',
    LL = l1 ++ bp :: (ptr, sz, true) :: l2 /\
    mm_free ptr s = Some (tt, set_mem s m') /\
    let res := coalesced l1 bp ptr sz l2 fl in
    InvL (set_mem s m') (snd (fst res)) (snd res) /\
    (forall a sa, In (a, sa, true) (snd (fst res)) <-> In (a, sa, true) LL /\ a <> ptr) /\
    (forall a sa x, In (a, sa, true) LL -> a <> ptr -> a - 4 <= x < a + sa - 4 ->
                    x <> head s + 4 -> m' x = mem s x) /\
    (adjacent_free LL = false -> adjacent_free (snd (fst res)) = false).
Proof.
  intros HI Hin Hne. pose proof HI as [Hwf _].
  destruct (block_split LL (head s) (ptr, sz, true)
              (lay_prologue _ _ (wf_layout _ _ _ _ Hwf)) Hin Hne) as (l1 & bp & l2 & E).
  subst LL. destruct (mm_free_at s l1 bp ptr sz l2 fl HI) as (m' & H).
  exists l1, bp, l2, m'. split; [reflexivity|]. exact H.
Qed.

(** ** Call sequences keep the blocks coalesced *)

(** The provider's bounds and the sentinel stay; the break only grows. *)
Definition region_grows (s s' : heap) : Prop :=
  mem_heap s' = mem_heap s /\ head s' = head s /\
  mem_max_addr s' = mem_max_addr s /\ mem_brk s <= mem_brk s'.

Lemma region_grows_refl s : region_grows s s.
Proof. unfold region_grows. repeat split; lia. Qed.

Lemma region_grows_trans s1 s2 s3 :
  region_grows s1 s2 -> region_grows s2 s3 -> region_grows s1 s3.
Proof.
  unfold region_grows. intros (A1 & A2 & A3 & A4) (B1 & B2 & B3 & B4).
  repeat split; try congruence. lia.
Qed.

Lemma call_preserves_adj s c :
  InvA s -> call_ok s c ->
  exists r s', run_call c s = Some (r, s') /\ InvA s' /\ region_grows s s'.
Proof.
  intros (LL & fl & HI & Hna) Hc.
  assert (Hsame : InvA s) by (exists LL, fl; auto).
  assert (Hmalloc : forall n, request_ok n -> n = 0 \/ served s n = true ->
            exists r s', mm_malloc n s = Some (r, s') /\ InvA s' /\ region_grows s s').
  { intros n Hn Hsv. destruct (Z.eq_dec n 0) as [->|Hn0].
    - exists NULL, s. split; [reflexivity|]. split; [assumption|apply region_grows_refl].
    - destruct Hsv as [?|Hsv]; [contradiction|].
      apply (served_iff _ _ _ _ HI) in Hsv.
      assert (Hs : size_ok n) by (unfold size_ok, request_ok in *; lia).
      destruct (mm_malloc_full s LL fl n HI Hs)
        as [(_ & Hcap & Hnf)|(p & s' & LL' & fl' & asz & fsz & fl1 & Hrun & HI' & _ & _ & _ & G
                              & _ & _ & _ & Hna' & _)].
      + destruct Hsv as [Hsv|Hsv]; [contradiction|lia].
      + exists p, s'. split; [assumption|]. split; [exists LL', fl'; auto|exact G]. }
  assert (Hfree : forall p, p = NULL \/ allocated s p = true ->
            exists s', mm_free p s = Some (tt, s') /\ InvA s' /\ region_grows s s').
  { intros p [->|Hp].
    - exists s. split; [reflexivity|]. split; [assumption|apply region_grows_refl].
    - destruct (allocated_in _ _ _ _ HI Hp) as (sz & Hin & Hne).
      destruct (mm_free_full s LL fl p sz HI Hin Hne)
        as (l1 & bp & l2 & m' & _ & Hrun & HI' & _ & _ & Hna').
      exists (set_mem s m'). split; [assumption|]. split.
      + eexists _, _. split; [exact HI'|auto].
      + unfold region_grows. fields. repeat split; lia. }
  destruct c as [n|p|p n]; simpl in *.
  - destruct Hc as [Hn Hsv]. apply Hmalloc; assumption.
  - destruct (Hfree p Hc) as (s' & Hrun & H). exists NULL, s'.
    split; [|assumption]. rewrite (bind_some _ _ _ _ _ Hrun). reflexivity.
  - destruct Hc as (Hp & Hn & Hsv).
    destruct (Z.eq_dec n 0) as [->|Hn0].
    + rewrite realloc_zero. destruct (Hfree p Hp) as (s' & Hrun & H). exists NULL, s'.
      split; [|assumption]. rewrite (bind_some _ _ _ _ _ Hrun). reflexivity.
    + destruct Hp as [->|Hp].
      * rewrite realloc_null. apply Hmalloc; assumption.
      * destruct Hsv as [?|Hsv]; [contradiction|].
        apply (served_iff _ _ _ _ HI) in Hsv.
        destruct (allocated_in _ _ _ _ HI Hp) as (sz & Hin & Hne).
        assert (Hs : size_ok n) by (unfold size_ok, request_ok in *; lia).
        destruct (mm_realloc_full s LL fl p sz n HI Hin Hne Hs)
          as [(_ & Hcap & Hnf)|(q & s' & LL' & fl' & asz & Hrun & HI' & _ & _ & _ & G1 & G2 & G3
                                & G4 & _ & _ & _ & _ & _ & _ & Hna' & _)].
        -- destruct Hsv as [Hsv|Hsv]; [contradiction|lia].
        -- exists q, s'. split; [assumption|]. split; [exists LL', fl'; auto|].
           unfold region_grows. auto.
Qed.

Lemma calls_preserve_adj cs : forall s,
  InvA s -> calls_ok s cs ->
  exists s', run_calls cs s = Some s' /\ InvA s' /\ region_grows s s'.
Proof.
  induction cs as [|c cs IH]; intros s HI Hok; simpl in *.
  - exists s. split; [reflexivity|]. split; [assumption|apply region_grows_refl].
  - destruct Hok as [Hc Hrest].
    destruct (call_preserves_adj s c HI Hc) as (r & s1 & Hrun & HI1 & G1).
    rewrite Hrun. destruct (IH s1 HI1 (Hrest r s1 Hrun)) as (s' & Hrun' & HI' & G').
    exists s'. split; [assumption|]. split; [assumption|].
    apply (region_grows_trans _ _ _ G1 G').
Qed.

Lemma init_adj s :
  fresh_provider s ->
  exists s', mm_init s = Some (0, s') /\ InvA s' /\
             mem_heap s' = mem_heap s /\ mem_max_addr s' = mem_max_addr s /\
             head s' = mem_heap s + 8 /\ mem_brk s' = mem_heap s + 6 * WSIZE + CHUNKSIZE.
Proof.
  intros (H1 & H2 & H3 & H4 & H5).
  destruct (mm_init_ok s H1 H2 H3 H4 H5) as (s' & Hrun & HI & G).
  exists s'. split; [assumption|]. split; [|exact G].
  eexists _, _. split; [exact HI|reflexivity].
Qed.

(** From a fresh provider, [mm_init] and any sequence of calls within their
    contracts run to the end and leave a well-formed, coalesced heap. *)
Lemma session_inv s0 cs :
  fresh_provider s0 ->
  (forall s1, mm_init s0 = Some (0, s1) -> calls_ok s1 cs) ->
  exists s1 s,
    mm_init s0 = Some (0, s1) /\ run_calls cs s1 = Some s /\ InvA s /\
    mem_heap s = mem_heap s0 /\ mem_max_addr s = mem_max_addr s0 /\
    head s = mem_heap s0 + 8 /\ mem_heap s0 + 6 * WSIZE + CHUNKSIZE <= mem_brk s.
Proof.
  intros Hp Hok.
  destruct (init_adj s0 Hp) as (s1 & Hinit & HI1 & E1 & E2 & E3 & E4).
  destruct (calls_preserve_adj cs s1 HI1 (Hok s1 Hinit)) as (s & Hrun & HI & G1 & G2 & G3 & G4).
  exists s1, s. split; [assumption|]. split; [assumption|]. split; [assumption|].
  split; [congruence|]. split; [congruence|]. split; [congruence|]. lia.
Qed.

(** A session used to instantiate the statements about call sequences. *)
Definition demo_calls : list call :=
  [Malloc 8; Malloc 24; Free 4120; Realloc 4136 40; Malloc 8].

Ltac fresh_heap0 :=
  unfold fresh_provider, heap0, fresh, WSIZE; change CHUNKSIZE with 4096;
  cbn [mem_brk mem_heap mem_max_addr]; change (4096 mod 8) with 0; lia.

(** The contracts of a sequence of calls, checked by running it. *)
Definition request_okb (size : Z) : bool := (0 <=? size) && (size <=? 2 ^ 64 - 16).

Definition ptr_okb (s : heap) (ptr : Z) : bool := (ptr =? NULL) || allocated s ptr.

Definition served_okb (s : heap) (size : Z) : bool := (size =? 0) || served s size.

Definition call_okb (s : heap) (c : call) : bool :=
  match c with
  | Malloc size => request_okb size && served_okb s size
  | Free ptr => ptr_okb s ptr
  | Realloc ptr size => ptr_okb s ptr && request_okb size && served_okb s size
  end.

Fixpoint calls_okb (s : heap) (cs : list call) : bool :=
  match cs with
  | [] => true
  | c :: cs' =>
      call_okb s c &&
      match run_call c s with
      | Some (_, s') => calls_okb s' cs'
      | None => false
      end
  end.

Lemma call_okb_ok s c : call_okb s c = true -> call_ok s c.
Proof.
  assert (Hr : forall n, request_okb n = true -> request_ok n).
  { intros n H. unfold request_okb in H. apply andb_true_iff in H as [H1 H2].
    apply Z.leb_le in H1, H2. split; assumption. }
  assert (Hp : forall p, ptr_okb s p = true -> p = NULL \/ allocated s p = true).
  { intros p H. unfold ptr_okb in H. apply orb_true_iff in H as [H|H]; [left|right; assumption].
    apply Z.eqb_eq. assumption. }
  assert (Hs : forall n, served_okb s n = true -> n = 0 \/ served s n = true).
  { intros n H. unfold served_okb in H. apply orb_true_iff in H as [H|H]; [left|right; assumption].
    apply Z.eqb_eq. assumption. }
  destruct c as [n|p|p n]; simpl; intros H.
  - apply andb_true_iff in H as [H1 H2]. split; [apply Hr|apply Hs]; assumption.
  - apply Hp. assumption.
  - apply andb_true_iff in H as [H1 H3]. apply andb_true_iff in H1 as [H1 H2].
    split; [apply Hp|split; [apply Hr|apply Hs]]; assumption.
Qed.

Lemma calls_okb_ok cs : forall s, calls_okb s cs = true -> calls_ok s cs.
Proof.
  induction cs as [|c cs IH]; intros s H; simpl in *; [exact I|].
  apply andb_true_iff in H as [H1 H2]. split; [apply call_okb_ok; assumption|].
  intros r s' Hrun. rewrite Hrun in H2. apply IH. assumption.
Qed.

Ltac calls_ok_tac :=
  let s1 := fresh "s" in
  let H1 := fresh "H" in
  let E := fresh "E" in
  intros s1 H1;
  assert (E : s1 = init_heap) by (unfold init_heap; rewrite H1; reflexivity);
  rewrite E; apply calls_okb_ok; vm_compute; reflexivity.

(** X7. After [mm_init] on a fresh provider and any sequence of calls made
    within their contracts (pointers [NULL] or in use, sizes within range,
    every non-zero request served by a listed block that fits or by a
    growth the provider grants), every call returns and no two neighbouring
    blocks of the heap are both free. *)
Theorem session_no_adjacent_free s0 cs :
  fresh_provider s0 ->
  (forall s1, mm_init s0 = Some (0, s1) -> calls_ok s1 cs) ->
  exists s1 s l,
    mm_init s0 = Some (0, s1) /\ run_calls cs s1 = Some s /\
    blocks_of s = Some l /\ adjacent_free l = false.
Proof.
  intros Hp Hok.
  destruct (session_inv s0 cs Hp Hok) as (s1 & s & Hinit & Hrun & (LL & fl & HI & Hna) & _).
  exists s1, s, (tl LL). split; [assumption|]. split; [assumption|].
  split; [apply (blocks_of_InvL _ _ _ HI)|].
  destruct HI as [Hwf _]. destruct (lay_prologue _ _ (wf_layout _ _ _ _ Hwf)) as [L EL].
  rewrite EL in Hna |- *. rewrite adj_cons in Hna. simpl in Hna |- *. exact Hna.
Qed.

Lemma session_no_adjacent_free_witness :
  exists s1 s l,
    mm_init heap0 = Some (0, s1) /\ run_calls demo_calls s1 = Some s /\
    blocks_of s = Some l /\ adjacent_free l = false.
Proof.
  apply (session_no_adjacent_free heap0 demo_calls).
  - fresh_heap0.
  - calls_ok_tac.
Defined.

(** X8. After such a session (every call within its contract, every
    non-zero request served) the free list, followed from the sentinel,
    ends, has no duplicates and holds exactly the blocks whose header marks
    them free. *)
Theorem session_free_list_exact s0 cs :
  fresh_provider s0 ->
  (forall s1, mm_init s0 = Some (0, s1) -> calls_ok s1 cs) ->
  exists s1 s l fl,
    mm_init s0 = Some (0, s1) /\ run_calls cs s1 = Some s /\
    blocks_of s = Some l /\ free_list s = Some fl /\
    NoDup fl /\ forall a, In a fl <-> In a (free_blocks l).
Proof.
  intros Hp Hok.
  destruct (session_inv s0 cs Hp Hok) as (s1 & s & Hinit & Hrun & (LL & fl & HI & _) & _).
  exists s1, s, (tl LL), fl. split; [assumption|]. split; [assumption|].
  split; [apply (blocks_of_InvL _ _ _ HI)|].
  split; [apply (free_list_InvL _ _ _ HI)|].
  pose proof HI as [Hwf _]. pose proof (wf_layout _ _ _ _ Hwf) as Hlay.
  destruct (wf_listed _ _ _ _ Hwf) as [Hnd Hin]. split; [assumption|].
  intros a. rewrite Hin, free_blocks_in. unfold NULL. split.
  - intros [_ [sz Hb]]. exists sz. apply (in_tl_InvL _ _ _ _ _ _ HI).
    split; [assumption|]. apply (free_not_head _ _ _ _ Hlay Hb).
  - intros [sz Hb]. apply (in_tl_InvL _ _ _ _ _ _ HI) in Hb as [Hb _].
    destruct (block_bounds _ _ Hlay _ _ _ Hb) as (_ & _ & _ & _ & _ & ? & _).
    split; [lia|]. exists sz. assumption.
Qed.

Lemma session_free_list_exact_witness :
  exists s1 s l fl,
    mm_init heap0 = Some (0, s1) /\ run_calls demo_calls s1 = Some s /\
    blocks_of s = Some l /\ free_list s = Some fl /\
    NoDup fl /\ forall a, In a fl <-> In a (free_blocks l).
Proof.
  apply (session_free_list_exact heap0 demo_calls).
  - fresh_heap0.
  - calls_ok_tac.
Defined.

(** X9. After such a session (every call within its contract, every
    non-zero request served) every block met between the prologue and the
    epilogue starts at an 8-aligned address inside the region, has a size
    that is a multiple of 8 and at least [MINSIZE], and carries that size in
    its header and in its footer. *)
Theorem session_blocks_tagged s0 cs :
  fresh_provider s0 ->
  (forall s1, mm_init s0 = Some (0, s1) -> calls_ok s1 cs) ->
  exists s1 s l,
    mm_init s0 = Some (0, s1) /\ run_calls cs s1 = Some s /\
    blocks_of s = Some l /\
    forall a sz al, In (a, sz, al) l ->
      a mod 8 = 0 /\ sz mod 8 = 0 /\ MINSIZE <= sz /\
      mem_heap s + 6 * WSIZE <= a /\ a + sz <= mem_brk s /\
      Z.land (mem s (HDR a)) (Z.lnot 7) = sz /\
      Z.land (mem s (a + sz - DWSIZE)) (Z.lnot 7) = sz.
Proof.
  intros Hp Hok.
  destruct (session_inv s0 cs Hp Hok) as (s1 & s & Hinit & Hrun & (LL & fl & HI & _) & _).
  exists s1, s, (tl LL). split; [assumption|]. split; [assumption|].
  split; [apply (blocks_of_InvL _ _ _ HI)|].
  intros a sz al Hb. apply (in_tl_InvL _ _ _ _ _ _ HI) in Hb as [Hb Hne].
  pose proof HI as [Hwf Hsz]. pose proof (wf_layout _ _ _ _ Hwf) as Hlay.
  destruct (block_bounds _ _ Hlay _ _ _ Hb) as (P1 & P2 & P3 & P4 & P5 & P6 & P7).
  destruct (blocks_apart _ _ Hlay _ _ _ _ _ _ (head_block _ _ Hlay) Hb) as [(E & _)|P8];
    [congruence|].
  pose proof (lay_head _ _ Hlay) as Hh.
  pose proof (lay_tags _ _ Hlay) as Ht. rewrite Forall_forall in Ht. specialize (Ht _ Hb).
  unfold MINSIZE, WSIZE, DWSIZE, HDR in *.
  split; [assumption|]. split; [assumption|]. split; [assumption|].
  split; [lia|]. split; [assumption|]. split.
  - apply (Hsz _ _ _ Hb). unfold NULL. lia.
  - unfold tag in Ht. destruct al; destruct Ht as [T1 T2]; [assumption|].
    rewrite T2, land_lnot7. lia.
Qed.

Lemma session_blocks_tagged_witness :
  exists s1 s l,
    mm_init heap0 = Some (0, s1) /\ run_calls demo_calls s1 = Some s /\
    blocks_of s = Some l /\
    forall a sz al, In (a, sz, al) l ->
      a mod 8 = 0 /\ sz mod 8 = 0 /\ MINSIZE <= sz /\
      mem_heap s + 6 * WSIZE <= a /\ a + sz <= mem_brk s /\
      Z.land (mem s (HDR a)) (Z.lnot 7) = sz /\
      Z.land (mem s (a + sz - DWSIZE)) (Z.lnot 7) = sz.
Proof.
  apply (session_blocks_tagged heap0 demo_calls).
  - fresh_heap0.
  - calls_ok_tac.
Defined.

(** X10. Such a session (every call within its contract, every non-zero
    request served) never moves the sentinel or the bounds of the
    provider, never hands memory back (at least the 4120 bytes of
    [mm_init] stay granted), stays within the provider's limit, and leaves
    the epilogue header in the last word of the region. *)
Theorem session_region s0 cs :
  fresh_provider s0 ->
  (forall s1, mm_init s0 = Some (0, s1) -> calls_ok s1 cs) ->
  exists s1 s,
    mm_init s0 = Some (0, s1) /\ run_calls cs s1 = Some s /\
    mem_heap s = mem_heap s0 /\ mem_max_addr s = mem_max_addr s0 /\
    head s = mem_heap s0 + DWSIZE /\
    6 * WSIZE + CHUNKSIZE <= granted s /\ mem_brk s <= mem_max_addr s /\
    mem s (mem_brk s - WSIZE) = PACK 0 ALLOCATED.
Proof.
  intros Hp Hok.
  destruct (session_inv s0 cs Hp Hok)
    as (s1 & s & Hinit & Hrun & (LL & fl & [Hwf _] & _) & E1 & E2 & E3 & E4).
  pose proof (wf_layout _ _ _ _ Hwf) as Hlay.
  exists s1, s. split; [assumption|]. split; [assumption|].
  split; [assumption|]. split; [assumption|]. split; [exact E3|].
  unfold granted. split; [lia|]. split; [apply (lay_brk _ _ Hlay)|].
  apply (lay_epilogue _ _ Hlay).
Qed.

Lemma session_region_witness :
  exists s1 s,
    mm_init heap0 = Some (0, s1) /\ run_calls demo_calls s1 = Some s /\
    mem_heap s = mem_heap heap0 /\ mem_max_addr s = mem_max_addr heap0 /\
    head s = mem_heap heap0 + DWSIZE /\
    6 * WSIZE + CHUNKSIZE <= granted s /\ mem_brk s <= mem_max_addr s /\
    mem s (mem_brk s - WSIZE) = PACK 0 ALLOCATED.
Proof.
  apply (session_region heap0 demo_calls).
  - fresh_heap0.
  - calls_ok_tac.
Defined.

(** ** Single calls on a well-formed heap *)

(** A heap with blocks in use on both sides of a free block: of three
    blocks of 16, 32 and 16 bytes the middle one has been freed. *)
Definition busy_heap : heap :=
  match (mm_init ;;; _ <- mm_malloc 8 ;; b <- mm_malloc 24 ;; _ <- mm_malloc 8 ;;
         mm_free b) heap0 with
  | Some (_, s) => s
  | None => heap0
  end.

Definition busy_blocks : list block :=
  [(4104, 16, true); (4120, 16, true); (4136, 32, false); (4168, 16, true);
   (4184, 4032, false)].

Ltac busy_invA :=
  apply (InvA_check busy_heap busy_blocks [4136; 4184]); vm_compute; reflexivity.

Ltac busy_inv := apply InvA_Inv; busy_invA.

(** X11. On a well-formed heap a request within range that can be served
    (a listed block fits, or the provider can grant the growth) returns the
    address, never [NULL], of a block in use that is 8-aligned, lies between
    the prologue and the epilogue, and whose size is the adjusted request or
    8 bytes more, so that its payload holds the request.  The heap stays
    well formed. *)
Theorem malloc_block s size :
  Inv s -> size_ok size -> served s size = true ->
  exists p s',
    mm_malloc size s = Some (p, s') /\ Inv s' /\
    p <> NULL /\ allocated s' p = true /\ p mod 8 = 0 /\
    adjust size <= block_size s' p <= adjust size + 8 /\
    size <= usable s' p /\
    mem_heap s' + 6 * WSIZE <= p /\ p + usable s' p + DWSIZE <= mem_brk s'.
Proof.
  intros HInv Hsize Hsv. apply Inv_InvL in HInv as (LL & fl & HI).
  apply (served_iff _ _ _ _ HI) in Hsv.
  destruct (adjust_ok size Hsize) as (A1 & A2 & A3).
  destruct (mm_malloc_full s LL fl size HI Hsize)
    as [(_ & Hcap & Hnf)|(p & s' & LL' & fl' & asz & fsz & fl1 & Hrun & HI' & Hin & Hne & Has & _)].
  - destruct Hsv as [Hsv|Hsv]; [contradiction|lia].
  - exists p, s'. split; [assumption|]. split; [apply Inv_InvL; eauto|].
    pose proof HI' as [Hwf' _]. pose proof (wf_layout _ _ _ _ Hwf') as Hlay'.
    destruct (block_bounds _ _ Hlay' _ _ _ Hin) as (P1 & P2 & P3 & P4 & P5 & P6 & P7).
    destruct (blocks_apart _ _ Hlay' _ _ _ _ _ _ (head_block _ _ Hlay') Hin) as [(E & _)|P8];
      [congruence|].
    pose proof (lay_head _ _ Hlay') as Hh.
    destruct (block_size_InvL _ _ _ _ _ _ HI' Hin) as [Ebs _].
    unfold usable. rewrite Ebs. unfold NULL, MINSIZE, WSIZE, DWSIZE in *.
    split; [lia|]. split; [apply (allocated_iff _ _ _ _ HI'); eauto|].
    repeat split; try assumption; lia.
Qed.

Lemma malloc_block_witness :
  exists p s',
    mm_malloc 20 busy_heap = Some (p, s') /\ Inv s' /\
    p <> NULL /\ allocated s' p = true /\ p mod 8 = 0 /\
    adjust 20 <= block_size s' p <= adjust 20 + 8 /\
    20 <= usable s' p /\
    mem_heap s' + 6 * WSIZE <= p /\ p + usable s' p + DWSIZE <= mem_brk s'.
Proof.
  apply (malloc_block busy_heap 20).
  - busy_inv.
  - unfold size_ok. lia.
  - vm_compute. reflexivity.
Defined.

(** X12. A served [mm_malloc] never hands out a block that is in use and
    never touches one: the blocks in use before the call are in use after it
    with the same size, header, payload and footer, they do not overlap the
    block returned, and the only new block in use is the one returned. *)
Theorem malloc_keeps_blocks s size :
  Inv s -> size_ok size -> served s size = true ->
  exists p s',
    mm_malloc size s = Some (p, s') /\
    allocated s p = false /\
    (forall q, allocated s' q = true -> q = p \/ allocated s q = true) /\
    (forall q, allocated s q = true ->
       allocated s' q = true /\ block_size s' q = block_size s q /\
       (q + block_size s q <= p \/ p + block_size s' p <= q) /\
       forall x, q - WSIZE <= x < q + block_size s q - WSIZE -> mem s' x = mem s x).
Proof.
  intros HInv Hsize Hsv. apply Inv_InvL in HInv as (LL & fl & HI).
  apply (served_iff _ _ _ _ HI) in Hsv.
  destruct (mm_malloc_full s LL fl size HI Hsize)
    as [(_ & Hcap & Hnf)|(p & s' & LL' & fl' & asz & fsz & fl1 & Hrun & HI' & Hin & Hne & Has & G
                          & Hal & Hfresh & Hkeep & _)].
  - destruct Hsv as [Hsv|Hsv]; [contradiction|lia].
  - exists p, s'. split; [assumption|].
    destruct G as (G1 & G2 & G3 & G4).
    pose proof HI as [Hwf _]. pose proof (wf_layout _ _ _ _ Hwf) as Hlay.
    pose proof HI' as [Hwf' _]. pose proof (wf_layout _ _ _ _ Hwf') as Hlay'.
    split; [apply (allocated_false _ _ _ _ HI Hfresh)|]. split.
    + intros q Hq. apply (allocated_iff _ _ _ _ HI') in Hq as (sz & Hq & Hqh).
      apply Hal in Hq as [[-> _]|[Hqp Hq]]; [left; reflexivity|right].
      apply (allocated_iff _ _ _ _ HI). exists sz. split; [assumption|congruence].
    + intros q Hq. apply (allocated_iff _ _ _ _ HI) in Hq as (sz & Hq & Hqh).
      assert (Hqp : q <> p) by (intros ->; apply (Hfresh sz); assumption).
      assert (Hq' : In (q, sz, true) LL') by (apply Hal; right; auto).
      destruct (block_size_InvL _ _ _ _ _ _ HI Hq) as [E1 _].
      destruct (block_size_InvL _ _ _ _ _ _ HI' Hq') as [E2 _].
      destruct (block_size_InvL _ _ _ _ _ _ HI' Hin) as [E3 _].
      rewrite E1, E2, E3.
      split; [apply (allocated_iff _ _ _ _ HI'); exists sz; split; [assumption|congruence]|].
      split; [reflexivity|]. split.
      * destruct (blocks_apart _ _ Hlay' _ _ _ _ _ _ Hq' Hin) as [(E & _)|E];
          [contradiction|exact E].
      * intros x Hx. unfold WSIZE in Hx. apply (Hkeep q sz x Hq Hx).
        destruct (blocks_apart _ _ Hlay _ _ _ _ _ _ (head_block _ _ Hlay) Hq) as [(E & _)|E];
          [congruence|]. unfold MINSIZE in E. lia.
Qed.

Lemma malloc_keeps_blocks_witness :
  exists p s',
    mm_malloc 20 busy_heap = Some (p, s') /\
    allocated busy_heap p = false /\
    (forall q, allocated s' q = true -> q = p \/ allocated busy_heap q = true) /\
    (forall q, allocated busy_heap q = true ->
       allocated s' q = true /\ block_size s' q = block_size busy_heap q /\
       (q + block_size busy_heap q <= p \/ p + block_size s' p <= q) /\
       forall x, q - WSIZE <= x < q + block_size busy_heap q - WSIZE ->
                 mem s' x = mem busy_heap x).
Proof.
  apply (malloc_keeps_blocks busy_heap 20).
  - busy_inv.
  - unfold size_ok. lia.
  - vm_compute. reflexivity.
Defined.

Lemma fit_first m a fa f fb :
  (forall g, In g fa -> Z.land (m (g - 4)) (Z.lnot 7) < a) ->
  a <= Z.land (m (f - 4)) (Z.lnot 7) ->
  fit m a (fa ++ f :: fb) = f.
Proof.
  intros Hfa Hf. induction fa as [|g fa IH]; simpl.
  - destruct (Z.geb_spec (Z.land (m (f - 4)) (Z.lnot 7)) a); [reflexivity|lia].
  - destruct (Z.geb_spec (Z.land (m (g - 4)) (Z.lnot 7)) a) as [H|H].
    + specialize (Hfa g (or_introl eq_refl)). lia.
    + apply IH. intros x Hx. apply Hfa. right. assumption.
Qed.

(** X13. On a well-formed heap a request within range is undefined (the
    code stores through [(void * ) -1]) exactly when no block on the free
    list is large enough for the adjusted size and the provider cannot grant
    the growth of [max(asize, CHUNKSIZE)] bytes; in every other case a block
    is returned.  [NULL] is never returned for such a request. *)
Theorem malloc_returns_iff s size :
  Inv s -> size_ok size ->
  exists fl,
    free_list s = Some fl /\
    (mm_malloc size s = None <->
     (forall f, In f fl -> block_size s f < adjust size) /\
     mem_max_addr s < mem_brk s + exsize_of (adjust size)) /\
    (forall p s', mm_malloc size s = Some (p, s') -> p <> NULL).
Proof.
  intros HInv Hsize. apply Inv_InvL in HInv as (LL & fl & HI).
  pose proof (fit_null_iff (mem s) (adjust size) fl (fun f => listed_nonzero _ _ _ f HI)) as Hfit.
  exists fl. split; [apply (free_list_InvL _ _ _ HI)|].
  destruct (mm_malloc_full s LL fl size HI Hsize)
    as [(Hrun & Hcap & Hnf)|(p & s' & LL' & fl' & asz & fsz & fl1 & Hrun & HI' & Hin & Hne & Has
                             & G & _ & _ & _ & _ & _ & Hfy & Hfn & _)].
  - split; [|intros p s' E; congruence].
    split; [|intros _; assumption]. intros _. split; [|assumption].
    intros f Hf. apply (proj1 Hfit Hnf). assumption.
  - pose proof HI' as [Hwf' _]. pose proof (wf_layout _ _ _ _ Hwf') as Hlay'.
    destruct (block_bounds _ _ Hlay' _ _ _ Hin) as (_ & _ & _ & _ & _ & P6 & _).
    split.
    + split; [intros E; congruence|].
      intros [Hsmall Hcap]. exfalso.
      assert (Hnf : fit (mem s) (adjust size) fl = NULL) by (apply Hfit; exact Hsmall).
      destruct (Hfn Hnf) as (Eb & _).
      pose proof (lay_brk _ _ Hlay') as Hb. destruct G as (_ & _ & G3 & _). lia.
    + intros q s2 E. rewrite Hrun in E. injection E as <- _. unfold NULL. lia.
Qed.

Lemma malloc_returns_iff_witness :
  exists fl,
    free_list busy_heap = Some fl /\
    (mm_malloc 20 busy_heap = None <->
     (forall f, In f fl -> block_size busy_heap f < adjust 20) /\
     mem_max_addr busy_heap < mem_brk busy_heap + exsize_of (adjust 20)) /\
    (forall p s', mm_malloc 20 busy_heap = Some (p, s') -> p <> NULL).
Proof.
  apply (malloc_returns_iff busy_heap 20).
  - busy_inv.
  - unfold size_ok. lia.
Defined.

(** X14. First fit: when the blocks before [f] on the free list are too
    small for the adjusted size and [f] is large enough, [mm_malloc] returns
    [f] and does not grow the region.  If fewer than [MINSIZE] bytes would
    be left over, the block keeps its size and leaves the list; otherwise
    the block shrinks to the adjusted size and the rest becomes a free block
    at the front of the list. *)
Theorem malloc_first_fit s size fa f fb :
  InvA s -> size_ok size ->
  free_list s = Some (fa ++ f :: fb) ->
  (forall g, In g fa -> block_size s g < adjust size) ->
  adjust size <= block_size s f ->
  exists s',
    mm_malloc size s = Some (f, s') /\ mem_brk s' = mem_brk s /\
    ((block_size s f - adjust size < MINSIZE /\
      block_size s' f = block_size s f /\ free_list s' = Some (fa ++ fb)) \/
     (MINSIZE <= block_size s f - adjust size /\
      block_size s' f = adjust size /\
      free_list s' = Some ((f + adjust size) :: fa ++ fb) /\
      block_size s' (f + adjust size) = block_size s f - adjust size /\
      block_alloc s' (f + adjust size) = false)).
Proof.
  intros (LL & fl & HI & Hna) Hsize Hfl Hsmall Hbig.
  rewrite (free_list_InvL _ _ _ HI) in Hfl. injection Hfl as Efl.
  assert (Hf : In f fl) by (rewrite Efl; apply in_or_app; right; left; reflexivity).
  assert (Efit : fit (mem s) (adjust size) fl = f).
  { rewrite Efl. apply fit_first; assumption. }
  assert (Hnn : fit (mem s) (adjust size) fl <> NULL).
  { rewrite Efit. apply (listed_nonzero _ _ _ _ HI Hf). }
  pose proof HI as [Hwf _].
  destruct (remove_unique f fl fa fb (proj1 (wf_listed _ _ _ _ Hwf)) Efl) as (Erm & _ & _).
  destruct (mm_malloc_full s LL fl size HI Hsize)
    as [(_ & _ & Hnf)|(p & s' & LL' & fl' & asz & fsz & fl1 & Hrun & HI' & Hin & Hne & Has
                       & G & _ & _ & _ & _ & _ & Hfy & _ & Hsplit)];
    [contradiction|].
  destruct (Hfy Hnn) as (Ep & Eb & Hpf & E1). rewrite Efit in Ep. subst p fl1.
  destruct (block_size_InvL _ _ _ _ _ _ HI Hpf) as [Efs _].
  destruct (block_size_InvL _ _ _ _ _ _ HI' Hin) as [Eas _].
  exists s'. split; [assumption|]. split; [assumption|].
  rewrite Efs, Eas. rewrite Erm in Hsplit.
  destruct Hsplit as [(E1 & E2 & E3)|(E1 & E2 & _ & rsz & Hr & Hex)].
  - left. split; [assumption|]. split; [assumption|].
    rewrite (free_list_InvL _ _ _ HI'). rewrite E3. reflexivity.
  - right. destruct (Hex Hna) as [Er Efl']. rewrite E1 in *.
    destruct (block_size_InvL _ _ _ _ _ _ HI' Hr) as [Ers Era].
    split; [lia|]. split; [reflexivity|].
    split; [rewrite (free_list_InvL _ _ _ HI'), Efl'; reflexivity|].
    split; [rewrite Ers; assumption|assumption].
Qed.

Lemma malloc_first_fit_witness :
  exists s',
    mm_malloc 100 busy_heap = Some (4184, s') /\ mem_brk s' = mem_brk busy_heap /\
    ((block_size busy_heap 4184 - adjust 100 < MINSIZE /\
      block_size s' 4184 = block_size busy_heap 4184 /\ free_list s' = Some ([4136] ++ [])) \/
     (MINSIZE <= block_size busy_heap 4184 - adjust 100 /\
      block_size s' 4184 = adjust 100 /\
      free_list s' = Some ((4184 + adjust 100) :: [4136] ++ []) /\
      block_size s' (4184 + adjust 100) = block_size busy_heap 4184 - adjust 100 /\
      block_alloc s' (4184 + adjust 100) = false)).
Proof.
  apply (malloc_first_fit busy_heap 100 [4136] 4184 []).
  - busy_invA.
  - unfold size_ok. lia.
  - vm_compute. reflexivity.
  - intros g [<-|[]]. vm_compute. reflexivity.
  - vm_compute. discriminate.
Defined.

(** X15. When no block on the free list is large enough and the provider
    has room, [mm_malloc] grows the region by exactly
    [max(asize, CHUNKSIZE)] bytes and returns a block that starts at the old
    break, or, when the last block of the heap was free, at that block; in
    both cases the block reaches beyond the old break. *)
Theorem malloc_grows s size fl :
  Inv s -> size_ok size ->
  free_list s = Some fl ->
  (forall f, In f fl -> block_size s f < adjust size) ->
  mem_brk s + exsize_of (adjust size) <= mem_max_addr s ->
  exists p s',
    mm_malloc size s = Some (p, s') /\ p <> NULL /\
    mem_brk s' = mem_brk s + exsize_of (adjust size) /\
    p <= mem_brk s < p + block_size s' p /\
    (p = mem_brk s \/ (allocated s p = false /\ block_alloc s p = false)).
Proof.
  intros HInv Hsize Hfl Hsmall Hroom. apply Inv_InvL in HInv as (LL & fl0 & HI).
  rewrite (free_list_InvL _ _ _ HI) in Hfl. injection Hfl as ->.
  assert (Hnf : fit (mem s) (adjust size) fl = NULL).
  { apply fit_null_iff; [intros f Hf; apply (listed_nonzero _ _ _ _ HI Hf)|exact Hsmall]. }
  destruct (mm_malloc_full s LL fl size HI Hsize)
    as [(_ & Hcap & _)|(p & s' & LL' & fl' & asz & fsz & fl1 & Hrun & HI' & Hin & Hne & Has
                        & G & _ & Hfresh & _ & _ & _ & _ & Hfn & _)];
    [lia|].
  destruct (Hfn Hnf) as (Eb & Hla & Hlf).
  pose proof HI as [Hwf _]. pose proof (wf_layout _ _ _ _ Hwf) as Hlay.
  pose proof HI' as [Hwf' _]. pose proof (wf_layout _ _ _ _ Hwf') as Hlay'.
  destruct (block_bounds _ _ Hlay' _ _ _ Hin) as (_ & _ & P3 & _ & _ & P6 & _).
  destruct (block_size_InvL _ _ _ _ _ _ HI' Hin) as [Eas _].
  exists p, s'. split; [assumption|]. split; [unfold NULL; lia|]. split; [assumption|].
  rewrite Eas.
  destruct (last_alloc LL) eqn:El.
  - destruct (Hla eq_refl) as (Ep & _). split; [lia|left; assumption].
  - destruct (Hlf eq_refl) as (_ & l0 & psz & ELL & _).
    assert (Hpb : In (p, psz, false) LL).
    { rewrite ELL. apply in_or_app. right. left. reflexivity. }
    pose proof (lay_contig _ _ Hlay) as Hc. rewrite ELL in Hc.
    apply contig_app in Hc as (r & _ & Hc). simpl in Hc. destruct Hc as (<- & H16 & _ & Ebrk).
    unfold MINSIZE in H16.
    assert (Hpl : In p fl).
    { apply (proj2 (wf_listed _ _ _ _ Hwf)). split; [unfold NULL; lia|]. exists psz. assumption. }
    destruct (block_size_InvL _ _ _ _ _ _ HI Hpb) as [Eps Epa].
    specialize (Hsmall p Hpl). rewrite Eps in Hsmall.
    split; [lia|]. right. split; [|assumption].
    apply (allocated_false _ _ _ _ HI Hfresh).
Qed.

Lemma malloc_grows_witness :
  exists p s',
    mm_malloc 5000 busy_heap = Some (p, s') /\ p <> NULL /\
    mem_brk s' = mem_brk busy_heap + exsize_of (adjust 5000) /\
    p <= mem_brk busy_heap < p + block_size s' p /\
    (p = mem_brk busy_heap \/
     (allocated busy_heap p = false /\ block_alloc busy_heap p = false)).
Proof.
  apply (malloc_grows busy_heap 5000 [4136; 4184]).
  - busy_inv.
  - unfold size_ok. lia.
  - vm_compute. reflexivity.
  - intros f [<-|[<-|[]]]; vm_compute; reflexivity.
  - vm_compute. discriminate.
Defined.

(** ** mm_free (lines 197-207) *)

(** X16. On a well-formed heap [mm_free] of a block in use returns: the
    block is no longer in use, every other block in use stays in use with
    its size, header, payload and footer, the region keeps its bounds (no
    memory goes back to the provider), and the heap stays well formed. *)
Theorem free_releases s p :
  Inv s -> allocated s p = true ->
  exists s',
    mm_free p s = Some (tt, s') /\ Inv s' /\ same_region s s' /\
    allocated s' p = false /\
    (forall q, q <> p -> allocated s' q = allocated s q) /\
    (forall q, allocated s q = true -> q <> p ->
       block_size s' q = block_size s q /\
       forall x, q - WSIZE <= x < q + block_size s q - WSIZE -> mem s' x = mem s x).
Proof.
  intros HInv Hp. apply Inv_InvL in HInv as (LL & fl & HI).
  destruct (allocated_in _ _ _ _ HI Hp) as (sz & Hin & Hne).
  destruct (mm_free_full s LL fl p sz HI Hin Hne)
    as (l1 & bp & l2 & m' & ELL & Hrun & HI' & Hal & Hkeep & _).
  set (LL' := snd (fst (coalesced l1 bp p sz l2 fl))) in *.
  set (fl' := snd (coalesced l1 bp p sz l2 fl)) in *.
  pose proof HI as [Hwf _]. pose proof (wf_layout _ _ _ _ Hwf) as Hlay.
  assert (Hiff : forall q, allocated (set_mem s m') q = true <-> allocated s q = true /\ q <> p).
  { intros q. rewrite (allocated_iff _ _ _ _ HI'), (allocated_iff _ _ _ _ HI). fields. split.
    - intros (sq & Hq & Hqh). apply Hal in Hq as [Hq Hqp]. split; [eauto|assumption].
    - intros [(sq & Hq & Hqh) Hqp]. exists sq. split; [apply Hal; auto|assumption]. }
  exists (set_mem s m'). split; [assumption|]. split; [apply Inv_InvL; eauto|].
  split; [apply same_region_set_mem|]. split; [|split].
  - destruct (allocated (set_mem s m') p) eqn:E; [|reflexivity].
    apply Hiff in E as [_ E]. contradiction.
  - intros q Hq. destruct (allocated s q) eqn:E.
    + apply Hiff. auto.
    + destruct (allocated (set_mem s m') q) eqn:E'; [|reflexivity].
      apply Hiff in E' as [E' _]. congruence.
  - intros q Hq Hqp. apply (allocated_iff _ _ _ _ HI) in Hq as (sq & Hq & Hqh).
    assert (Hq' : In (q, sq, true) LL') by (apply Hal; auto).
    destruct (block_size_InvL _ _ _ _ _ _ HI Hq) as [E1 _].
    destruct (block_size_InvL _ _ _ _ _ _ HI' Hq') as [E2 _].
    rewrite E1, E2. split; [reflexivity|].
    intros x Hx. unfold WSIZE in Hx. fields. apply (Hkeep q sq x Hq Hqp Hx).
    destruct (blocks_apart _ _ Hlay _ _ _ _ _ _ (head_block _ _ Hlay) Hq) as [(E & _)|E];
      [congruence|]. unfold MINSIZE in E. lia.
Qed.

Lemma free_releases_witness :
  exists s',
    mm_free 4168 busy_heap = Some (tt, s') /\ Inv s' /\ same_region busy_heap s' /\
    allocated s' 4168 = false /\
    (forall q, q <> 4168 -> allocated s' q = allocated busy_heap q) /\
    (forall q, allocated busy_heap q = true -> q <> 4168 ->
       block_size s' q = block_size busy_heap q /\
       forall x, q - WSIZE <= x < q + block_size busy_heap q - WSIZE ->
                 mem s' x = mem busy_heap x).
Proof.
  apply (free_releases busy_heap 4168).
  - busy_inv.
  - vm_compute. reflexivity.
Defined.

Lemma snoc_case {A} (l : list A) : l = [] \/ exists l0 b, l = l0 ++ [b].
Proof. induction l using rev_ind; eauto. Qed.

Lemma free_obs s L1 bp p sz l2 fl :
  let res := coalesced L1 bp p sz l2 fl in
  InvL s (L1 ++ bp :: (p, sz, true) :: l2) fl ->
  exists s',
    mm_free p s = Some (tt, s') /\ same_region s s' /\
    InvL s' (snd (fst res)) (snd res) /\
    blocks_of s' = Some (tl (snd (fst res))) /\ free_list s' = Some (snd res).
Proof.
  intros res HI. destruct (mm_free_at s L1 bp p sz l2 fl HI) as (m' & Hrun & HI' & _).
  exists (set_mem s m'). split; [assumption|]. split; [apply same_region_set_mem|].
  split; [exact HI'|]. split.
  - apply (blocks_of_InvL _ _ _ HI').
  - apply (free_list_InvL _ _ _ HI').
Qed.

(** The layout of a well-formed heap is the prologue followed by the blocks
    observed. *)
Lemma InvL_blocks s LL fl l :
  InvL s LL fl -> blocks_of s = Some l -> LL = (head s, MINSIZE, true) :: l.
Proof.
  intros HI Hb. rewrite (blocks_of_InvL _ _ _ HI) in Hb. injection Hb as <-.
  destruct HI as [Hwf _]. destruct (lay_prologue _ _ (wf_layout _ _ _ _ Hwf)) as [L ->].
  reflexivity.
Qed.

(** X17. [mm_free] merges the block with the free blocks next to it and
    keeps the list LIFO.  With the block before in use (or none), the freed
    block, grown by a free block after it, goes to the front of the list and
    that block after it leaves the list.  With the block before free, that
    block grows over the freed one, and over a free block after it, and
    keeps its place in the list. *)
Theorem free_coalesces s l1 p sz l2 fl :
  Inv s -> blocks_of s = Some (l1 ++ (p, sz, true) :: l2) -> free_list s = Some fl ->
  exists s',
    mm_free p s = Some (tt, s') /\
    (last_alloc l1 = true -> next_alloc l2 = true ->
     blocks_of s' = Some (l1 ++ (p, sz, false) :: l2) /\ free_list s' = Some (p :: fl)) /\
    (last_alloc l1 = true -> forall n nsz l2', l2 = (n, nsz, false) :: l2' ->
     blocks_of s' = Some (l1 ++ (p, sz + nsz, false) :: l2') /\
     free_list s' = Some (p :: remove Z.eq_dec n fl)) /\
    (forall l0 a asz, l1 = l0 ++ [(a, asz, false)] -> next_alloc l2 = true ->
     blocks_of s' = Some (l0 ++ (a, asz + sz, false) :: l2) /\ free_list s' = Some fl) /\
    (forall l0 a asz n nsz l2', l1 = l0 ++ [(a, asz, false)] -> l2 = (n, nsz, false) :: l2' ->
     blocks_of s' = Some (l0 ++ (a, asz + sz + nsz, false) :: l2') /\
     free_list s' = Some (remove Z.eq_dec n fl)).
Proof.
  intros HInv Hb Hfl. apply Inv_InvL in HInv as (LL & fl0 & HI).
  rewrite (free_list_InvL _ _ _ HI) in Hfl. injection Hfl as ->.
  pose proof (InvL_blocks _ _ _ _ HI Hb) as ELL.
  set (P := (head s, MINSIZE, true)) in *.
  destruct (snoc_case l1) as [->|(l0 & [[a asz] al] & ->)].
  - (* the block is the first one: the prologue is before it *)
    change (P :: [] ++ (p, sz, true) :: l2) with ([] ++ P :: (p, sz, true) :: l2) in ELL.
    rewrite ELL in HI.
    destruct (free_obs s [] P p sz l2 fl HI) as (s' & Hrun & _ & _ & Hb' & Hfl').
    exists s'. split; [assumption|]. unfold P in Hb', Hfl'.
    split; [|split; [|split]].
    + intros _ Hn. destruct l2 as [|[[n nsz] [|]] l2']; try discriminate Hn;
        simpl in Hb', Hfl'; auto.
    + intros _ n nsz l2' ->. simpl in Hb', Hfl'. auto.
    + intros l0 a asz E. destruct l0; discriminate E.
    + intros l0 a asz n nsz l2' E. destruct l0; discriminate E.
  - assert (ELL' : LL = (P :: l0) ++ (a, asz, al) :: (p, sz, true) :: l2).
    { rewrite ELL. rewrite <- app_assoc. reflexivity. }
    rewrite ELL' in HI.
    destruct (free_obs s (P :: l0) (a, asz, al) p sz l2 fl HI)
      as (s' & Hrun & _ & _ & Hb' & Hfl').
    exists s'. split; [assumption|]. rewrite last_alloc_snoc. cbn [snd].
    destruct al.
    + split; [|split; [|split]].
      * intros _ Hn. destruct l2 as [|[[n nsz] [|]] l2']; try discriminate Hn;
          simpl in Hb', Hfl'; rewrite <- app_assoc; auto.
      * intros _ n nsz l2' ->. simpl in Hb', Hfl'. rewrite <- app_assoc. auto.
      * intros l0' a' asz' E. apply app_inj_tail in E as [_ E]. discriminate E.
      * intros l0' a' asz' n nsz l2' E. apply app_inj_tail in E as [_ E]. discriminate E.
    + split; [|split; [|split]].
      * intros E. discriminate E.
      * intros E. discriminate E.
      * intros l0' a' asz' E Hn. apply app_inj_tail in E as [<- E]. injection E as <- <-.
        destruct l2 as [|[[n nsz] [|]] l2']; try discriminate Hn;
          simpl in Hb', Hfl'; auto.
      * intros l0' a' asz' n nsz l2' E ->. apply app_inj_tail in E as [<- E].
        injection E as <- <-. simpl in Hb', Hfl'. auto.
Qed.

Lemma free_coalesces_witness :
  exists s',
    mm_free 4168 busy_heap = Some (tt, s') /\
    (last_alloc [(4120, 16, true); (4136, 32, false)] = true ->
     next_alloc [(4184, 4032, false)] = true ->
     blocks_of s'
     = Some ([(4120, 16, true); (4136, 32, false)] ++ (4168, 16, false) :: [(4184, 4032, false)]) /\
     free_list s' = Some (4168 :: [4136; 4184])) /\
    (last_alloc [(4120, 16, true); (4136, 32, false)] = true ->
     forall n nsz l2', [(4184, 4032, false)] = (n, nsz, false) :: l2' ->
     blocks_of s'
     = Some ([(4120, 16, true); (4136, 32, false)] ++ (4168, 16 + nsz, false) :: l2') /\
     free_list s' = Some (4168 :: remove Z.eq_dec n [4136; 4184])) /\
    (forall l0 a asz, [(4120, 16, true); (4136, 32, false)] = l0 ++ [(a, asz, false)] ->
     next_alloc [(4184, 4032, false)] = true ->
     blocks_of s' = Some (l0 ++ (a, asz + 16, false) :: [(4184, 4032, false)]) /\
     free_list s' = Some [4136; 4184]) /\
    (forall l0 a asz n nsz l2',
     [(4120, 16, true); (4136, 32, false)] = l0 ++ [(a, asz, false)] ->
     [(4184, 4032, false)] = (n, nsz, false) :: l2' ->
     blocks_of s' = Some (l0 ++ (a, asz + 16 + nsz, false) :: l2') /\
     free_list s' = Some (remove Z.eq_dec n [4136; 4184])).
Proof.
  apply (free_coalesces busy_heap [(4120, 16, true); (4136, 32, false)] 4168 16
           [(4184, 4032, false)] [4136; 4184]).
  - busy_inv.
  - vm_compute. reflexivity.
  - vm_compute. reflexivity.
Defined.

Lemma coalesced_front l1 pa psz ptr sz l2 fl :
  (forall n nsz al, In (n, nsz, al) l2 -> 0 <= nsz) ->
  let res := coalesced l1 (pa, psz, true) ptr sz l2 fl in
  exists rsz rest,
    sz <= rsz /\ In (ptr, rsz, false) (snd (fst res)) /\ snd res = ptr :: rest.
Proof.
  intros Hpos. destruct l2 as [|[[n nsz] [|]] l2']; simpl.
  - exists sz, fl. split; [lia|]. split; [|reflexivity].
    apply in_or_app. right. right. left. reflexivity.
  - exists sz, fl. split; [lia|]. split; [|reflexivity].
    apply in_or_app. right. right. left. reflexivity.
  - exists (sz + nsz), (remove Z.eq_dec n fl).
    specialize (Hpos n nsz false (or_introl eq_refl)).
    split; [lia|]. split; [|reflexivity].
    apply in_or_app. right. right. left. reflexivity.
Qed.

Lemma round_trip_at s L1 pa psz p sz l2 fl size :
  InvL s (L1 ++ (pa, psz, true) :: (p, sz, true) :: l2) fl ->
  size_ok size -> adjust size <= sz ->
  observe (mm_free p ;;; mm_malloc size) (fun r _ => r) s = Some p.
Proof.
  intros HI Hsize Hfit.
  pose proof HI as [Hwf _]. pose proof (wf_layout _ _ _ _ Hwf) as Hlay.
  destruct (free_obs s L1 (pa, psz, true) p sz l2 fl HI) as (s' & Hrun & _ & HI' & _).
  destruct (coalesced_front L1 pa psz p sz l2 fl) as (rsz & rest & Hr & Hin & Efl).
  { intros n nsz al Hn.
    assert (Hn' : In (n, nsz, al) (L1 ++ (pa, psz, true) :: (p, sz, true) :: l2)).
    { apply in_or_app. right. right. right. assumption. }
    destruct (block_bounds _ _ Hlay _ _ _ Hn') as (_ & _ & ? & _). lia. }
  set (LL' := snd (fst (coalesced L1 (pa, psz, true) p sz l2 fl))) in *.
  set (fl' := snd (coalesced L1 (pa, psz, true) p sz l2 fl)) in *.
  destruct (block_size_InvL _ _ _ _ _ _ HI' Hin) as [Ebs _].
  assert (Efit : fit (mem s') (adjust size) fl' = p).
  { rewrite Efl. simpl. unfold block_size, HDR, WSIZE in Ebs. rewrite Ebs.
    destruct (Z.geb_spec rsz (adjust size)); [reflexivity|lia]. }
  assert (Hp0 : p <> NULL).
  { destruct (block_bounds _ _ (wf_layout _ _ _ _ (proj1 HI')) _ _ _ Hin)
      as (_ & _ & _ & _ & _ & ? & _). unfold NULL. lia. }
  unfold observe. rewrite (bind_some _ _ _ _ _ Hrun).
  destruct (mm_malloc_full s' LL' fl' size HI' Hsize)
    as [(_ & _ & Hnf)|(q & s2 & LL2 & fl2 & asz & fsz & fl1 & Hrun2 & _ & _ & _ & _ & _ & _ & _
                       & _ & _ & _ & Hfy & _)].
  - congruence.
  - rewrite Hrun2. destruct Hfy as (Eq & _); [congruence|]. congruence.
Qed.

(** X18. Free then allocate: when the block before [p] is in use (or [p] is
    the first block), freeing [p] and then requesting a size whose adjusted
    size fits the old block returns [p] again. *)
Theorem free_malloc_round_trip s l1 p sz l2 size :
  Inv s -> blocks_of s = Some (l1 ++ (p, sz, true) :: l2) -> last_alloc l1 = true ->
  size_ok size -> adjust size <= sz ->
  observe (mm_free p ;;; mm_malloc size) (fun r _ => r) s = Some p.
Proof.
  intros HInv Hb Hla Hsize Hfit. apply Inv_InvL in HInv as (LL & fl & HI).
  pose proof (InvL_blocks _ _ _ _ HI Hb) as ELL.
  destruct (snoc_case l1) as [->|(l0 & [[a asz] al] & ->)].
  - change ((head s, MINSIZE, true) :: [] ++ (p, sz, true) :: l2)
      with ([] ++ (head s, MINSIZE, true) :: (p, sz, true) :: l2) in ELL.
    rewrite ELL in HI. apply (round_trip_at _ _ _ _ _ _ _ _ _ HI Hsize Hfit).
  - rewrite last_alloc_snoc in Hla. simpl in Hla. subst al.
    assert (ELL' : LL = ((head s, MINSIZE, true) :: l0) ++ (a, asz, true) :: (p, sz, true) :: l2).
    { rewrite ELL. rewrite <- app_assoc. reflexivity. }
    rewrite ELL' in HI. apply (round_trip_at _ _ _ _ _ _ _ _ _ HI Hsize Hfit).
Qed.

Lemma free_malloc_round_trip_witness :
  observe (mm_free 4120 ;;; mm_malloc 8) (fun r _ => r) busy_heap = Some 4120.
Proof.
  apply (free_malloc_round_trip busy_heap [] 4120 16
           [(4136, 32, false); (4168, 16, true); (4184, 4032, false)] 8).
  - busy_inv.
  - vm_compute. reflexivity.
  - reflexivity.
  - unfold size_ok. lia.
  - vm_compute. discriminate.
Defined.

(** ** mm_realloc (lines 213-318) *)

(** X19. On a well-formed heap, reallocating a block in use to a non-zero
    size within range that can be served returns a block other than the old
    one (the code never resizes in place), never [NULL]; its payload holds
    the request and starts with the first [min(old payload, size)] bytes of
    the old payload, and the old block is then no longer in use. *)
Theorem realloc_moves_prefix s ptr size :
  Inv s -> allocated s ptr = true -> size_ok size -> served s size = true ->
  exists p s',
    mm_realloc ptr size s = Some (p, s') /\ Inv s' /\
    p <> NULL /\ p <> ptr /\ allocated s' p = true /\ allocated s' ptr = false /\
    size <= usable s' p /\
    forall j, 0 <= j < Z.min (usable s ptr) size -> mem s' (p + j) = mem s (ptr + j).
Proof.
  intros HInv Hp Hsize Hsv. apply Inv_InvL in HInv as (LL & fl & HI).
  apply (served_iff _ _ _ _ HI) in Hsv.
  destruct (allocated_in _ _ _ _ HI Hp) as (osz & Hin & Hne).
  destruct (adjust_ok size Hsize) as (A1 & A2 & A3).
  destruct (mm_realloc_full s LL fl ptr osz size HI Hin Hne Hsize)
    as [(_ & Hcap & Hnf)|(p & s' & LL' & fl' & asz & Hrun & HI' & Hpin & Hph & Hasz & _ & _ & _
                          & _ & Hcopy & Hpp & _ & Hal & _)].
  - destruct Hsv as [Hsv|Hsv]; [contradiction|lia].
  - exists p, s'. split; [assumption|]. split; [apply Inv_InvL; eauto|].
    destruct (block_bounds _ _ (wf_layout _ _ _ _ (proj1 HI')) _ _ _ Hpin)
      as (_ & _ & _ & _ & _ & P6 & _).
    destruct (block_size_InvL _ _ _ _ _ _ HI' Hpin) as [Eas _].
    destruct (block_size_InvL _ _ _ _ _ _ HI Hin) as [Eos _].
    unfold usable. rewrite Eas, Eos. unfold DWSIZE.
    split; [unfold NULL; lia|]. split; [assumption|].
    split; [apply (allocated_iff _ _ _ _ HI'); eauto|]. split; [|split; [lia|]].
    + apply (allocated_false _ _ _ _ HI'). intros sa Hsa.
      apply Hal in Hsa as [[E _]|(_ & E & _)]; congruence.
    + intros j Hj. apply Hcopy. lia.
Qed.

Lemma realloc_moves_prefix_witness :
  exists p s',
    mm_realloc 4168 40 busy_heap = Some (p, s') /\ Inv s' /\
    p <> NULL /\ p <> 4168 /\ allocated s' p = true /\ allocated s' 4168 = false /\
    40 <= usable s' p /\
    forall j, 0 <= j < Z.min (usable busy_heap 4168) 40 ->
              mem s' (p + j) = mem busy_heap (4168 + j).
Proof.
  apply (realloc_moves_prefix busy_heap 4168 40).
  - busy_inv.
  - vm_compute. reflexivity.
  - unfold size_ok. lia.
  - vm_compute. reflexivity.
Defined.

(** X20. A served [mm_realloc] leaves the other blocks alone: a block in
    use other than the one reallocated stays in use with its size, header,
    payload and footer and does not overlap the block returned, and the
    blocks in use afterwards are those and the block returned. *)
Theorem realloc_keeps_blocks s ptr size :
  Inv s -> allocated s ptr = true -> size_ok size -> served s size = true ->
  exists p s',
    mm_realloc ptr size s = Some (p, s') /\
    (forall q, allocated s' q = true -> q = p \/ (q <> ptr /\ allocated s q = true)) /\
    (forall q, allocated s q = true -> q <> ptr ->
       allocated s' q = true /\ block_size s' q = block_size s q /\
       (q + block_size s q <= p \/ p + block_size s' p <= q) /\
       forall x, q - WSIZE <= x < q + block_size s q - WSIZE -> mem s' x = mem s x).
Proof.
  intros HInv Hp Hsize Hsv. apply Inv_InvL in HInv as (LL & fl & HI).
  apply (served_iff _ _ _ _ HI) in Hsv.
  destruct (allocated_in _ _ _ _ HI Hp) as (osz & Hin & Hne).
  destruct (mm_realloc_full s LL fl ptr osz size HI Hin Hne Hsize)
    as [(_ & Hcap & Hnf)|(p & s' & LL' & fl' & asz & Hrun & HI' & Hpin & Hph & Hasz & G1 & G2
                          & G3 & G4 & _ & Hpp & _ & Hal & Hfresh & Hkeep & _)].
  - destruct Hsv as [Hsv|Hsv]; [contradiction|lia].
  - exists p, s'. split; [assumption|].
    pose proof HI as [Hwf _]. pose proof (wf_layout _ _ _ _ Hwf) as Hlay.
    pose proof HI' as [Hwf' _]. pose proof (wf_layout _ _ _ _ Hwf') as Hlay'.
    split.
    + intros q Hq. apply (allocated_iff _ _ _ _ HI') in Hq as (sq & Hq & Hqh).
      apply Hal in Hq as [[-> _]|(Hqp & Hqn & Hq)]; [left; reflexivity|right].
      split; [assumption|]. apply (allocated_iff _ _ _ _ HI). exists sq.
      split; [assumption|congruence].
    + intros q Hq Hqn. apply (allocated_iff _ _ _ _ HI) in Hq as (sq & Hq & Hqh).
      assert (Hqp : q <> p) by (intros ->; apply (Hfresh sq); assumption).
      assert (Hq' : In (q, sq, true) LL') by (apply Hal; right; auto).
      destruct (block_size_InvL _ _ _ _ _ _ HI Hq) as [E1 _].
      destruct (block_size_InvL _ _ _ _ _ _ HI' Hq') as [E2 _].
      destruct (block_size_InvL _ _ _ _ _ _ HI' Hpin) as [E3 _].
      rewrite E1, E2, E3.
      split; [apply (allocated_iff _ _ _ _ HI'); exists sq; split; [assumption|congruence]|].
      split; [reflexivity|]. split.
      * destruct (blocks_apart _ _ Hlay' _ _ _ _ _ _ Hq' Hpin) as [(E & _)|E];
          [contradiction|exact E].
      * intros x Hx. unfold WSIZE in Hx. apply (Hkeep q sq x Hq Hqn Hx).
        destruct (blocks_apart _ _ Hlay _ _ _ _ _ _ (head_block _ _ Hlay) Hq) as [(E & _)|E];
          [congruence|]. unfold MINSIZE in E. lia.
Qed.

Lemma realloc_keeps_blocks_witness :
  exists p s',
    mm_realloc 4168 40 busy_heap = Some (p, s') /\
    (forall q, allocated s' q = true ->
               q = p \/ (q <> 4168 /\ allocated busy_heap q = true)) /\
    (forall q, allocated busy_heap q = true -> q <> 4168 ->
       allocated s' q = true /\ block_size s' q = block_size busy_heap q /\
       (q + block_size busy_heap q <= p \/ p + block_size s' p <= q) /\
       forall x, q - WSIZE <= x < q + block_size busy_heap q - WSIZE ->
                 mem s' x = mem busy_heap x).
Proof.
  apply (realloc_keeps_blocks busy_heap 4168 40).
  - busy_inv.
  - vm_compute. reflexivity.
  - unfold size_ok. lia.
  - vm_compute. reflexivity.
Defined.

(** ** The client's side *)

(** X21. A word stored by the client inside the payload of a block in use
    lands in the region and leaves the heap well formed: the blocks, their
    tags and the free list are as before.  The allocator keeps none of its
    own data in the payloads of the blocks it has handed out. *)
Theorem payload_write_safe s p x v :
  Inv s -> allocated s p = true ->
  p <= x -> x + WSIZE <= p + usable s p -> x mod WSIZE = 0 ->
  exists s',
    SET x v s = Some (tt, s') /\ Inv s' /\ mem s' x = uint v /\
    blocks_of s' = blocks_of s /\ free_list s' = free_list s.
Proof.
  intros HInv Hp Hlo Hhi Hal. apply Inv_InvL in HInv as (LL & fl & HI).
  destruct (allocated_in _ _ _ _ HI Hp) as (sz & Hin & Hne).
  pose proof HI as [Hwf Hsz]. pose proof (wf_layout _ _ _ _ Hwf) as Hlay.
  destruct (block_bounds _ _ Hlay _ _ _ Hin) as (P1 & P2 & P3 & P4 & P5 & P6 & P7).
  destruct (lk_head _ _ Hlay) as (K1 & K2 & K3 & K4 & K5).
  destruct (block_size_InvL _ _ _ _ _ _ HI Hin) as [Ebs _].
  unfold usable, WSIZE, DWSIZE in *. rewrite Ebs in Hhi.
  set (m' := upd (mem s) x (uint v)).
  destruct (wf_payload s LL fl NULL p sz m' Hwf Hin Hne) as [Hwf' Hsz'].
  { intros y Hy. unfold m'. apply upd_other. lia. }
  assert (HI' : InvL (set_mem s m') LL fl) by (split; [assumption|apply Hsz'; assumption]).
  exists (set_mem s m'). split; [|split; [apply Inv_InvL; eauto|split; [|split]]].
  - unfold SET. replace (valid s x) with true; [reflexivity|].
    symmetry. apply valid_intro; lia.
  - fields. unfold m'. apply upd_same. reflexivity.
  - rewrite (blocks_of_InvL _ _ _ HI'), (blocks_of_InvL _ _ _ HI). reflexivity.
  - rewrite (free_list_InvL _ _ _ HI'), (free_list_InvL _ _ _ HI). reflexivity.
Qed.

Lemma payload_write_safe_witness :
  exists s',
    SET 4172 77 busy_heap = Some (tt, s') /\ Inv s' /\ mem s' 4172 = uint 77 /\
    blocks_of s' = blocks_of busy_heap /\ free_list s' = free_list busy_heap.
Proof.
  apply (payload_write_safe busy_heap 4168 4172 77).
  - busy_inv.
  - vm_compute. reflexivity.
  - lia.
  - vm_compute. discriminate.
  - reflexivity.
Defined.



(** ** Freeing a block twice *)

Lemma upd_id m p v x : m p = v -> upd m p v x = m x.
Proof. intros E. unfold upd. destruct (Z.eqb_spec x p); [subst; auto|reflexivity]. Qed.

Lemma follow_self s p fuel :
  p <> NULL -> mem s (SUCC p) = p -> follow fuel s p = None.
Proof.
  intros Hp E. induction fuel as [|fuel IH]; simpl; [reflexivity|].
  rewrite (proj2 (Z.eqb_neq _ _) Hp).
  destruct (valid s (SUCC p)); [|reflexivity]. rewrite E, IH. reflexivity.
Qed.

Lemma double_free_at s L1 pa psz p sz l2 rest :
  InvL s (L1 ++ (pa, psz, true) :: (p, sz, false) :: l2) (p :: rest) ->
  next_alloc l2 = true ->
  exists s',
    mm_free p s = Some (tt, s') /\ mem s' (SUCC p) = p /\ mem s' (PRED p) = p /\
    free_list s' = None.
Proof.
  intros [Hwf Hsz] Hna.
  set (LL := L1 ++ (pa, psz, true) :: (p, sz, false) :: l2) in *.
  pose proof (wf_layout _ _ _ _ Hwf) as Hlay.
  pose proof (wf_chain _ _ _ _ Hwf) as Hch. simpl in Hch. destruct Hch as (Hh4 & Hpp & _).
  assert (Hprev : In (pa, psz, true) LL) by (apply in_or_app; right; left; reflexivity).
  assert (Hptr : In (p, sz, false) LL) by (apply in_or_app; right; right; left; reflexivity).
  destruct (block_bounds _ _ Hlay _ _ _ Hprev) as (Q1 & Q2 & Q3 & Q4 & Q5 & Q6 & Q7).
  destruct (block_bounds _ _ Hlay _ _ _ Hptr) as (P1 & P2 & P3 & P4 & P5 & P6 & P7).
  destruct (lk_head _ _ Hlay) as (K1 & K2 & K3 & K4 & K5).
  pose proof (lay_contig _ _ Hlay) as Hc. unfold LL in Hc.
  apply contig_app in Hc as (r & _ & Hc). simpl in Hc.
  destruct Hc as (Er & _ & _ & Epp & _ & _ & Hc2).
  pose proof (lay_tags _ _ Hlay) as Ht. unfold LL in Ht.
  apply Forall_app in Ht as [_ Ht].
  pose proof (Forall_inv Ht) as T1.
  pose proof (Forall_inv (Forall_inv_tail Ht)) as T2.
  pose proof (Forall_inv_tail (Forall_inv_tail Ht)) as T3.
  destruct T2 as [T2h T2f].
  assert (R1 : Z.land (mem s (p - 8)) (Z.lnot 7) = psz).
  { replace (p - 8) with (pa + psz - 8) by lia. apply (tag_footer_size _ _ _ _ T1 Q4). }
  assert (R3 : Z.land (mem s (pa - 4)) 1 = 1) by apply T1.
  assert (R4 : Z.land (mem s (p + sz - 4)) 1 = 1).
  { destruct l2 as [|[[n nsz] nal] l2'].
    - simpl in Hc2. replace (p + sz - 4) with (mem_brk s - 4) by lia.
      rewrite (lay_epilogue _ _ Hlay). reflexivity.
    - simpl in Hc2. destruct Hc2 as (En & _ & Hm & _). pose proof (Forall_inv T3) as H1.
      replace (p + sz - 4) with (n - 4) by lia.
      rewrite (tag_header_alloc _ _ _ _ H1 Hm). rewrite next_alloc_cons in Hna.
      rewrite Hna. reflexivity. }
  assert (R2 : Z.land (mem s (p - 4)) (Z.lnot 7) = sz).
  { rewrite T2h, land_lnot7. lia. }
  set (m1 := upd (upd (mem s) (p - 4) sz) (p + sz - 8) sz).
  assert (Hm1 : forall x, m1 x = mem s x).
  { intros x. unfold m1. rewrite upd_id; [apply upd_id; assumption|].
    rewrite upd_other by lia. assumption. }
  set (s1 := set_mem s m1).
  assert (Hco : coalesce p s1 = Some (p, set_mem s1 (insert_mem m1 (head s) p))).
  { unfold coalesce.
    rewrite bind_PREV by (unfold s1; valid_tac). change (mem s1) with m1. rewrite Hm1, R1.
    rewrite bind_NEXT by (unfold s1; valid_tac). change (mem s1) with m1. rewrite Hm1, R2.
    unfold HDR at 1 2. unfold WSIZE.
    rewrite bind_ALLOC by (unfold s1; valid_tac). change (mem s1) with m1.
    replace (p - psz - 4) with (pa - 4) by lia. rewrite Hm1, R3.
    rewrite bind_ALLOC by (unfold s1; valid_tac). change (mem s1) with m1. rewrite Hm1, R4.
    rewrite bind_SIZE by (unfold s1; valid_tac). change (mem s1) with m1.
    unfold HDR, WSIZE. rewrite Hm1, R2.
    change (negb (1 =? 0) && negb (1 =? 0)) with true. cbv iota.
    rewrite bind_insert_front; [reflexivity| | | |].
    - unfold s1. valid_tac.
    - unfold s1. valid_tac.
    - unfold s1. valid_tac.
    - right. change (mem s1) with m1. change (head s1) with (head s).
      rewrite Hm1, Hh4. unfold s1. valid_tac. }
  exists (set_mem s1 (insert_mem m1 (head s) p)).
  assert (Es : mem (set_mem s1 (insert_mem m1 (head s) p)) (SUCC p) = p).
  { fields. unfold SUCC, WSIZE, insert_mem, NULL. rewrite Hm1, Hh4.
    replace (negb (p =? 0)) with true by (symmetry; apply negb_true_iff, Z.eqb_neq; lia).
    rewrite upd_other by lia. rewrite upd_same by reflexivity. apply uint_small. lia. }
  split; [|split; [exact Es|split]].
  - unfold mm_free, when.
    replace (negb (p =? NULL)) with true
      by (symmetry; apply negb_true_iff, Z.eqb_neq; unfold NULL; lia).
    rewrite bind_SIZE by valid_tac. unfold HDR, WSIZE. rewrite R2.
    unfold release.
    destruct (free_word sz) as [W1 W2]; [lia | assumption |].
    rewrite (bind_set_tags p _ _ _ _ _ W1 W2) by valid_tac.
    fold m1. fold s1. rewrite (bind_some _ _ _ _ _ Hco). reflexivity.
  - fields. unfold PRED, insert_mem, NULL. rewrite Hm1, Hh4.
    replace (negb (p =? 0)) with true by (symmetry; apply negb_true_iff, Z.eqb_neq; lia).
    rewrite upd_same by reflexivity. apply uint_small. lia.
  - unfold free_list.
    destruct (valid (set_mem s1 (insert_mem m1 (head s) p))
                    (SUCC (head (set_mem s1 (insert_mem m1 (head s) p))))); [|reflexivity].
    assert (Eh : mem (set_mem s1 (insert_mem m1 (head s) p))
                     (SUCC (head (set_mem s1 (insert_mem m1 (head s) p)))) = p).
    { fields. change (head s1) with (head s).
      unfold SUCC, WSIZE, insert_mem, NULL. rewrite Hm1, Hh4.
      replace (negb (p =? 0)) with true by (symmetry; apply negb_true_iff, Z.eqb_neq; lia).
      do 3 (rewrite upd_other by lia). rewrite upd_same by reflexivity.
      apply uint_small. lia. }
    rewrite Eh. apply follow_self; [unfold NULL; lia|exact Es].
Qed.

(** X23. Freeing a block a second time is not detected.  When the block is
    the first one on the free list and its neighbours are in use, the second
    [mm_free] returns and leaves the block as its own successor and
    predecessor: the free list, followed from the sentinel, never ends. *)
Theorem double_free_cycles s l1 p sz l2 rest :
  Inv s -> blocks_of s = Some (l1 ++ (p, sz, false) :: l2) ->
  free_list s = Some (p :: rest) -> last_alloc l1 = true -> next_alloc l2 = true ->
  exists s',
    mm_free p s = Some (tt, s') /\ mem s' (SUCC p) = p /\ mem s' (PRED p) = p /\
    free_list s' = None.
Proof.
  intros HInv Hb Hfl Hla Hna. apply Inv_InvL in HInv as (LL & fl & HI).
  rewrite (free_list_InvL _ _ _ HI) in Hfl. injection Hfl as ->.
  pose proof (InvL_blocks _ _ _ _ HI Hb) as ELL.
  destruct (snoc_case l1) as [->|(l0 & [[a asz] al] & ->)].
  - change ((head s, MINSIZE, true) :: [] ++ (p, sz, false) :: l2)
      with ([] ++ (head s, MINSIZE, true) :: (p, sz, false) :: l2) in ELL.
    rewrite ELL in HI. apply (double_free_at _ _ _ _ _ _ _ _ HI Hna).
  - rewrite last_alloc_snoc in Hla. simpl in Hla. subst al.
    assert (ELL' : LL = ((head s, MINSIZE, true) :: l0) ++ (a, asz, true) :: (p, sz, false) :: l2).
    { rewrite ELL. rewrite <- app_assoc. reflexivity. }
    rewrite ELL' in HI. apply (double_free_at _ _ _ _ _ _ _ _ HI Hna).
Qed.

Lemma double_free_cycles_witness :
  exists s',
    mm_free 4136 busy_heap = Some (tt, s') /\ mem s' (SUCC 4136) = 4136 /\
    mem s' (PRED 4136) = 4136 /\ free_list s' = None.
Proof.
  apply (double_free_cycles busy_heap [(4120, 16, true)] 4136 32
           [(4168, 16, true); (4184, 4032, false)] [4184]).
  - busy_inv.
  - vm_compute. reflexivity.
  - vm_compute. reflexivity.
  - reflexivity.
  - reflexivity.
Defined.

(** ** A drained heap *)

(** A session that frees everything it allocated. *)
Definition drain_calls : list call :=
  [Malloc 8; Malloc 24; Free 4120; Malloc 100; Free 4136; Free 4168].

(** X24. Coalescing is complete: when, after a session (every call within
    its contract, every non-zero request served), no block is in use any
    more, the heap is a single free block that spans everything the
    provider has granted except the 24 bytes of padding, prologue and
    epilogue. *)
Theorem session_drained_one_block s0 cs :
  fresh_provider s0 ->
  (forall s1, mm_init s0 = Some (0, s1) -> calls_ok s1 cs) ->
  exists s1 s l,
    mm_init s0 = Some (0, s1) /\ run_calls cs s1 = Some s /\
    blocks_of s = Some l /\
    ((forall a sz al, In (a, sz, al) l -> al = false) ->
     l = [(mem_heap s + 6 * WSIZE, granted s - 6 * WSIZE, false)]).
Proof.
  intros Hp Hok.
  destruct (session_inv s0 cs Hp Hok)
    as (s1 & s & Hinit & Hrun & (LL & fl & HI & Hna) & E1 & E2 & E3 & E4).
  exists s1, s, (tl LL). split; [assumption|]. split; [assumption|].
  split; [apply (blocks_of_InvL _ _ _ HI)|].
  intros Hfree. destruct HI as [Hwf _]. pose proof (wf_layout _ _ _ _ Hwf) as Hlay.
  destruct (lay_prologue _ _ Hlay) as [L EL].
  pose proof (lay_contig _ _ Hlay) as Hc. pose proof (lay_head _ _ Hlay) as Hh.
  rewrite EL in Hna, Hc, Hfree |- *. simpl tl in *. simpl in Hc.
  destruct Hc as (_ & _ & _ & Hc). unfold granted, WSIZE, MINSIZE in *.
  change CHUNKSIZE with 4096 in E4.
  destruct L as [|[[a sz] al] [|[[a' sz'] al'] L']].
  - simpl in Hc. lia.
  - simpl in Hc. destruct Hc as (-> & _ & _ & Hc).
    rewrite (Hfree _ _ _ (or_introl eq_refl)).
    assert (Ea : head s + 16 = mem_heap s + 6 * 4) by lia.
    assert (Es : sz = mem_brk s - mem_heap s - 6 * 4) by (simpl in Hc; lia).
    rewrite Ea, Es. reflexivity.
  - rewrite (Hfree a sz al (or_introl eq_refl)) in Hna.
    rewrite (Hfree a' sz' al' (or_intror (or_introl eq_refl))) in Hna.
    simpl in Hna. discriminate Hna.
Qed.

Lemma session_drained_one_block_witness :
  exists s1 s l,
    mm_init heap0 = Some (0, s1) /\ run_calls drain_calls s1 = Some s /\
    blocks_of s = Some l /\
    ((forall a sz al, In (a, sz, al) l -> al = false) ->
     l = [(mem_heap s + 6 * WSIZE, granted s - 6 * WSIZE, false)]).
Proof.
  apply (session_drained_one_block heap0 drain_calls).
  - fresh_heap0.
  - calls_ok_tac.
Defined.
